(** * material-scrape: the scraping server, its page pool, queue and supervisor

    A shallow embedding of [server.mjs] and of its memory-optimised variants
    [server-n8n-optimized.mjs] and [server-n8n-with-login.mjs], followed by
    the properties of the pool, the queue, the restart supervisor and the
    scrape pipeline.

    The server drives a headless browser through Puppeteer, borrows its one
    page from a generic-pool and admits jobs through a p-queue. These
    libraries are not part of the repository: every call into them is an
    event answered by an environment [Env], and the theorems quantify over
    all environments. *)

From Stdlib Require Import String Ascii List ZArith Lia Bool Arith PeanoNat DecimalString.
Import ListNotations.
Local Open Scope string_scope.
Local Open Scope nat_scope.

Set Implicit Arguments.

(* ===================================================================== *)
(** ** JavaScript values and strings *)
(* ===================================================================== *)

(** The few JavaScript values the modelled code produces or tests for
    truthiness. Objects (buffers, element handles, arrays, pages) are always
    truthy; [null] and [undefined] never are. *)
Inductive Val : Type :=
| VUndefined
| VNull
| VBool (b : bool)
| VBuffer (bytes : string)
| VHandle
| VHandles (n : nat)
| VPage (closed : bool).

Definition truthy (v : Val) : bool :=
  match v with
  | VUndefined | VNull => false
  | VBool b => b
  | VBuffer _ | VHandle | VHandles _ | VPage _ => true
  end.

(** [a && b]: the left operand when it is falsy, the right one otherwise. *)
Definition js_and (a : Val) (b : Val) : Val := if truthy a then b else a.

(** [s.includes(t)] *)
Fixpoint includes (s t : string) : bool :=
  if prefix t s then true
  else match s with
       | EmptyString => false
       | String _ s' => includes s' t
       end.

(** [s.replace(t, "")] for a non-empty string pattern [t]: the first
    occurrence is removed. *)
Fixpoint remove_first (t s : string) : string :=
  if prefix t s then substring (String.length t) (String.length s - String.length t) s
  else match s with
       | EmptyString => EmptyString
       | String c s' => String c (remove_first t s')
       end.

Definition lower_ascii (c : ascii) : ascii :=
  let n := nat_of_ascii c in
  if (65 <=? n) && (n <=? 90) then ascii_of_nat (n + 32) else c.

(** [s.toLowerCase()] on ASCII text. *)
Fixpoint toLowerCase (s : string) : string :=
  match s with
  | EmptyString => EmptyString
  | String c s' => String (lower_ascii c) (toLowerCase s')
  end.

(** [arr.includes(x)] on an array of strings. *)
Definition array_includes (arr : list string) (x : string) : bool :=
  existsb (String.eqb x) arr.

(** [arr.find(p)] *)
Definition array_find {A} (p : A -> bool) (arr : list A) : option A := find p arr.

(* ===================================================================== *)
(** ** URL validation *)
(* ===================================================================== *)

(** What the code reads from a parsed [URL]. *)
Record URL : Type := { protocol : string; hostname : string }.

Section UrlValidation.

(** [new URL(string)] of the runtime: [None] when the constructor throws. *)
Variable parseURL : string -> option URL.

(** [isValidUrl], identical in the three servers. *)
Definition isValidUrl (s : string) : bool :=
  match parseURL s with
  | Some url => String.eqb (protocol url) "http:" || String.eqb (protocol url) "https:"
  | None => false
  end.

(** [!context.url || !isValidUrl(context.url)]: an absent field and the
    empty string are both falsy. *)
Definition url_rejected (url : option string) : bool :=
  match url with
  | None => true
  | Some s => String.eqb s "" || negb (isValidUrl s)
  end.

End UrlValidation.

(** The template literal [`${context.url}`]. *)
Definition show_url (url : option string) : string :=
  match url with
  | None => "undefined"
  | Some s => s
  end.

(* ===================================================================== *)
(** ** The page pool: validation and request interception *)
(* ===================================================================== *)

(** The fields the servers attach to a pooled page. [born] is the instant
    [create] ran; the n8n servers also store it in [_created], [server.mjs]
    does not. *)
Record Page : Type := {
  born : Z;
  _created : option Z;
  _isClosed : bool;
  _hasError : bool
}.

Record Browser : Type := { isConnected : bool }.

(** [Date.now() - page._created < limit]; with [_created] undefined the
    difference is NaN and the comparison is false. *)
Definition younger_than (limit now : Z) (p : Page) : bool :=
  match _created p with
  | Some t => (now - t <? limit)%Z
  | None => false
  end.

(** Options handed to [genericPool.createPool]. *)
Record PoolOptions : Type := {
  max : nat;
  min : nat;
  testOnBorrow : bool;
  testOnReturn : bool;
  acquireTimeoutMillis : Z;
  idleTimeoutMillis : Z
}.

Inductive Decision : Type := Continue | Abort.

(** Options handed to [new PQueue]; an option left out is [None]. *)
Record QueueOptions : Type := {
  concurrency : nat;
  timeout : option Z;
  throwOnTimeout : bool
}.

(** The constants of [handleBrowserCrash], which the three servers share up
    to these values: the bound on attempts, the pause before the relaunch,
    the delay of the retry, whether the browser's pages are closed before
    the pool is drained, and whether [initializeBrowser] installs the page
    health monitor. *)
Record RestartConfig : Type := {
  MAX_RESTART_ATTEMPTS : nat;
  RESTART_DELAY : Z;
  RETRY_DELAY : Z;
  closesPagesFirst : bool;
  monitorsPages : bool
}.

Module Server.

(** [validate] of [server.mjs]:
    [page && !page._isClosed && browser && browser.isConnected()]. *)
Definition validate (page : option Page) (browser : option Browser) : Val :=
  match page with
  | None => VNull
  | Some p =>
      js_and (VBool (negb (_isClosed p)))
        (match browser with
         | None => VNull
         | Some b => VBool (isConnected b)
         end)
  end.

Definition poolOptions : PoolOptions :=
  {| max := 1; min := 1; testOnBorrow := true; testOnReturn := false;
     acquireTimeoutMillis := 60000%Z; idleTimeoutMillis := 600000%Z |}.

(** [new PQueue({ concurrency: 1 })] *)
Definition queueOptions : QueueOptions :=
  {| concurrency := 1; timeout := None; throwOnTimeout := false |}.

Definition restartConfig : RestartConfig :=
  {| MAX_RESTART_ATTEMPTS := 5; RESTART_DELAY := 5000; RETRY_DELAY := 5000;
     closesPagesFirst := true; monitorsPages := true |}.

Definition blockedTypes : list string :=
  ["image"; "media"; "font"; "texttrack"; "object"; "beacon"; "csp_report"; "imageset"].

(** The [request] listener installed by [create]. *)
Definition onRequest (resourceType : string) : Decision :=
  if array_includes blockedTypes resourceType then Abort else Continue.

End Server.

Module N8n.

Definition MAX_AGE : Z := 300000.

(** [validate] of [server-n8n-optimized.mjs]. *)
Definition validate (now : Z) (page : option Page) (browser : option Browser) : Val :=
  match page with
  | None => VNull
  | Some p =>
      js_and (VBool (negb (_isClosed p)))
        (js_and (VBool (negb (_hasError p)))
           (match browser with
            | None => VNull
            | Some b =>
                js_and (VBool (isConnected b)) (VBool (younger_than MAX_AGE now p))
            end))
  end.

Definition poolOptions : PoolOptions :=
  {| max := 1; min := 1; testOnBorrow := true; testOnReturn := true;
     acquireTimeoutMillis := 10000%Z; idleTimeoutMillis := 60000%Z |}.

(** [QUEUE_CONCURRENCY: 1], [REQUEST_TIMEOUT: 45000] *)
Definition queueOptions : QueueOptions :=
  {| concurrency := 1; timeout := Some 45000%Z; throwOnTimeout := true |}.

Definition restartConfig : RestartConfig :=
  {| MAX_RESTART_ATTEMPTS := 3; RESTART_DELAY := 2000; RETRY_DELAY := 3000;
     closesPagesFirst := false; monitorsPages := false |}.

Definition allowedTypes : list string := ["document"; "script"].

Definition onRequest (resourceType : string) : Decision :=
  if array_includes allowedTypes resourceType then Continue else Abort.

End N8n.

Module N8nLogin.

Definition MAX_AGE : Z := 600000.

(** [validate] of [server-n8n-with-login.mjs]: as in [N8n], ten minutes. *)
Definition validate (now : Z) (page : option Page) (browser : option Browser) : Val :=
  match page with
  | None => VNull
  | Some p =>
      js_and (VBool (negb (_isClosed p)))
        (js_and (VBool (negb (_hasError p)))
           (match browser with
            | None => VNull
            | Some b =>
                js_and (VBool (isConnected b)) (VBool (younger_than MAX_AGE now p))
            end))
  end.

Definition poolOptions : PoolOptions :=
  {| max := 1; min := 1; testOnBorrow := true; testOnReturn := true;
     acquireTimeoutMillis := 30000%Z; idleTimeoutMillis := 300000%Z |}.

(** [QUEUE_CONCURRENCY: 1], [REQUEST_TIMEOUT: 180000] *)
Definition queueOptions : QueueOptions :=
  {| concurrency := 1; timeout := Some 180000%Z; throwOnTimeout := true |}.

Definition restartConfig : RestartConfig :=
  {| MAX_RESTART_ATTEMPTS := 5; RESTART_DELAY := 3000; RETRY_DELAY := 5000;
     closesPagesFirst := false; monitorsPages := false |}.

Definition blockedTypes : list string := ["image"; "media"; "font"].

Definition allowCritical (resourceType url : string) : bool :=
  String.eqb resourceType "document" || String.eqb resourceType "script" ||
  String.eqb resourceType "xhr" || String.eqb resourceType "fetch" ||
  String.eqb resourceType "stylesheet" ||
  includes url "api" || includes url "login" || includes url "auth".

Definition onRequest (resourceType url : string) : Decision :=
  if array_includes blockedTypes resourceType && negb (allowCritical resourceType url)
  then Abort else Continue.

End N8nLogin.

(* ===================================================================== *)
(** ** Calls into the browser, the pool and the runtime *)
(* ===================================================================== *)

(** A delay: a fixed number of milliseconds, or one drawn with
    [Math.random()] between two bounds. *)
Inductive Dur : Type := Fixed (ms : Z) | Random (lo hi : Z).

(** The functions handed to [page.evaluate]. *)
Inductive Script : Type :=
| EvClearStorage
| EvClearValue (selector : string)
| EvClickText (text : string)
| EvStopLoading
| EvScroll
| EvCookieText
| EvGc
| EvCleanup.

Inductive Call : Type :=
| CSetUserAgent (ua : string)
| CSetViewport (width height : Z)
| CGoto (url waitUntil : string) (timeout : Z)
| CScreenshot (quality : Z) (clip : option (Z * Z))
| CWaitForSelector (selector : string) (timeout : Z)
| CFocus (selector : string)
| CType (selector : string) (ch : ascii)
| CQuery (selector : string)
| CXPath (expr : string)
| CBoundingBox
| CMouseMove
| CElementClick
| CEvaluate (fn : Script)
| CClearCache
| CDelay (d : Dur)
| CRandomBelow (permille : Z)
| CPoolAcquire
| CPoolRelease
| CPoolDestroy
| CPoolDrain
| CPoolClear
| CLaunch
| CBrowserPages
| CPageClose
| CBrowserClose
| CGlobalGc.

Inductive Outcome : Type :=
| Resolved (v : Val)
| Rejected (message : string).

(** What the outside world answers to a call: how the promise settles, how
    long that took, whether the borrowed page fired [close] meanwhile, where
    the page ended up, and whether the browser connection changed. *)
Record Reply : Type := {
  outcome : Outcome;
  elapsed : Z;
  closes : bool;
  lands : option string;
  link : option bool
}.

(** The environment answers the [n]-th call of a run. *)
Definition Env : Type := nat -> Call -> Reply.

(** What [typeof] tests find in the runtime. *)
Record Runtime : Type := {
  has_xpath : bool;        (* typeof page.$x === 'function' *)
  has_clearCache : bool;   (* page.session && typeof page.session.clearCache === 'function' *)
  gc_exposed : bool        (* typeof global.gc === 'function' *)
}.

(** The page bound to [page] in the running job. *)
Record PageState : Type := {
  isClosed : bool;         (* page._isClosed *)
  pageUrl : string;        (* page.url() *)
  inUse : bool;            (* page._inUse *)
  lastActivity : Z         (* page._lastActivity *)
}.

(** The [let] variables of [runScrapeJob] and [priceScraper] that are
    assigned inside [try] blocks and read after them. *)
Record Locals : Type := {
  page : bool;             (* page !== null *)
  pageAcquired : bool;
  loginSuccess : bool;
  stepSuccess : nat
}.

(** The variables of the server's top-level closure. *)
Record Process : Type := {
  browser : option Browser;
  pagePool : option nat;   (* the pool, numbered by creation *)
  isRestarting : bool;
  restartAttempts : nat;
  timers : list Z;         (* pending setTimeout(handleBrowserCrash, delay) *)
  monitors : nat           (* health-monitoring intervals installed *)
}.

Record World : Type := {
  env : Env;
  runtime : Runtime;
  clock : nat;
  now : Z;                 (* Date.now() *)
  trace : list Call;       (* calls made so far, latest first *)
  pg : PageState;
  loc : Locals;
  proc : Process
}.

Definition with_pg (f : PageState -> PageState) (w : World) : World :=
  {| env := env w; runtime := runtime w; clock := clock w; now := now w;
     trace := trace w; pg := f (pg w); loc := loc w; proc := proc w |}.

Definition with_loc (f : Locals -> Locals) (w : World) : World :=
  {| env := env w; runtime := runtime w; clock := clock w; now := now w;
     trace := trace w; pg := pg w; loc := f (loc w); proc := proc w |}.

Definition with_proc (f : Process -> Process) (w : World) : World :=
  {| env := env w; runtime := runtime w; clock := clock w; now := now w;
     trace := trace w; pg := pg w; loc := loc w; proc := f (proc w) |}.

Definition set_isClosed (b : bool) (p : PageState) : PageState :=
  {| isClosed := b; pageUrl := pageUrl p; inUse := inUse p; lastActivity := lastActivity p |}.
Definition set_pageUrl (u : string) (p : PageState) : PageState :=
  {| isClosed := isClosed p; pageUrl := u; inUse := inUse p; lastActivity := lastActivity p |}.
Definition set_inUse (b : bool) (p : PageState) : PageState :=
  {| isClosed := isClosed p; pageUrl := pageUrl p; inUse := b; lastActivity := lastActivity p |}.
Definition set_lastActivity (t : Z) (p : PageState) : PageState :=
  {| isClosed := isClosed p; pageUrl := pageUrl p; inUse := inUse p; lastActivity := t |}.

Definition set_page (b : bool) (l : Locals) : Locals :=
  {| page := b; pageAcquired := pageAcquired l; loginSuccess := loginSuccess l;
     stepSuccess := stepSuccess l |}.
Definition set_pageAcquired (b : bool) (l : Locals) : Locals :=
  {| page := page l; pageAcquired := b; loginSuccess := loginSuccess l;
     stepSuccess := stepSuccess l |}.
Definition set_loginSuccess (b : bool) (l : Locals) : Locals :=
  {| page := page l; pageAcquired := pageAcquired l; loginSuccess := b;
     stepSuccess := stepSuccess l |}.
Definition set_stepSuccess (n : nat) (l : Locals) : Locals :=
  {| page := page l; pageAcquired := pageAcquired l; loginSuccess := loginSuccess l;
     stepSuccess := n |}.

Definition set_browser (b : option Browser) (p : Process) : Process :=
  {| browser := b; pagePool := pagePool p; isRestarting := isRestarting p;
     restartAttempts := restartAttempts p; timers := timers p; monitors := monitors p |}.
Definition set_pagePool (q : option nat) (p : Process) : Process :=
  {| browser := browser p; pagePool := q; isRestarting := isRestarting p;
     restartAttempts := restartAttempts p; timers := timers p; monitors := monitors p |}.
Definition set_isRestarting (b : bool) (p : Process) : Process :=
  {| browser := browser p; pagePool := pagePool p; isRestarting := b;
     restartAttempts := restartAttempts p; timers := timers p; monitors := monitors p |}.
Definition set_restartAttempts (n : nat) (p : Process) : Process :=
  {| browser := browser p; pagePool := pagePool p; isRestarting := isRestarting p;
     restartAttempts := n; timers := timers p; monitors := monitors p |}.
Definition set_timers (t : list Z) (p : Process) : Process :=
  {| browser := browser p; pagePool := pagePool p; isRestarting := isRestarting p;
     restartAttempts := restartAttempts p; timers := t; monitors := monitors p |}.
Definition set_monitors (n : nat) (p : Process) : Process :=
  {| browser := browser p; pagePool := pagePool p; isRestarting := isRestarting p;
     restartAttempts := restartAttempts p; timers := timers p; monitors := n |}.

(** [browser && browser.isConnected()] *)
Definition connected (w : World) : bool :=
  match browser (proc w) with
  | Some b => isConnected b
  | None => false
  end.

(** The least time a call takes: a timer never fires early. *)
Definition min_dur (c : Call) : Z :=
  match c with
  | CDelay (Fixed ms) => Z.max 0 ms
  | CDelay (Random lo _) => Z.max 0 lo
  | _ => 0%Z
  end.

Definition relink (l : option bool) (b : option Browser) : option Browser :=
  match l, b with
  | Some c, Some _ => Some {| isConnected := c |}
  | _, _ => b
  end.

(** One call: the environment's reply, and the world once it has settled.
    Under [Promise.race] against a timer of [cap] milliseconds the caller
    resumes after at most [cap]. *)
Definition advance (cap : option Z) (c : Call) (w : World) : Reply * World :=
  let r := env w (clock w) c in
  let took := (min_dur c + Z.max 0 (elapsed r))%Z in
  let took := match cap with Some t => Z.min t took | None => took end in
  (r,
   {| env := env w; runtime := runtime w;
      clock := S (clock w);
      now := (now w + took)%Z;
      trace := c :: trace w;
      pg := {| isClosed := isClosed (pg w) || closes r;
               pageUrl := match lands r with Some u => u | None => pageUrl (pg w) end;
               inUse := inUse (pg w);
               lastActivity := lastActivity (pg w) |};
      loc := loc w;
      proc := set_browser (relink (link r) (browser (proc w))) (proc w) |}).

(* ===================================================================== *)
(** ** The monad of asynchronous code *)
(* ===================================================================== *)

(** An [async] function run to completion: it returns, throws an [Error]
    with a message, or ends the process through [process.exit]. *)
Inductive Res (A : Type) : Type :=
| Ok (a : A)
| Throw (message : string)
| Exit (code : nat).

Arguments Ok {A} a.
Arguments Throw {A} message.
Arguments Exit {A} code.

Definition M (A : Type) : Type := World -> Res A * World.

Definition ret {A} (a : A) : M A := fun w => (Ok a, w).

Definition bind {A B} (m : M A) (f : A -> M B) : M B :=
  fun w =>
    match m w with
    | (Ok a, w') => f a w'
    | (Throw e, w') => (Throw e, w')
    | (Exit n, w') => (Exit n, w')
    end.

Declare Scope js_scope.
Delimit Scope js_scope with js.
Notation "x <- c1 ;; c2" := (bind c1 (fun x => c2))
  (at level 61, c1 at next level, right associativity) : js_scope.
Notation "c1 ;; c2" := (bind c1 (fun _ => c2))
  (at level 61, right associativity) : js_scope.
Local Open Scope js_scope.

Definition throw {A} (e : string) : M A := fun w => (Throw e, w).
Definition exit {A} (n : nat) : M A := fun w => (Exit n, w).
Definition get {A} (f : World -> A) : M A := fun w => (Ok (f w), w).
Definition modify (f : World -> World) : M unit := fun w => (Ok tt, f w).
Definition when (b : bool) (m : M unit) : M unit := if b then m else ret tt.

(** [try { body } catch (e) { handler(e.message) }] *)
Definition tryCatch {A} (body : M A) (handler : string -> M A) : M A :=
  fun w =>
    match body w with
    | (Throw e, w') => handler e w'
    | r => r
    end.

(** [await promise.catch(() => {})], and [try { await promise } catch (e) {}] *)
Definition swallow {A} (m : M A) : M unit :=
  tryCatch (m ;; ret tt) (fun _ => ret tt).

(** [await call] *)
Definition perform (c : Call) : M Val :=
  fun w =>
    let (r, w') := advance None c w in
    match outcome r with
    | Resolved v => (Ok v, w')
    | Rejected e => (Throw e, w')
    end.

(** [await Promise.race([call, new Promise((_, reject) =>
      setTimeout(() => reject(new Error(msg)), ms))])] *)
Definition performWithin (ms : Z) (msg : string) (c : Call) : M Val :=
  fun w =>
    let (r, w') := advance (Some ms) c w in
    if (ms <=? elapsed r)%Z then (Throw msg, w')
    else match outcome r with
         | Resolved v => (Ok v, w')
         | Rejected e => (Throw e, w')
         end.

(** [await Promise.race([call, new Promise(r => setTimeout(r, ms))])] *)
Definition performUpTo (ms : Z) (c : Call) : M Val :=
  fun w =>
    let (r, w') := advance (Some ms) c w in
    if (ms <=? elapsed r)%Z then (Ok VUndefined, w')
    else match outcome r with
         | Resolved v => (Ok v, w')
         | Rejected e => (Throw e, w')
         end.

(** [await new Promise(r => setTimeout(r, ms))]: a timer always fires. *)
Definition sleep (d : Dur) : M unit :=
  fun w => (Ok tt, snd (advance None (CDelay d) w)).

(** [waitSafely(ms)]: [page.waitForTimeout(ms)] where Puppeteer has it, a
    plain timer otherwise; Puppeteer's [waitForTimeout] is itself a timer. *)
Definition waitSafely (ms : Z) : M unit := sleep (Fixed ms).

(** [randomDelay(min, max)] *)
Definition randomDelay (lo hi : Z) : M unit := sleep (Random lo hi).

(** [if (page._isClosed) throw new Error(msg)] *)
Definition guardOpen (msg : string) : M unit :=
  fun w => if isClosed (pg w) then (Throw msg, w) else (Ok tt, w).

(** [for (let attempt = first; attempt <= last; attempt++) body]: the body
    answers [Some a] to [break] with [a], [None] to go on; [n] is the number
    of iterations left. *)
Fixpoint forAttempts {A} (n : nat) (attempt : nat) (body : nat -> M (option A))
  : M (option A) :=
  match n with
  | O => ret None
  | S n' =>
      r <- body attempt ;;
      match r with
      | Some a => ret (Some a)
      | None => forAttempts n' (S attempt) body
      end
  end.

(* ===================================================================== *)
(** ** Jobs and their results *)
(* ===================================================================== *)

(** One step of a login recipe, by its [type] field. A [type] outside the
    four known ones matches no [case] of the interpreter. *)
Inductive LoginStep : Type :=
| StepInput (selector valueKey : string)
| StepClick (selector : string)
| StepClickText (text : string)
| StepWait (time : option Z)
| StepOther (type : string).

Record LoginSite : Type := {
  site : string;
  url : string;
  steps : list LoginStep
}.

(** The request body handed to [runScrapeJob]. *)
Record Context : Type := {
  ctx_url : option string;
  loginInstructions : list LoginSite;
  credentials : list (string * list (string * string))
}.

(** [data]: a screenshot, or [JSON.stringify({ success, error })]. *)
Inductive Data : Type :=
| Binary (v : Val)
| Json (success : bool) (error : string).

Record JobResult : Type := { data : Data; type : string }.

Definition failure (e : string) : JobResult :=
  {| data := Json false e; type := "application/json" |}.

Definition invalidUrl (u : option string) : JobResult :=
  failure ("Invalid URL: " ++ show_url u ++ ". URL must start with http:// or https://").

(** [obj[key]] on an object used as a map. *)
Fixpoint lookup {A} (key : string) (o : list (string * A)) : option A :=
  match o with
  | [] => None
  | (k, v) :: rest => if String.eqb k key then Some v else lookup key rest
  end.

(** [step.time || 1500] *)
Definition waitTime (time : option Z) : Z :=
  match time with
  | Some t => if (t =? 0)%Z then 1500%Z else t
  | None => 1500%Z
  end.

(** [stepSuccess >= loginSite.steps.length * 0.75]. The product is a multiple
    of a quarter and exact in floating point, so the test is the integer
    comparison of the two sides times four. *)
Definition mostStepsSucceeded (succeeded total : nat) : bool :=
  3 * total <=? 4 * succeeded.

Definition USER_AGENT : string :=
  "Mozilla/5.0 (Windows NT 10.0; Win64; x64) AppleWebKit/537.36 (KHTML, like Gecko) Chrome/123.0.0.0 Safari/537.36".

Definition handles (v : Val) : nat :=
  match v with VHandles n => n | _ => 0 end.

(* ===================================================================== *)
(** ** [dismissCookies] *)
(* ===================================================================== *)

(** The selectors tried in order (the attribute value quoted with single
    quotes here). *)
Definition cookieSelectors : list string :=
  ["[aria-label='Accept cookies']"; ".cookie-accept"; "#cookie-accept";
   ".cookie-banner button"; "[data-cookie-accept]"; "button.accept-cookies";
   ".consent-btn"; "#accept-cookies"].

(** The loop over the selectors; [true] when the function has returned from
    inside the loop. *)
Fixpoint trySelectors (selectors : list string) : M bool :=
  match selectors with
  | [] => ret false
  | sel :: rest =>
      closed <- get (fun w => isClosed (pg w)) ;;
      if closed then ret true
      else
        clicked <- tryCatch
                     (element <- perform (CQuery sel) ;;
                      if truthy element
                      then perform CElementClick ;; sleep (Random 300 800) ;; ret true
                      else ret false)
                     (fun _ => ret false) ;;
        if clicked then ret true else trySelectors rest
  end.

Definition dismissCookies : M unit :=
  closed <- get (fun w => isClosed (pg w)) ;;
  if closed then ret tt
  else
    tryCatch
      (returned <- trySelectors cookieSelectors ;;
       if returned then ret tt
       else
         closed <- get (fun w => isClosed (pg w)) ;;
         when (negb closed) (swallow (perform (CEvaluate EvCookieText))))
      (fun _ => ret tt).

(* ===================================================================== *)
(** ** [priceScraper] of [server.mjs] *)
(* ===================================================================== *)

(** [for (const ch of text) { await page.type(selector, ch, ...); await randomDelay(30, 100) }] *)
Fixpoint typeChars (selector text : string) : M unit :=
  match text with
  | EmptyString => ret tt
  | String ch rest =>
      perform (CType selector ch) ;;
      randomDelay 30 100 ;;
      typeChars selector rest
  end.

Definition humanType (selector text : string) : M bool :=
  tryCatch
    (perform (CWaitForSelector selector 10000) ;;
     perform (CFocus selector) ;;
     perform (CEvaluate (EvClearValue selector)) ;;
     typeChars selector text ;;
     ret true)
    (fun _ => ret false).

(** [stepSuccess++] *)
Definition countStep : M unit :=
  modify (with_loc (fun l => set_stepSuccess (S (stepSuccess l)) l)).

(** Move the mouse onto the element, pause, click, and count the step. *)
Definition moveAndClick : M unit :=
  perform CMouseMove ;;
  randomDelay 100 300 ;;
  perform CElementClick ;;
  countStep.

(** The [switch (step.type)] of the login loop. *)
Definition execStep (creds : list (string * string)) (step : LoginStep) : M unit :=
  match step with
  | StepInput selector valueKey =>
      let val := match lookup valueKey creds with
                 | Some v => v
                 | None => ""
                 end in
      inputSuccess <- humanType selector val ;;
      when inputSuccess countStep
  | StepClick selector =>
      tryCatch
        (perform (CWaitForSelector selector 10000) ;;
         el <- perform (CQuery selector) ;;
         if truthy el then
           box <- perform CBoundingBox ;;
           when (truthy box) moveAndClick
         else ret tt)
        (fun _ => ret tt)
  | StepClickText text =>
      randomDelay 500 1500 ;;
      tryCatch
        (xpath <- get (fun w => has_xpath (runtime w)) ;;
         if xpath then
           els <- perform (CXPath ("//*[contains(text(), '" ++ text ++ "')]")) ;;
           if 0 <? handles els then
             b <- perform CBoundingBox ;;
             when (truthy b) moveAndClick
           else ret tt
         else
           clicked <- perform (CEvaluate (EvClickText text)) ;;
           when (truthy clicked) countStep)
        (fun _ => ret tt)
  | StepWait time =>
      waitSafely (waitTime time) ;;
      countStep
  | StepOther _ => ret tt
  end.

(** [for (const step of loginSite.steps) { ... }] *)
Fixpoint runSteps (creds : list (string * string)) (todo : list LoginStep) : M unit :=
  match todo with
  | [] => ret tt
  | step :: rest =>
      guardOpen "Page closed during login steps" ;;
      tryCatch
        (execStep creds step ;;
         sleep (Random 1000 2000))
        (fun _ => guardOpen "Page closed during login step") ;;
      runSteps creds rest
  end.

(** [const shot = await page.screenshot({ type: 'jpeg', quality: 60 })] and
    the log of [shot.length]: reading [length] of [undefined] or [null] is
    a [TypeError]. *)
Definition debugScreenshot : M unit :=
  shot <- perform (CScreenshot 60 None) ;;
  match shot with
  | VUndefined => throw "Cannot read properties of undefined (reading 'length')"
  | VNull => throw "Cannot read properties of null (reading 'length')"
  | _ => ret tt
  end.

(** The decision taken once the steps have run. *)
Definition decideLogin (loginSite : LoginSite) : M unit :=
  currentUrl <- get (fun w => pageUrl (pg w)) ;;
  succeeded <- get (fun w => stepSuccess (loc w)) ;;
  if negb (String.eqb currentUrl (url loginSite)) then
    modify (with_loc (set_loginSuccess true))
  else if mostStepsSucceeded succeeded (List.length (steps loginSite)) then
    modify (with_loc (set_loginSuccess true))
  else ret tt.

(** The login steps, from the screenshot of the login page to the check
    that follows the last wait. *)
Definition runLoginSteps (loginSite : LoginSite) (creds : list (string * string)) : M unit :=
  closed <- get (fun w => isClosed (pg w)) ;;
  (if negb closed then debugScreenshot
   else throw "Page closed during login screenshot") ;;
  runSteps creds (steps loginSite) ;;
  waitSafely 3000 ;;
  guardOpen "Page closed after login steps".

(** The login steps up to and including the decision. *)
Definition attemptLogin (loginSite : LoginSite) (creds : list (string * string)) : M unit :=
  runLoginSteps loginSite creds ;;
  decideLogin loginSite.

(** [if (!page._isClosed) { await page.screenshot(...) }]: the screenshot of
    the location page, and the one taken after the login decision. *)
Definition screenshotIfOpen : M unit :=
  closed <- get (fun w => isClosed (pg w)) ;;
  when (negb closed) debugScreenshot.

Section Scraper.

Variable parseURL : string -> option URL.

(** [new URL(u).hostname.replace('www.', '')] *)
Definition domainOf (u : string) : option string :=
  match parseURL u with
  | Some parsed => Some (remove_first "www." (hostname parsed))
  | None => None
  end.

(** [loginInstructions.find(site => ...)]; a target URL that does not
    parse leaves [loginSite] null. *)
Definition findLoginSite (target : string) (instructions : list LoginSite)
  : option LoginSite :=
  match domainOf target with
  | None => None
  | Some domain =>
      array_find
        (fun s => match domainOf (url s) with
                  | Some sd => includes domain sd || includes sd domain
                  | None => false
                  end)
        instructions
  end.

(** The body of [if (loginSite && credentials[...])], inside its [try]. *)
Definition login (loginSite : LoginSite) (creds : list (string * string)) : M unit :=
  tryCatch
    (if negb (isValidUrl parseURL (url loginSite)) then ret tt
     else
       guardOpen "Page closed before login" ;;
       perform (CGoto (url loginSite) "domcontentloaded" 90000) ;;
       waitSafely 2000 ;;
       currentLoginUrl <- get (fun w => pageUrl (pg w)) ;;
       modify (with_loc (fun l => set_stepSuccess 0 (set_loginSuccess false l))) ;;
       if String.eqb (toLowerCase (site loginSite)) "winsupply"
          && includes currentLoginUrl "/Location/"
       then
         modify (with_loc (set_loginSuccess true)) ;;
         screenshotIfOpen
       else
         tryCatch
           (attemptLogin loginSite creds ;;
            screenshotIfOpen)
           (fun _ => guardOpen "Page closed during login process"))
    (fun _ => guardOpen "Page closed during login process").

(** The login stage: only for a matching site with credentials. *)
Definition loginStage (target : string) (ctx : Context) : M unit :=
  match findLoginSite target (loginInstructions ctx) with
  | Some loginSite =>
      match lookup (toLowerCase (site loginSite)) (credentials ctx) with
      | Some creds => login loginSite creds
      | None => ret tt
      end
  | None => ret tt
  end.

(** User agent and viewport, three tries each, ten seconds per try. *)
Definition configureOnce (msg : string) (c : Call) : M (option unit) :=
  forAttempts 3 1
    (fun attempt =>
       tryCatch
         (guardOpen "Page closed during configuration" ;;
          performWithin 10000 msg c ;;
          ret (Some tt))
         (fun e =>
            if attempt =? 3 then throw e
            else waitSafely 1000 ;; ret None)).

Definition configure : M unit :=
  tryCatch
    (configureOnce "User agent timeout" (CSetUserAgent USER_AGENT) ;;
     configureOnce "Viewport timeout" (CSetViewport 1366 768) ;;
     ret tt)
    (fun _ => guardOpen "Page closed during configuration").

(** Navigation to the target: three tries; a failed try waits, stops the
    load and silences dialogs. *)
Definition navigate (target : string) : M (option unit) :=
  guardOpen "Page closed before navigation" ;;
  forAttempts 3 1
    (fun attempt =>
       tryCatch
         (guardOpen "Page closed during navigation attempt" ;;
          perform (CGoto target "domcontentloaded" 90000) ;;
          ret (Some tt))
         (fun navError =>
            guardOpen "Page closed during navigation" ;;
            if attempt =? 3 then throw navError
            else
              waitSafely 5000 ;;
              swallow
                (closed <- get (fun w => isClosed (pg w)) ;;
                 if negb closed then performUpTo 1000 (CEvaluate EvStopLoading)
                 else ret VUndefined) ;;
              ret None)).

Definition scroll (navigationSuccessful : bool) : M unit :=
  closed <- get (fun w => isClosed (pg w)) ;;
  when (navigationSuccessful && negb closed)
    (tryCatch
       (perform (CEvaluate EvScroll) ;;
        randomDelay 1000 3000)
       (fun _ => guardOpen "Page closed during scrolling")).

(** The screenshot loop: three raced tries of the full clip, then one
    unraced try of the reduced clip. *)
Definition takeScreenshot : M (option Val) :=
  forAttempts 3 1
    (fun attempt =>
       tryCatch
         (guardOpen "Page closed before screenshot attempt" ;;
          shot <- performWithin 30000 "Screenshot timeout"
                    (CScreenshot 70 (Some (1366, 768)%Z)) ;;
          ret (Some shot))
         (fun screenshotError =>
            guardOpen "Page closed during screenshot" ;;
            if attempt =? 3 then
              tryCatch
                (closed <- get (fun w => isClosed (pg w)) ;;
                 if negb closed then
                   shot <- perform (CScreenshot 50 (Some (800, 600)%Z)) ;;
                   ret (Some shot)
                 else throw "Page closed during fallback screenshot")
                (fun _ => throw screenshotError)
            else
              waitSafely 3000 ;; ret None)).

(** The check and the memory clean-up that precede the screenshot loop. *)
Definition prepareCapture : M unit :=
  guardOpen "Page closed before taking screenshot" ;;
  tryCatch
    (closed <- get (fun w => isClosed (pg w)) ;;
     if negb closed then perform (CEvaluate EvGc) ;; ret tt else ret tt)
    (fun _ => guardOpen "Page closed during memory cleanup").

(** [if (screenshot) return { data: screenshot, type: 'image/jpeg' }; else throw ...] *)
Definition deliver (screenshot : option Val) : M JobResult :=
  match screenshot with
  | Some shot =>
      if truthy shot then ret {| data := Binary shot; type := "image/jpeg" |}
      else throw "Failed to capture screenshot after multiple attempts"
  | None => throw "Failed to capture screenshot after multiple attempts"
  end.

Definition capture : M JobResult :=
  prepareCapture ;;
  screenshot <- takeScreenshot ;;
  deliver screenshot.

(** Navigation, scrolling and the cookie banner. *)
Definition afterLogin (target : string) : M unit :=
  navigationSuccessful <- navigate target ;;
  scroll (match navigationSuccessful with Some _ => true | None => false end) ;;
  closed <- get (fun w => isClosed (pg w)) ;;
  when (negb closed) dismissCookies.

(** Everything [priceScraper] does inside its outer [try] before the
    screenshot stage. *)
Definition beforeCapture (target : string) (ctx : Context) : M unit :=
  configure ;;
  loginStage target ctx ;;
  afterLogin target.

Definition priceScraper (ctx : Context) : M JobResult :=
  if url_rejected parseURL (ctx_url ctx) then ret (invalidUrl (ctx_url ctx))
  else
    closed <- get (fun w => isClosed (pg w)) ;;
    if closed then ret (failure "Page was closed before scraping could begin")
    else
      tryCatch
        (beforeCapture (show_url (ctx_url ctx)) ctx ;;
         capture)
        (fun e => ret (failure e)).

End Scraper.

(* ===================================================================== *)
(** ** The restart supervisor *)
(* ===================================================================== *)

(** A call that cannot fail ([global.gc()]). *)
Definition call_ (c : Call) : M unit :=
  fun w => (Ok tt, snd (advance None c w)).

(** [Math.random() < p]: the environment draws. *)
Definition randomBelow (permille : Z) : M bool :=
  fun w =>
    let (r, w') := advance None (CRandomBelow permille) w in
    (Ok (match outcome r with Resolved v => truthy v | Rejected _ => false end), w').

Definition createPagePool : M unit :=
  modify (with_proc (fun p =>
    set_pagePool (Some (match pagePool p with Some n => S n | None => 0 end)) p)).

Definition setupPageHealthMonitoring : M unit :=
  modify (with_proc (fun p => set_monitors (S (monitors p)) p)).

(** [for (const page of pages) { await page.close().catch(() => {}) }] *)
Fixpoint closeAll (n : nat) : M unit :=
  match n with
  | O => ret tt
  | S k => swallow (perform CPageClose) ;; closeAll k
  end.

Section Supervisor.

Variable cfg : RestartConfig.

Definition initializeBrowser : M unit :=
  tryCatch
    (perform CLaunch ;;
     modify (with_proc (set_browser (Some {| isConnected := true |}))) ;;
     createPagePool ;;
     when (monitorsPages cfg) setupPageHealthMonitoring ;;
     modify (with_proc (set_restartAttempts 0)))
    (fun error => throw error).

(** The guard and the bookkeeping that [handleBrowserCrash] runs before
    its first [await]; [true] when the restart sequence begins. *)
Definition enterRestart : M bool :=
  restarting <- get (fun w => isRestarting (proc w)) ;;
  if restarting then ret false
  else
    modify (with_proc (set_isRestarting true)) ;;
    modify (with_proc (fun p => set_restartAttempts (S (restartAttempts p)) p)) ;;
    attempts <- get (fun w => restartAttempts (proc w)) ;;
    if MAX_RESTART_ATTEMPTS cfg <? attempts then exit 1
    else ret true.

(** Close the pages, drain and clear the pool, close the browser, collect
    garbage: every failure is swallowed where it occurs. *)
Definition teardown : M unit :=
  conn <- get connected ;;
  when (closesPagesFirst cfg && conn)
    (pages <- tryCatch (perform CBrowserPages) (fun _ => ret (VHandles 0)) ;;
     closeAll (handles pages)) ;;
  pool <- get (fun w => pagePool (proc w)) ;;
  when (match pool with Some _ => true | None => false end)
    (swallow (perform CPoolDrain) ;;
     swallow (perform CPoolClear)) ;;
  b <- get (fun w => browser (proc w)) ;;
  when (match b with Some _ => true | None => false end)
    (swallow (perform CBrowserClose)) ;;
  gc <- get (fun w => gc_exposed (runtime w)) ;;
  when gc (call_ CGlobalGc).

(** The [try]/[catch] of [handleBrowserCrash]. *)
Definition restartSequence : M unit :=
  tryCatch
    (teardown ;;
     sleep (Fixed (RESTART_DELAY cfg)) ;;
     initializeBrowser ;;
     modify (with_proc (set_isRestarting false)))
    (fun _ =>
       modify (with_proc (set_isRestarting false)) ;;
       modify (with_proc (fun p => set_timers (RETRY_DELAY cfg :: timers p) p))).

Definition handleBrowserCrash : M unit :=
  started <- enterRestart ;;
  when started restartSequence.

End Supervisor.

(* ===================================================================== *)
(** ** [runScrapeJob] of [server.mjs] *)
(* ===================================================================== *)

(** [try { body } finally { cleanup }] *)
Definition finally {A} (body : M A) (cleanup : M unit) : M A :=
  fun w =>
    match body w with
    | (Exit n, w') => (Exit n, w')
    | (r, w') =>
        match cleanup w' with
        | (Ok _, w'') => (r, w'')
        | (Throw e, w'') => (Throw e, w'')
        | (Exit n, w'') => (Exit n, w'')
        end
    end.

(** [while (!browser || !browser.isConnected()) { ... }]: the loop gives up
    once thirty seconds have passed, and every round sleeps a second, so
    [fuel] rounds are more than it can use when [fuel] is 31. *)
Fixpoint waitForBrowser (fuel : nat) (startTime : Z) : M unit :=
  fun w =>
    if connected w then (Ok tt, w)
    else if (30000 <? now w - startTime)%Z
         then (Throw "Browser not available after restart", w)
         else match fuel with
              | O => (Throw "Browser not available after restart", w)
              | S fuel' =>
                  (sleep (Fixed 1000) ;; waitForBrowser fuel' startTime) w
              end.

(** [page = await pagePool.acquire()] *)
Definition bindPage (v : Val) : M unit :=
  modify (fun w =>
    match v with
    | VPage closed => with_pg (set_isClosed closed) (with_loc (set_page true) w)
    | _ => with_loc (set_page (truthy v)) w
    end).

Definition touchPage (used : bool) : M unit :=
  modify (fun w =>
    with_pg (fun p => set_lastActivity (now w) (set_inUse used p)) w).

(** The three tries at borrowing a page. *)
Definition acquirePage : M (option unit) :=
  forAttempts 3 1
    (fun attempt =>
       tryCatch
         (v <- perform CPoolAcquire ;;
          bindPage v ;;
          have <- get (fun w => page (loc w)) ;;
          closed <- get (fun w => isClosed (pg w)) ;;
          if negb have || closed then
            when have (swallow (perform CPoolDestroy)) ;;
            ret None
          else
            touchPage true ;;
            modify (with_loc (set_pageAcquired true)) ;;
            ret (Some tt))
         (fun acquireError =>
            if attempt =? 3 then throw acquireError
            else sleep (Fixed 2000) ;; ret None)).

(** The [finally] block: hand an open page back to the pool. *)
Definition releasePage : M unit :=
  acquired <- get (fun w => pageAcquired (loc w)) ;;
  have <- get (fun w => page (loc w)) ;;
  closed <- get (fun w => isClosed (pg w)) ;;
  when (acquired && have && negb closed)
    (tryCatch
       (touchPage false ;;
        swallow (perform (CEvaluate EvCleanup)) ;;
        swallow (perform CPoolRelease))
       (fun _ => ret tt)).

Section Job.

Variable parseURL : string -> option URL.

Definition runScrapeJob (ctx : Context) : M JobResult :=
  if url_rejected parseURL (ctx_url ctx) then ret (invalidUrl (ctx_url ctx))
  else
    conn <- get connected ;;
    when (negb conn)
      (handleBrowserCrash Server.restartConfig ;;
       startTime <- get now ;;
       waitForBrowser 31 startTime) ;;
    modify (with_loc (fun l => set_pageAcquired false (set_page false l))) ;;
    finally
      (tryCatch
         (acquirePage ;;
          acquired <- get (fun w => pageAcquired (loc w)) ;;
          have <- get (fun w => page (loc w)) ;;
          (if negb acquired || negb have
           then throw "Failed to acquire a valid page from the pool"
           else ret tt) ;;
          clear <- randomBelow 100 ;;
          when clear
            (swallow
               (session <- get (fun w => has_clearCache (runtime w)) ;;
                (if session then perform CClearCache ;; ret tt else ret tt) ;;
                perform (CEvaluate EvClearStorage))) ;;
          priceScraper parseURL ctx)
         (fun error =>
            acquired <- get (fun w => pageAcquired (loc w)) ;;
            have <- get (fun w => page (loc w)) ;;
            closed <- get (fun w => isClosed (pg w)) ;;
            when (acquired && have && closed)
              (swallow (perform CPoolDestroy) ;;
               modify (with_loc (set_page false))) ;;
            ret (failure error)))
      releasePage.

End Job.

(* ===================================================================== *)
(** ** The job queue *)
(* ===================================================================== *)

Definition with_now (t : Z) (w : World) : World :=
  {| env := env w; runtime := runtime w; clock := clock w; now := t;
     trace := trace w; pg := pg w; loc := loc w; proc := proc w |}.

Definition show_Z (z : Z) : string := DecimalString.NilZero.string_of_int (Z.to_int z).

(** How the promise of [queue.add] settles when the job does. *)
Definition settled {A} (r : Res A) : Res (option A) :=
  match r with
  | Ok a => Ok (Some a)
  | Throw e => Throw e
  | Exit n => Exit n
  end.

(** The promise [queue.add(job)] returns, from the instant the queue starts
    the job. Without a [timeout] it settles as the job does. With one, a job
    that has not settled after [timeout] milliseconds is given up: the
    promise rejects with p-timeout's error, or resolves to [undefined]
    ([None]) when [throwOnTimeout] is off. *)
Definition queueRun {A} (opts : QueueOptions) (job : M A) : M (option A) :=
  fun w =>
    let (r, w') := job w in
    match timeout opts with
    | None => (settled r, w')
    | Some t =>
        if (t <=? now w' - now w)%Z then
          ((if throwOnTimeout opts
            then Throw ("Promise timed out after " ++ show_Z t ++ " milliseconds")
            else Ok None),
           with_now (now w + t)%Z w')
        else (settled r, w')
    end.

(* ===================================================================== *)
(** ** The event loop around the queue and the supervisor *)
(* ===================================================================== *)

(** Jobs are numbered in the order of [queue.add]. The queue starts them in
    that order; a started job runs [runScrapeJob], which borrows the page,
    gives it back (or destroys it) and settles. *)
Record Sched : Type := {
  added : nat;            (* jobs handed to queue.add *)
  started : nat;          (* jobs the queue has started; size = added - started *)
  pending : list nat;     (* queue.pending: started, promise not settled *)
  active : list nat;      (* jobs whose runScrapeJob is still executing *)
  holding : list nat;     (* jobs between acquire and release or destroy *)
  borrowed : nat          (* pagePool.borrowed *)
}.

Definition idle : Sched :=
  {| added := 0; started := 0; pending := []; active := []; holding := []; borrowed := 0 |}.

Definition drop (j : nat) (l : list nat) : list nat := List.remove Nat.eq_dec j l.

(** One turn of the event loop, under the options given to p-queue and to
    generic-pool: p-queue starts the next job only while fewer than
    [concurrency] are pending; generic-pool lends a page only while fewer
    than [max] are borrowed; [sched_timeout] is p-queue giving up on a job
    that keeps running; [sched_recreate] is [createPagePool] replacing the
    pool during a restart. *)
Inductive schedStep (q : QueueOptions) (p : PoolOptions) : Sched -> Sched -> Prop :=
| sched_add : forall s,
    schedStep q p s
      {| added := S (added s); started := started s; pending := pending s;
         active := active s; holding := holding s; borrowed := borrowed s |}
| sched_start : forall s,
    started s < added s ->
    List.length (pending s) < concurrency q ->
    schedStep q p s
      {| added := added s; started := S (started s); pending := started s :: pending s;
         active := started s :: active s; holding := holding s; borrowed := borrowed s |}
| sched_acquire : forall s j,
    In j (active s) -> ~ In j (holding s) ->
    borrowed s < max p ->
    schedStep q p s
      {| added := added s; started := started s; pending := pending s;
         active := active s; holding := j :: holding s; borrowed := S (borrowed s) |}
| sched_release : forall s j,
    In j (holding s) ->
    schedStep q p s
      {| added := added s; started := started s; pending := pending s;
         active := active s; holding := drop j (holding s); borrowed := pred (borrowed s) |}
| sched_settle : forall s j,
    In j (active s) ->
    schedStep q p s
      {| added := added s; started := started s; pending := drop j (pending s);
         active := drop j (active s); holding := drop j (holding s);
         borrowed := borrowed s |}
| sched_timeout : forall s j t,
    timeout q = Some t -> In j (pending s) ->
    schedStep q p s
      {| added := added s; started := started s; pending := drop j (pending s);
         active := active s; holding := holding s; borrowed := borrowed s |}
| sched_recreate : forall s,
    schedStep q p s
      {| added := added s; started := started s; pending := pending s;
         active := active s; holding := holding s; borrowed := 0 |}.

Inductive schedReach (q : QueueOptions) (p : PoolOptions) : Sched -> Prop :=
| reach_idle : schedReach q p idle
| reach_step : forall s s', schedReach q p s -> schedStep q p s s' -> schedReach q p s'.

(** The supervisor among the other tasks. [handleBrowserCrash] is called by
    the [disconnected] listener, by the health checks, by request handlers
    and by its own retry timer; each call runs [enterRestart] at once, and a
    sequence that has begun finishes later. [sequences] counts those begun
    and not yet finished; [dead] is set by [process.exit]. *)
Record Sup : Type := { world : World; sequences : nat; dead : bool }.

Inductive supStep (cfg : RestartConfig) : Sup -> Sup -> Prop :=
| sup_trigger : forall w k r w',
    enterRestart cfg w = (r, w') ->
    supStep cfg {| world := w; sequences := k; dead := false |}
      {| world := w';
         sequences := match r with Ok true => S k | _ => k end;
         dead := match r with Exit _ => true | _ => false end |}
| sup_finish : forall w k r w',
    restartSequence cfg w = (r, w') ->
    supStep cfg {| world := w; sequences := S k; dead := false |}
      {| world := w'; sequences := k; dead := false |}
| sup_other : forall w w' k,
    isRestarting (proc w') = isRestarting (proc w) ->
    supStep cfg {| world := w; sequences := k; dead := false |}
      {| world := w'; sequences := k; dead := false |}.

Inductive supReach (cfg : RestartConfig) : Sup -> Prop :=
| sup_boot : forall w,
    isRestarting (proc w) = false ->
    supReach cfg {| world := w; sequences := 0; dead := false |}
| sup_next : forall s s', supReach cfg s -> supStep cfg s s' -> supReach cfg s'.

(** [n] calls of [handleBrowserCrash] one after the other, as when each
    failed sequence is retried by its timer. *)
Fixpoint crashes (cfg : RestartConfig) (n : nat) : M unit :=
  match n with
  | O => ret tt
  | S k => handleBrowserCrash cfg ;; crashes cfg k
  end.

(* ===================================================================== *)
(** ** What a computation leaves unchanged *)
(* ===================================================================== *)

(** A relation between the world before and after that holds across every
    call into the environment. *)
Class Frame (R : World -> World -> Prop) : Prop := {
  frame_refl : forall w, R w w;
  frame_trans : forall a b c, R a b -> R b c -> R a c;
  frame_advance : forall cap c w, R w (snd (advance cap c w))
}.

Definition keeps (R : World -> World -> Prop) {A} (m : M A) : Prop :=
  forall w, R w (snd (m w)).

(** The trace only grows, and the environment stays. *)
Definition extends (w w' : World) : Prop :=
  env w' = env w /\ runtime w' = runtime w /\
  exists l, trace w' = (l ++ trace w)%list.

(** The supervisor's bookkeeping is untouched. *)
Definition sameBooks (w w' : World) : Prop :=
  env w' = env w /\ runtime w' = runtime w /\
  isRestarting (proc w') = isRestarting (proc w) /\
  restartAttempts (proc w') = restartAttempts (proc w) /\
  timers (proc w') = timers (proc w) /\
  pagePool (proc w') = pagePool (proc w) /\
  match browser (proc w) with
  | Some _ => browser (proc w') <> None
  | None => browser (proc w') = None
  end.

(** The login verdict is untouched. *)
Definition sameVerdict (w w' : World) : Prop :=
  loginSuccess (loc w') = loginSuccess (loc w).

(** The page stays open when the environment never closes it. *)
Definition staysOpen (w w' : World) : Prop :=
  env w' = env w /\
  ((forall n c, closes (env w n c) = false) ->
   isClosed (pg w) = false -> isClosed (pg w') = false).

Definition primaryShot : Call := CScreenshot 70 (Some (1366, 768)%Z).
Definition fallbackShot : Call := CScreenshot 50 (Some (800, 600)%Z).

Definition Call_eq_dec : forall a b : Call, {a = b} + {a <> b}.
Proof.
  repeat decide equality; try apply Z.eq_dec; try apply string_dec;
    try apply ascii_dec; try apply Bool.bool_dec.
Defined.

(** How often a call occurs in a trace. *)
Definition calls (c : Call) (t : list Call) : nat := count_occ Call_eq_dec t c.

(* ===================================================================== *)
(** ** Environments and worlds for the examples *)
(* ===================================================================== *)

(** A stand-in for the URL constructor on strings of the shape
    [scheme://host/...]. *)
Definition exampleParse (s : string) : option URL :=
  match index 0 "://" s with
  | Some i =>
      if i =? 0 then None
      else
        let rest := substring (i + 3) (String.length s - (i + 3)) s in
        let host := match index 0 "/" rest with
                    | Some j => substring 0 j rest
                    | None => rest
                    end in
        if String.eqb host "" then None
        else Some {| protocol := substring 0 i s ++ ":"; hostname := host |}
  | None => None
  end.

Definition resolves (v : Val) (ms : Z) : Reply :=
  {| outcome := Resolved v; elapsed := ms; closes := false; lands := None; link := None |}.

Definition rejects (e : string) (ms : Z) : Reply :=
  {| outcome := Rejected e; elapsed := ms; closes := false; lands := None; link := None |}.

(** Every call succeeds quickly; no cookie banner is found. *)
Definition calm : Env :=
  fun _ c =>
    match c with
    | CScreenshot _ _ => resolves (VBuffer "jpeg") 10
    | CGoto u _ _ =>
        {| outcome := Resolved VHandle; elapsed := 100; closes := false;
           lands := Some u; link := None |}
    | CPoolAcquire => resolves (VPage false) 10
    | CRandomBelow _ => resolves (VBool false) 0
    | CBrowserPages => resolves (VHandles 2) 10
    | CQuery _ => resolves VNull 10
    | _ => resolves VUndefined 10
    end.

(** As [calm], but the full-size screenshot hangs past its timeout and the
    reduced one returns [bytes] after [ms] milliseconds. *)
Definition sluggish (bytes : string) (ms : Z) : Env :=
  fun n c =>
    if Call_eq_dec c primaryShot then resolves (VBuffer "late") 40000
    else if Call_eq_dec c fallbackShot then resolves (VBuffer bytes) ms
    else calm n c.

(** As [calm], but elements exist for every selector except [missing]. *)
Definition without (missing : string) : Env :=
  fun n c =>
    match c with
    | CWaitForSelector sel _ =>
        if String.eqb sel missing then rejects "waiting for selector failed" 10000
        else calm n c
    | CQuery _ => resolves VHandle 10
    | CBoundingBox => resolves VHandle 10
    | _ => calm n c
    end.

(** As [calm], but the browser cannot be launched. *)
Definition stuck : Env :=
  fun n c =>
    match c with
    | CLaunch => rejects "Failed to launch the browser process" 1000
    | _ => calm n c
    end.

Definition boot (e : Env) : World :=
  {| env := e;
     runtime := {| has_xpath := true; has_clearCache := false; gc_exposed := true |};
     clock := 0; now := 0; trace := [];
     pg := {| isClosed := false; pageUrl := "about:blank"; inUse := false;
              lastActivity := 0 |};
     loc := {| page := false; pageAcquired := false; loginSuccess := false;
               stepSuccess := 0 |};
     proc := {| browser := Some {| isConnected := true |}; pagePool := Some 0;
                isRestarting := false; restartAttempts := 0; timers := [];
                monitors := 1 |} |}.

Definition plainJob (u : option string) : Context :=
  {| ctx_url := u; loginInstructions := []; credentials := [] |}.

Definition shopLogin (recipe : list LoginStep) : LoginSite :=
  {| site := "Shop"; url := "https://shop.example.com/login"; steps := recipe |}.

Definition shopJob (recipe : list LoginStep) : Context :=
  {| ctx_url := Some "https://www.shop.example.com/item/1";
     loginInstructions := [shopLogin recipe];
     credentials := [("shop", [("user", "bob"); ("pass", "s3cret")])] |}.


(* ===================================================================== *)
(** ** The properties under test *)
(* ===================================================================== *)

(** The five resource types named for the interception policy. *)
Definition fiveTypes : list string :=
  ["document"; "script"; "xhr"; "fetch"; "stylesheet"].

(** A policy that lets exactly the types of [allow] through. *)
Definition allowsExactly (allow : list string) (policy : string -> Decision) : Prop :=
  forall t, policy t = Continue <-> In t allow.

(** A page older than [maxAge] at [now]. *)
Definition stale (maxAge now : Z) (p : Page) : Prop := (maxAge < now - born p)%Z.

(** A validator that turns a page down whenever it is stale, closed, or
    cut off from the browser. *)
Definition rejectsUnfit (maxAge : Z)
    (validate : Z -> option Page -> option Browser -> Val) : Prop :=
  forall now p b,
    stale maxAge now p \/ _isClosed p = true \/ isConnected b = false ->
    truthy (validate now (Some p) (Some b)) = false.

(** An hour-old page of [server.mjs], open and attached to a live browser. *)
Definition hourOldPage : Page :=
  {| born := 0; _created := None; _isClosed := false; _hasError := false |}.

(** A URL field that is absent, does not parse, or parses to a scheme other
    than http and https. *)
Definition badUrl (parseURL : string -> option URL) (u : option string) : Prop :=
  match u with
  | None => True
  | Some s =>
      match parseURL s with
      | None => True
      | Some parsed => protocol parsed <> "http:" /\ protocol parsed <> "https:"
      end
  end.

(** The reply to the latest call of a run. *)
Definition lastReply (w : World) : Reply :=
  match trace w with
  | c :: _ => env w (pred (clock w)) c
  | [] => env w 0 CLaunch
  end.

(** An environment in which the browser never launches. *)
Definition neverLaunches (e : Env) : Prop :=
  forall n, exists msg, outcome (e n CLaunch) = Rejected msg.

(** The world once [handleBrowserCrash] has passed its guard: the flag is
    raised and the attempt counted. *)
Definition entered (w : World) : World :=
  with_proc (fun p => set_restartAttempts (S (restartAttempts p)) p)
    (with_proc (set_isRestarting true) w).

(** A computation that always returns: it neither throws nor exits. *)
Definition settles {A} (m : M A) : Prop := forall w, exists a, fst (m w) = Ok a.

(** What holds of the queue and the pool after every turn. *)
Definition schedInv (q : QueueOptions) (p : PoolOptions) (s : Sched) : Prop :=
  NoDup (active s) /\ (forall j, In j (active s) -> j < started s) /\
  NoDup (holding s) /\ incl (holding s) (active s) /\
  (timeout q = None -> incl (active s) (pending s)) /\
  NoDup (pending s) /\ (forall j, In j (pending s) -> j < started s) /\
  List.length (pending s) <= concurrency q /\
  borrowed s <= max p.

(** A queue whose every job settles within some fixed time of its start,
    and fails when the job itself would take longer. *)
Definition hardTimeout (opts : QueueOptions) : Prop :=
  exists t : Z,
    forall (A : Type) (job : M A) (w : World),
      (now (snd (queueRun opts job w)) - now w <= t)%Z /\
      ((t <= now (snd (job w)) - now w)%Z ->
       exists e, fst (queueRun opts job w) = Throw e).

(** Two jobs added, the first started and holding the page. *)
Definition oneAtWork : Sched :=
  {| added := 2; started := 1; pending := [0]; active := [0]; holding := [0];
     borrowed := 1 |}.

Definition isWait (step : LoginStep) : bool :=
  match step with StepWait _ => true | _ => false end.

(** A computation whose first call, on an open page, is [c]. *)
Definition firstCalls (c : Call) {A} (m : M A) : Prop :=
  forall w, isClosed (pg w) = false ->
            exists l, trace (snd (m w)) = (l ++ c :: trace w)%list.

(** [page.screenshot] resolves to a buffer, which is truthy. *)
Definition buffersOnly (e : Env) : Prop :=
  forall n quality clip v,
    outcome (e n (CScreenshot quality clip)) = Resolved v -> truthy v = true.

(** The page is never closed from outside. *)
Definition neverCloses (e : Env) : Prop := forall n c, closes (e n c) = false.

(** What [priceScraper] returns for the outcome of the screenshot loop. *)
Definition verdict (r : Res (option Val) * World) : Res JobResult * World :=
  match r with
  | (Ok (Some v), w) =>
      if truthy v then (Ok {| data := Binary v; type := "image/jpeg" |}, w)
      else (Ok (failure "Failed to capture screenshot after multiple attempts"), w)
  | (Ok None, w) =>
      (Ok (failure "Failed to capture screenshot after multiple attempts"), w)
  | (Throw e, w) => (Ok (failure e), w)
  | (Exit n, w) => (Exit n, w)
  end.

(** A computation that never ends the process. *)
Definition noExit {A} (m : M A) : Prop := forall w n, fst (m w) <> Exit n.

(** A property of computations that every call has and that sequencing and
    [try]/[catch] preserve; an assignment [modify f] has it when [f] is
    within [Rel]. *)
Class Compositional (P : forall A, M A -> Prop) (Rel : World -> World -> Prop) : Prop := {
  c_ret : forall A (a : A), P A (ret a);
  c_throw : forall A (e : string), P A (throw e);
  c_get : forall A (f : World -> A), P A (get f);
  c_guardOpen : forall msg, P unit (guardOpen msg);
  c_perform : forall c, P Val (perform c);
  c_performWithin : forall ms msg c, P Val (performWithin ms msg c);
  c_performUpTo : forall ms c, P Val (performUpTo ms c);
  c_sleep : forall d, P unit (sleep d);
  c_modify : forall f, (forall w, Rel w (f w)) -> P unit (modify f);
  c_bind : forall A B (m : M A) (f : A -> M B),
      P A m -> (forall a, P B (f a)) -> P B (bind m f);
  c_tryCatch : forall A (body : M A) (handler : string -> M A),
      P A body -> (forall e, P A (handler e)) -> P A (tryCatch body handler)
}.

(** The first navigation to the target. *)
Definition gotoTarget (target : string) : Call := CGoto target "domcontentloaded" 90000.

(** Five steps of which the click on [#missing] fails. *)
Definition fourOfFive : list LoginStep :=
  [StepInput "#user" "user"; StepInput "#pass" "pass"; StepClick "#missing";
   StepWait None; StepClick "#submit"].

(** Two steps of which the click on [#missing] fails. *)
Definition oneOfTwo : list LoginStep := [StepClick "#missing"; StepWait (Some 500%Z)].

(** The environment of the login examples. *)
Definition shopEnv : Env := without "#missing".

Definition shopCreds : list (string * string) := [("user", "bob"); ("pass", "s3cret")].

(** Three waits, nothing else. *)
Definition onlyWaits : list LoginStep := [StepWait None; StepWait (Some 0%Z); StepWait (Some 250%Z)].

(** The world after a wait step and the pause that follows every step. *)
Definition afterWait (time : option Z) (w : World) : World :=
  snd (advance None (CDelay (Random 1000 2000))
         (with_loc (fun l => set_stepSuccess (S (stepSuccess l)) l)
            (snd (advance None (CDelay (Fixed (waitTime time))) w)))).
(* ===================================================================== *)
(** ** The routes and the shutdown handler of [server.mjs] *)
(* ===================================================================== *)

(** The JSON body of a reply: the image of a successful scrape, or a
    status with its error message. *)
Inductive Body : Type :=
| ImageBody (mimeType : string) (image : Data)
| ResultBody (success : bool) (error : string).

(** [res.status(code).json(body)]; [res.json(body)] answers 200. *)
Record Response : Type := { statusCode : nat; payload : Body }.

Definition badRequest (e : string) : Response :=
  {| statusCode := 400; payload := ResultBody false e |}.

(** What [POST /scrape] answers once the job has settled with [result]. A
    buffer of image data handed to [JSON.parse] is no JSON text. *)
Definition respond (result : JobResult) : Response :=
  if prefix "image/" (type result) then
    {| statusCode := 200; payload := ImageBody (type result) (data result) |}
  else if String.eqb (type result) "application/json" then
    match data result with
    | Json success error =>
        {| statusCode := if success then 200 else 400; payload := ResultBody success error |}
    | Binary _ =>
        {| statusCode := 500; payload := ResultBody false "Failed to parse error response" |}
    end
  else badRequest "Unexpected non-image result".

(** [err.message.includes('Browser') || err.message.includes('Target closed')] *)
Definition blamesBrowser (message : string) : bool :=
  includes message "Browser" || includes message "Target closed".

Section Routes.

Variable parseURL : string -> option URL.

(** The handler of [POST /scrape]. The job is run from the instant the
    queue starts it; reading [type] of a result that is [undefined] is a
    [TypeError]. *)
Definition postScrape (req : Context) : M Response :=
  tryCatch
    (match ctx_url req with
     | None => ret (badRequest "URL is required")
     | Some u =>
         if String.eqb u "" then ret (badRequest "URL is required")
         else if negb (isValidUrl parseURL u) then
           ret (badRequest ("Invalid URL: " ++ u
                            ++ ". URL must start with http:// or https://"))
         else
           result <- queueRun Server.queueOptions (runScrapeJob parseURL req) ;;
           match result with
           | Some r => ret (respond r)
           | None => throw "Cannot read properties of undefined (reading 'type')"
           end
     end)
    (fun message =>
       when (blamesBrowser message) (handleBrowserCrash Server.restartConfig) ;;
       ret {| statusCode := 500; payload := ResultBody false message |}).

End Routes.

(** The reply of [GET /healthz], without the memory figures of the healthy
    reply. *)
Record Health : Type := {
  httpStatus : nat;
  healthy : bool;          (* status: 'healthy' | 'unhealthy' *)
  browserUp : bool;        (* browser: 'connected' | 'disconnected' *)
  restarting : bool;
  pageCount : nat;
  totalPages : nat
}.

(** A call that is made and not awaited: it is on record at once, and it
    settles in a later turn. *)
Definition startCall (c : Call) : M unit :=
  modify (fun w =>
    {| env := env w; runtime := runtime w; clock := clock w; now := now w;
       trace := c :: trace w; pg := pg w; loc := loc w; proc := proc w |}).

(** [handleBrowserCrash()] of [server.mjs] called without [await]: it runs
    up to its first [await] and goes on in later turns. After the guard and
    the bookkeeping, that [await] is on the first call of the teardown that
    applies: the pages of a connected browser, else the drain of the pool,
    else the close of the browser, else, after [global.gc()], the timer of
    the pause. [true] when a restart has begun. *)
Definition beginRestart : M bool :=
  begun <- enterRestart Server.restartConfig ;;
  if begun then
    conn <- get connected ;;
    pool <- get (fun w => pagePool (proc w)) ;;
    b <- get (fun w => browser (proc w)) ;;
    gc <- get (fun w => gc_exposed (runtime w)) ;;
    (if conn then startCall CBrowserPages
     else
       match pool, b with
       | Some _, _ => startCall CPoolDrain
       | None, Some _ => startCall CBrowserClose
       | None, None =>
           when gc (call_ CGlobalGc) ;;
           startCall (CDelay (Fixed (RESTART_DELAY Server.restartConfig)))
       end) ;;
    ret true
  else ret false.

(** The handler of [GET /healthz]; [lent] is what [pagePool.borrowed] reads.
    The handler does not await [handleBrowserCrash()]: the reply is built
    when that call has reached its first [await]. The second component
    tells whether a restart has begun. *)
Definition healthz (lent : nat) : M (Health * bool) :=
  browserConnected <- get connected ;;
  pool <- get (fun w => pagePool (proc w)) ;;
  let pageCount := match pool with Some _ => lent | None => 0 end in
  conn <- get connected ;;
  totalPages <- (if conn then pages <- perform CBrowserPages ;; ret (handles pages)
                 else ret 0) ;;
  if negb browserConnected then
    begun <- beginRestart ;;
    flag <- get (fun w => isRestarting (proc w)) ;;
    ret ({| httpStatus := 503; healthy := false; browserUp := false; restarting := flag;
            pageCount := pageCount; totalPages := totalPages |}, begun)
  else
    flag <- get (fun w => isRestarting (proc w)) ;;
    ret ({| httpStatus := 200; healthy := true; browserUp := true; restarting := flag;
            pageCount := pageCount; totalPages := totalPages |}, false).

(** The [SIGTERM] handler of [server.mjs] from the statement that follows
    its wait on the queue (it has closed the server and paused the queue,
    and has waited for [queue.onIdle()] when a job was in progress): drain
    and clear the pool, close the browser, collect garbage, exit with code
    0. *)
Definition releaseAndExit : M unit :=
  pool <- get (fun w => pagePool (proc w)) ;;
  when (match pool with Some _ => true | None => false end)
    (swallow (perform CPoolDrain) ;;
     swallow (perform CPoolClear)) ;;
  b <- get (fun w => browser (proc w)) ;;
  when (match b with Some _ => true | None => false end)
    (swallow (perform CBrowserClose)) ;;
  gc <- get (fun w => gc_exposed (runtime w)) ;;
  when gc (call_ CGlobalGc) ;;
  exit 0.

(* ===================================================================== *)
(** ** Memory limits and the job of the n8n servers *)
(* ===================================================================== *)

(** [process.memoryUsage()], in bytes; [getMemoryStats()], in megabytes. *)
Record MemoryUsage : Type := { rss : Z; heapUsed : Z; heapTotal : Z; external : Z }.

(** The entries of [MEMORY_LIMITS] that the code reads. *)
Record Limits : Type := {
  SCREENSHOT_QUALITY : Z;
  SCREENSHOT_WIDTH : Z;
  SCREENSHOT_HEIGHT : Z;
  PAGE_TIMEOUT : Z;
  RESTART_THRESHOLD : Z;
  MAX_REQUESTS_BEFORE_RESTART : nat;
  GC_FREQUENCY : nat
}.

(** [Math.round(bytes / 1024 / 1024)]: the division by a power of two is
    exact, and [Math.round] rounds a half upwards. *)
Definition megabytes (bytes : Z) : Z := ((bytes + 524288) / 1048576)%Z.

Definition getMemoryStats (mem : MemoryUsage) : MemoryUsage :=
  {| rss := megabytes (rss mem); heapUsed := megabytes (heapUsed mem);
     heapTotal := megabytes (heapTotal mem); external := megabytes (external mem) |}.

Definition isMemoryCritical (limits : Limits) (mem : MemoryUsage) : bool :=
  let stats := getMemoryStats mem in
  (RESTART_THRESHOLD limits <? heapUsed stats)%Z
  || (RESTART_THRESHOLD limits + 200 <? rss stats)%Z.

(** The double quote, for selectors that contain one. *)
Definition dq : string := String (ascii_of_nat 34) EmptyString.

(** [value.length] on the result of a call: reading a property of
    [undefined] or [null] throws. *)
Definition lengthOf (v : Val) : M unit :=
  match v with
  | VUndefined => throw "Cannot read properties of undefined (reading 'length')"
  | VNull => throw "Cannot read properties of null (reading 'length')"
  | _ => ret tt
  end.

(** [setTimeout(handleBrowserCrash, delay)] *)
Definition scheduleRestart (delay : Z) : M unit :=
  modify (with_proc (fun p => set_timers (delay :: timers p) p)).

Module Optimized.

(** [MEMORY_LIMITS] of [server-n8n-optimized.mjs]. *)
Definition MEMORY_LIMITS : Limits :=
  {| SCREENSHOT_QUALITY := 60; SCREENSHOT_WIDTH := 1280; SCREENSHOT_HEIGHT := 900;
     PAGE_TIMEOUT := 25000; RESTART_THRESHOLD := 700;
     MAX_REQUESTS_BEFORE_RESTART := 500; GC_FREQUENCY := 10 |}.

Definition cookieSelectors : list string :=
  ["[aria-label*=" ++ dq ++ "Accept" ++ dq ++ "]"; ".cookie-accept"; "#cookie-accept"].

(** The loop of [dismissCookies]: it returns after the first click. *)
Fixpoint clickFirst (selectors : list string) : M unit :=
  match selectors with
  | [] => ret tt
  | sel :: rest =>
      closed <- get (fun w => isClosed (pg w)) ;;
      if closed then ret tt
      else
        clicked <- tryCatch
                     (element <- perform (CQuery sel) ;;
                      if truthy element then perform CElementClick ;; ret true
                      else ret false)
                     (fun _ => ret false) ;;
        if clicked then ret tt else clickFirst rest
  end.

Definition dismissCookies : M unit :=
  closed <- get (fun w => isClosed (pg w)) ;;
  if closed then ret tt
  else tryCatch (clickFirst cookieSelectors) (fun _ => ret tt).

Definition USER_AGENT : string :=
  "Mozilla/5.0 (Windows NT 10.0; Win64; x64) AppleWebKit/537.36".

Definition fastScraper (target : string) : M JobResult :=
  guardOpen "Page closed" ;;
  tryCatch
    (perform (CSetUserAgent USER_AGENT) ;;
     perform (CGoto target "domcontentloaded" (PAGE_TIMEOUT MEMORY_LIMITS)) ;;
     sleep (Fixed 500) ;;
     dismissCookies ;;
     guardOpen "Page closed before screenshot" ;;
     screenshot <- perform (CScreenshot (SCREENSHOT_QUALITY MEMORY_LIMITS)
                              (Some (SCREENSHOT_WIDTH MEMORY_LIMITS,
                                     SCREENSHOT_HEIGHT MEMORY_LIMITS))) ;;
     lengthOf screenshot ;;
     ret {| data := Binary screenshot; type := "image/jpeg" |})
    (fun e => ret (failure e)).

(** What the [try] of [runScrapeJob] does with the page it has been lent. A
    page that is [undefined] has no [_isClosed] to read. *)
Definition withPage (target : string) : M JobResult :=
  have <- get (fun w => page (loc w)) ;;
  (if have then ret tt
   else throw "Cannot read properties of undefined (reading '_isClosed')") ;;
  fastScraper target.

(** The [finally] block of [runScrapeJob]. *)
Definition giveBack : M unit :=
  acquired <- get (fun w => pageAcquired (loc w)) ;;
  have <- get (fun w => page (loc w)) ;;
  closed <- get (fun w => isClosed (pg w)) ;;
  when (acquired && have && negb closed)
    (tryCatch
       (swallow (perform (CEvaluate EvGc)) ;;
        perform CPoolRelease ;;
        ret tt)
       (fun _ => ret tt)).

(** [runScrapeJob] from the [try] on. *)
Definition serve (target : string) : M JobResult :=
  modify (with_loc (fun l => set_pageAcquired false (set_page false l))) ;;
  finally
    (tryCatch
       (v <- perform CPoolAcquire ;;
        bindPage v ;;
        modify (with_loc (set_pageAcquired true)) ;;
        withPage target)
       (fun error => ret (failure error)))
    giveBack.

Section Job.

Variable parseURL : string -> option URL.

(** [runScrapeJob]; [requestCount] is the counter once [requestCount++] has
    run, [mem] what [process.memoryUsage()] reads. The timer of the planned
    restart also sets the counter back to zero when it fires. *)
Definition runScrapeJob (requestCount : nat) (mem : MemoryUsage) (ctx : Context)
  : M JobResult :=
  gc <- get (fun w => gc_exposed (runtime w)) ;;
  when ((requestCount mod GC_FREQUENCY MEMORY_LIMITS =? 0) && gc) (call_ CGlobalGc) ;;
  if isMemoryCritical MEMORY_LIMITS mem then
    scheduleRestart 100 ;;
    throw "Memory critical - restart initiated"
  else
    when (MAX_REQUESTS_BEFORE_RESTART MEMORY_LIMITS <=? requestCount)
      (scheduleRestart 100) ;;
    if url_rejected parseURL (ctx_url ctx)
    then ret (failure ("Invalid URL: " ++ show_url (ctx_url ctx)))
    else serve (show_url (ctx_url ctx)).

End Job.

End Optimized.

Module WithLogin.

(** [MEMORY_LIMITS] of [server-n8n-with-login.mjs]. *)
Definition MEMORY_LIMITS : Limits :=
  {| SCREENSHOT_QUALITY := 70; SCREENSHOT_WIDTH := 1366; SCREENSHOT_HEIGHT := 768;
     PAGE_TIMEOUT := 150000; RESTART_THRESHOLD := 600;
     MAX_REQUESTS_BEFORE_RESTART := 300; GC_FREQUENCY := 5 |}.

End WithLogin.

(* ===================================================================== *)
(** ** Further properties *)
(* ===================================================================== *)

(** What a computation may do to the world: make a call that [ok] accepts,
    or assign as [upd] allows. *)
Inductive reach (ok : Call -> bool) (upd : World -> World -> Prop) : World -> World -> Prop :=
| reach_stay : forall w, reach ok upd w w
| reach_call : forall w w1 cap c,
    reach ok upd w w1 -> ok c = true -> reach ok upd w (snd (advance cap c w1))
| reach_set : forall w w1 w2,
    reach ok upd w w1 -> upd w1 w2 -> reach ok upd w w2.

Definition confined (ok : Call -> bool) (upd : World -> World -> Prop) {A} (m : M A) : Prop :=
  forall w, reach ok upd w (snd (m w)).

(** Calls on the borrowed page, and timers. *)
Definition pageCall (c : Call) : bool :=
  match c with
  | CSetUserAgent _ | CSetViewport _ _ | CGoto _ _ _ | CScreenshot _ _
  | CWaitForSelector _ _ | CFocus _ | CType _ _ | CQuery _ | CXPath _
  | CBoundingBox | CMouseMove | CElementClick | CEvaluate _ | CDelay _ => true
  | _ => false
  end.

(** Calls on the pool that lend a page or take one back. *)
Definition poolCall (c : Call) : bool :=
  match c with
  | CPoolAcquire | CPoolRelease | CPoolDestroy => true
  | _ => false
  end.

(** The calls of a job on its page, with the draw and the cache clearing
    that precede the scrape. *)
Definition workCall (c : Call) : bool :=
  pageCall c || match c with CRandomBelow _ | CClearCache => true | _ => false end.

(** The calls of a job that finds the browser connected. *)
Definition jobCall (c : Call) : bool := workCall c || poolCall c.

(** The calls of a restart. *)
Definition restartCall (c : Call) : bool :=
  match c with
  | CBrowserPages | CPageClose | CPoolDrain | CPoolClear | CBrowserClose
  | CGlobalGc | CLaunch | CDelay _ => true
  | _ => false
  end.

(** The calls of the shutdown handler once past its wait on the queue. *)
Definition shutdownCall (c : Call) : bool :=
  match c with
  | CPoolDrain | CPoolClear | CBrowserClose | CGlobalGc => true
  | _ => false
  end.

(** The calls of [dismissCookies]. *)
Definition cookieCall (c : Call) : bool :=
  match c with
  | CQuery _ | CElementClick | CDelay (Random 300 800) | CEvaluate EvCookieText => true
  | _ => false
  end.

(** An assignment to the login counters and nothing else. *)
Definition countsOnly (w w' : World) : Prop :=
  env w' = env w /\ runtime w' = runtime w /\ clock w' = clock w /\ now w' = now w /\
  trace w' = trace w /\ pg w' = pg w /\ proc w' = proc w /\
  page (loc w') = page (loc w) /\ pageAcquired (loc w') = pageAcquired (loc w).

(** An assignment to the variables of the job and to the fields it keeps on
    its page. *)
Definition jobOnly (w w' : World) : Prop :=
  env w' = env w /\ runtime w' = runtime w /\ clock w' = clock w /\ now w' = now w /\
  trace w' = trace w /\ proc w' = proc w.

(** An assignment to the variables of the server's closure. *)
Definition booksOnly (w w' : World) : Prop :=
  env w' = env w /\ runtime w' = runtime w /\ clock w' = clock w /\ now w' = now w /\
  trace w' = trace w /\ pg w' = pg w /\ loc w' = loc w.

(** No assignment at all. *)
Definition nothing (w w' : World) : Prop := w' = w.

(** The calls [l] were added to the trace, all of them accepted by [ok]. *)
Definition madeOnly (ok : Call -> bool) (w w' : World) : Prop :=
  exists l, trace w' = (l ++ trace w)%list /\ forallb ok l = true.

(** The variables of the job that say which page it holds. *)
Definition sameHold (w w' : World) : Prop :=
  page (loc w') = page (loc w) /\ pageAcquired (loc w') = pageAcquired (loc w).

(** A result as the routes expect one: a JPEG whose data is truthy, or the
    JSON of a failure. *)
Definition wellFormed (r : JobResult) : Prop :=
  (exists v, truthy v = true /\ r = {| data := Binary v; type := "image/jpeg" |}) \/
  (exists e, r = failure e).

(** A result of either kind, whatever its data. *)
Definition shaped (r : JobResult) : Prop :=
  (exists v, r = {| data := Binary v; type := "image/jpeg" |}) \/ (exists e, r = failure e).

(** The characters handed to [page.type] for [selector], oldest first, among
    calls listed latest first. *)
Fixpoint typed (selector : string) (l : list Call) : string :=
  match l with
  | [] => EmptyString
  | CType s ch :: rest =>
      if String.eqb s selector then typed selector rest ++ String ch EmptyString
      else typed selector rest
  | _ :: rest => typed selector rest
  end.

(** The calls of a kind among [l]. *)
Definition countIf (kind : Call -> bool) (l : list Call) : nat :=
  List.length (filter kind l).

Definition isQuery (c : Call) : bool :=
  match c with CQuery _ => true | _ => false end.

(** What the [try] of [runScrapeJob] in [server.mjs] does once the loop
    that borrows a page has ended. *)
Definition afterAcquire (parseURL : string -> option URL) (ctx : Context) : M JobResult :=
  acquired <- get (fun w => pageAcquired (loc w)) ;;
  have <- get (fun w => page (loc w)) ;;
  (if negb acquired || negb have
   then throw "Failed to acquire a valid page from the pool"
   else ret tt) ;;
  clear <- randomBelow 100 ;;
  when clear
    (swallow
       (session <- get (fun w => has_clearCache (runtime w)) ;;
        (if session then perform CClearCache ;; ret tt else ret tt) ;;
        perform (CEvaluate EvClearStorage))) ;;
  priceScraper parseURL ctx.

(** The body of the [try] of [runScrapeJob]. *)
Definition jobBody (parseURL : string -> option URL) (ctx : Context) : M JobResult :=
  acquirePage ;; afterAcquire parseURL ctx.

(** The [catch] block of [runScrapeJob] in [server.mjs]. *)
Definition jobCatch (error : string) : M JobResult :=
  acquired <- get (fun w => pageAcquired (loc w)) ;;
  have <- get (fun w => page (loc w)) ;;
  closed <- get (fun w => isClosed (pg w)) ;;
  when (acquired && have && closed)
    (swallow (perform CPoolDestroy) ;;
     modify (with_loc (set_page false))) ;;
  ret (failure error).

(** The world in which [runScrapeJob] enters its [try]. *)
Definition atTry (w : World) : World :=
  with_loc (fun l => set_pageAcquired false (set_page false l)) w.

(** [runScrapeJob] from the [try] on. *)
Definition jobRest (parseURL : string -> option URL) (ctx : Context) : M JobResult :=
  modify atTry ;;
  finally (tryCatch (jobBody parseURL ctx) jobCatch) releasePage.

(** What [runScrapeJob] does first when it finds the browser disconnected. *)
Definition restartAndWait : M unit :=
  handleBrowserCrash Server.restartConfig ;;
  startTime <- get now ;;
  waitForBrowser 31 startTime.

(** A job whose URL passes the check and that finds the browser connected. *)
Definition passesChecks (parseURL : string -> option URL) (ctx : Context) (w : World) : Prop :=
  url_rejected parseURL (ctx_url ctx) = false /\ connected w = true.

(** One round of the navigation loop of [priceScraper]. *)
Definition navAttempt (target : string) (attempt : nat) : M (option unit) :=
  tryCatch
    (guardOpen "Page closed during navigation attempt" ;;
     perform (CGoto target "domcontentloaded" 90000) ;;
     ret (Some tt))
    (fun navError =>
       guardOpen "Page closed during navigation" ;;
       if attempt =? 3 then throw navError
       else
         waitSafely 5000 ;;
         swallow
           (closed <- get (fun w => isClosed (pg w)) ;;
            if negb closed then performUpTo 1000 (CEvaluate EvStopLoading)
            else ret VUndefined) ;;
         ret None).

(** One round of the loop of [runScrapeJob] that borrows a page. *)
Definition acquireAttempt (attempt : nat) : M (option unit) :=
  tryCatch
    (v <- perform CPoolAcquire ;;
     bindPage v ;;
     have <- get (fun w => page (loc w)) ;;
     closed <- get (fun w => isClosed (pg w)) ;;
     if negb have || closed then
       when have (swallow (perform CPoolDestroy)) ;;
       ret None
     else
       touchPage true ;;
       modify (with_loc (set_pageAcquired true)) ;;
       ret (Some tt))
    (fun acquireError =>
       if attempt =? 3 then throw acquireError
       else sleep (Fixed 2000) ;; ret None).

(** The variables of the job are left as they were. *)
Definition sameLoc (w w' : World) : Prop := loc w' = loc w.

(** What one round of the navigation loop does. *)
Definition navRound (target : string) (attempt : nat) (w : World)
    (r : Res (option unit)) (w' : World) : Prop :=
  let goto := gotoTarget target in
  calls goto (trace w') <= calls goto (trace w) + 1 /\
  match r with
  | Ok (Some _) =>
      hd_error (trace w') = Some goto /\ exists v, outcome (lastReply w') = Resolved v
  | Ok None =>
      attempt <> 3 /\ calls goto (trace w') = calls goto (trace w) + 1
  | Throw e =>
      isClosed (pg w') = true \/
      (attempt = 3 /\ calls goto (trace w') = calls goto (trace w) + 1 /\
       hd_error (trace w') = Some goto /\ outcome (lastReply w') = Rejected e)
  | Exit _ => False
  end.

(** What one round of the acquisition loop does. *)
Definition acqRound (attempt : nat) (w : World) (r : Res (option unit)) (w' : World) : Prop :=
  calls CPoolAcquire (trace w') = S (calls CPoolAcquire (trace w)) /\
  calls CPoolRelease (trace w') = calls CPoolRelease (trace w) /\
  match r with
  | Ok (Some _) =>
      calls CPoolDestroy (trace w') = calls CPoolDestroy (trace w) /\
      hd_error (trace w') = Some CPoolAcquire /\
      pageAcquired (loc w') = true /\ page (loc w') = true /\ isClosed (pg w') = false /\
      inUse (pg w') = true /\ lastActivity (pg w') = now w'
  | Ok None =>
      calls CPoolDestroy (trace w') <= S (calls CPoolDestroy (trace w)) /\
      pageAcquired (loc w') = pageAcquired (loc w)
  | Throw e =>
      attempt = 3 /\ calls CPoolDestroy (trace w') = calls CPoolDestroy (trace w) /\
      pageAcquired (loc w') = pageAcquired (loc w) /\
      hd_error (trace w') = Some CPoolAcquire /\ outcome (lastReply w') = Rejected e
  | Exit _ => False
  end.

(** The replies of [POST /scrape]. *)
Definition scrapeReply (w : World) (resp : Response) : Prop :=
  (statusCode resp = 200 /\
   exists v, truthy v = true /\ payload resp = ImageBody "image/jpeg" (Binary v)) \/
  (statusCode resp = 400 /\ exists e, payload resp = ResultBody false e) \/
  (statusCode resp = 500 /\ connected w = false /\
   payload resp = ResultBody false "Browser not available after restart").

(* ===================================================================== *)
(** ** More environments and worlds for the examples *)
(* ===================================================================== *)

(** As [calm], but every navigation fails and takes the page with it. *)
Definition crashing : Env :=
  fun n c =>
    match c with
    | CGoto _ _ _ =>
        {| outcome := Rejected "Target closed"; elapsed := 10; closes := true;
           lands := None; link := None |}
    | _ => calm n c
    end.

Definition exampleJob : Context := plainJob (Some "https://example.com/").

(** As [shopJob], with the credentials under a capitalised key. *)
Definition shopJobCapitalised (recipe : list LoginStep) : Context :=
  {| ctx_url := Some "https://www.shop.example.com/item/1";
     loginInstructions := [shopLogin recipe];
     credentials := [("Shop", [("user", "bob"); ("pass", "s3cret")])] |}.

(** 800 MiB of heap in use, 300 MiB resident. *)
Definition heavy : MemoryUsage :=
  {| rss := 314572800; heapUsed := 838860800; heapTotal := 1073741824; external := 0 |}.

(** 200 MiB of heap in use, 300 MiB resident. *)
Definition light : MemoryUsage :=
  {| rss := 314572800; heapUsed := 209715200; heapTotal := 1073741824; external := 0 |}.

(* ===================================================================== *)
(** ** The login stage of [priceScraper], part by part *)
(* ===================================================================== *)

(** What [login] does between the check of the login URL and the steps:
    it goes to the login page, waits two seconds, reads the URL and
    declares [loginSuccess] and [stepSuccess]. It returns
    [currentLoginUrl]. *)
Definition openLoginPage (loginSite : LoginSite) : M string :=
  guardOpen "Page closed before login" ;;
  perform (CGoto (url loginSite) "domcontentloaded" 90000) ;;
  waitSafely 2000 ;;
  currentLoginUrl <- get (fun w => pageUrl (pg w)) ;;
  modify (with_loc (fun l => set_stepSuccess 0 (set_loginSuccess false l))) ;;
  ret currentLoginUrl.

(** [loginSite.site.toLowerCase() === 'winsupply' &&
    currentLoginUrl.includes('/Location/')]: the steps are skipped. *)
Definition onLocationPage (loginSite : LoginSite) (currentLoginUrl : string) : bool :=
  String.eqb (toLowerCase (site loginSite)) "winsupply"
  && includes currentLoginUrl "/Location/".

(** The property names that every object inherits from [Object.prototype]:
    [credentials[name]] finds them on any object. *)
Definition inheritedNames : list string :=
  ["constructor"; "__proto__"; "hasOwnProperty"; "isPrototypeOf";
   "propertyIsEnumerable"; "toLocaleString"; "toString"; "valueOf";
   "__defineGetter__"; "__defineSetter__"; "__lookupGetter__"; "__lookupSetter__"].

(** [obj[name]] as JavaScript reads it: an own property, else one inherited
    from [Object.prototype], else [undefined]. *)
Inductive Property (A : Type) : Type :=
| Own (v : A)
| Inherited
| Undefined.

Arguments Own {A} v.
Arguments Inherited {A}.
Arguments Undefined {A}.

Definition readProperty {A} (name : string) (o : list (string * A)) : Property A :=
  match lookup name o with
  | Some v => Own v
  | None => if array_includes inheritedNames name then Inherited else Undefined
  end.

(** No login site of the request has a name that, in lower case, is an
    inherited property name. *)
Definition plainSiteNames (ctx : Context) : bool :=
  forallb (fun s => negb (array_includes inheritedNames (toLowerCase (site s))))
    (loginInstructions ctx).

(** As [calm], but the page closes during a timer of 1500 ms, the default
    time of a [wait] step. *)
Definition closesWhileWaiting : Env :=
  fun n c =>
    if Call_eq_dec c (CDelay (Fixed 1500)) then
      {| outcome := Resolved VUndefined; elapsed := 0; closes := true;
         lands := None; link := None |}
    else calm n c.

(** As [calm], but the screenshot of the login page cannot be taken. *)
Definition noLoginShot : Env :=
  fun n c =>
    if Call_eq_dec c (CScreenshot 60 None) then rejects "Protocol error" 10
    else calm n c.

(* ===================================================================== *)
(** * Properties *)
(* ===================================================================== *)

(** ** Request interception *)

Lemma array_includes_In (arr : list string) (x : string) :
  array_includes arr x = true <-> In x arr.
Proof.
  unfold array_includes. rewrite existsb_exists. split.
  - intros [y [Hin Heq]]. apply String.eqb_eq in Heq. now subst.
  - intros Hin. exists x. split; [assumption | apply String.eqb_refl].
Qed.

Lemma array_includes_not_In (arr : list string) (x : string) :
  array_includes arr x = false <-> ~ In x arr.
Proof.
  rewrite <- array_includes_In. destruct (array_includes arr x); split; congruence.
Qed.

(** C9, as stated, fails: [server.mjs] lets a websocket request through
    although it is not one of the five types, and
    [server-n8n-optimized.mjs] aborts a stylesheet although it is. *)
Lemma interception_counterexample :
  ~ allowsExactly fiveTypes Server.onRequest /\
  ~ allowsExactly fiveTypes N8n.onRequest.
Proof.
  split; intros H.
  - destruct (H "websocket") as [H1 _].
    assert (Hin : In "websocket" fiveTypes) by (apply H1; reflexivity).
    unfold fiveTypes in Hin. simpl in Hin.
    repeat (destruct Hin as [Hin | Hin]; [discriminate Hin |]). exact Hin.
  - destruct (H "stylesheet") as [_ H2].
    assert (Hc : N8n.onRequest "stylesheet" = Continue)
      by (apply H2; unfold fiveTypes; simpl; tauto).
    discriminate Hc.
Qed.

(** C9, amended: [server.mjs] aborts exactly the eight types of its block
    list and lets every other type through, the five named types among
    them; [server-n8n-optimized.mjs] lets exactly document and script
    through; [server-n8n-with-login.mjs] aborts exactly the image, media and
    font requests whose URL mentions none of api, login, auth. *)
Theorem interception_policies :
  (forall t, Server.onRequest t = Abort <-> In t Server.blockedTypes) /\
  (forall t, In t fiveTypes -> Server.onRequest t = Continue) /\
  (forall t, N8n.onRequest t = Continue <-> t = "document" \/ t = "script") /\
  (forall t u, N8nLogin.onRequest t u = Abort <->
               In t N8nLogin.blockedTypes /\ includes u "api" = false /\
               includes u "login" = false /\ includes u "auth" = false).
Proof.
  repeat split.
  - unfold Server.onRequest. intros H.
    destruct (array_includes Server.blockedTypes t) eqn:E; [| discriminate].
    now apply array_includes_In.
  - intros H. unfold Server.onRequest.
    apply array_includes_In in H. now rewrite H.
  - intros t H. unfold fiveTypes in H. simpl in H.
    repeat (destruct H as [H | H]; [subst t; reflexivity |]). contradiction.
  - unfold N8n.onRequest. intros H.
    destruct (array_includes N8n.allowedTypes t) eqn:E; [| discriminate].
    apply array_includes_In in E. simpl in E. intuition.
  - intros H. unfold N8n.onRequest.
    assert (E : array_includes N8n.allowedTypes t = true)
      by (apply array_includes_In; simpl; intuition).
    now rewrite E.
  - unfold N8nLogin.onRequest in H.
    destruct (array_includes N8nLogin.blockedTypes t) eqn:E; [| discriminate].
    now apply array_includes_In.
  - unfold N8nLogin.onRequest, N8nLogin.allowCritical in H.
    destruct (includes u "api"); [| reflexivity].
    rewrite !orb_true_r in H. simpl in H. rewrite andb_false_r in H. discriminate.
  - unfold N8nLogin.onRequest, N8nLogin.allowCritical in H.
    destruct (includes u "login"); [| reflexivity].
    rewrite !orb_true_r in H. simpl in H. rewrite andb_false_r in H. discriminate.
  - unfold N8nLogin.onRequest, N8nLogin.allowCritical in H.
    destruct (includes u "auth"); [| reflexivity].
    rewrite !orb_true_r in H. simpl in H. rewrite andb_false_r in H. discriminate.
  - intros (Hin & Ha & Hl & Hu).
    unfold N8nLogin.onRequest, N8nLogin.allowCritical.
    rewrite Ha, Hl, Hu. simpl in Hin.
    destruct Hin as [E | [E | [E | []]]]; subst t; reflexivity.
Qed.

Lemma interception_policies_witness :
  Server.onRequest "stylesheet" = Continue /\ N8n.onRequest "script" = Continue.
Proof.
  split.
  - apply (proj1 (proj2 interception_policies) "stylesheet").
    unfold fiveTypes. simpl. tauto.
  - apply (proj1 (proj2 (proj2 interception_policies)) "script"). right. reflexivity.
Defined.

(** ** Pool validation *)

(** C8, as stated, fails on [server.mjs]: its validator accepts an open
    page on a live browser however old the page is, for every maximum age
    an hour or the n8n servers could configure. *)
Lemma validate_counterexample :
  Server.validate (Some hourOldPage) (Some {| isConnected := true |}) = VBool true /\
  stale N8nLogin.MAX_AGE 3600000 hourOldPage /\
  ~ rejectsUnfit N8nLogin.MAX_AGE (fun _ => Server.validate).
Proof.
  split; [reflexivity |]. split; [vm_compute; reflexivity |].
  intros H.
  specialize (H 3600000%Z hourOldPage {| isConnected := true |}).
  simpl in H. assert (true = false) by (apply H; left; vm_compute; reflexivity).
  discriminate.
Qed.

(** C8, amended: [validate] of [server.mjs] is truthy exactly for an open
    page on a connected browser and does not look at the page's age; the
    validators of the n8n servers turn a page down whenever it is closed,
    has reported an error, has lost the browser, or was created at least
    five (ten) minutes ago, answer with a boolean, and are truthy exactly
    when none of this holds. *)
Theorem validate_spec :
  (forall p b,
     truthy (Server.validate p b) = true <->
     exists pg br, p = Some pg /\ b = Some br /\
                   _isClosed pg = false /\ isConnected br = true) /\
  (forall now pg br,
     N8n.validate now (Some pg) (Some br) =
     VBool (negb (_isClosed pg) && negb (_hasError pg) && isConnected br &&
            younger_than N8n.MAX_AGE now pg)) /\
  (forall now pg br,
     N8nLogin.validate now (Some pg) (Some br) =
     VBool (negb (_isClosed pg) && negb (_hasError pg) && isConnected br &&
            younger_than N8nLogin.MAX_AGE now pg)) /\
  (forall now pg br t,
     _created pg = Some t ->
     (N8n.MAX_AGE <= now - t)%Z \/ _isClosed pg = true \/ isConnected br = false ->
     N8n.validate now (Some pg) (Some br) = VBool false).
Proof.
  repeat split.
  - destruct p as [pg |]; [| discriminate].
    destruct b as [br |]; simpl;
      destruct (_isClosed pg) eqn:Ec; simpl; try discriminate.
    intros H. exists pg, br. auto.
  - intros (pg & br & -> & -> & Hc & Hb). simpl. rewrite Hc. simpl. assumption.
  - intros now pg br. simpl.
    destruct (_isClosed pg), (_hasError pg), (isConnected br); reflexivity.
  - intros now pg br. simpl.
    destruct (_isClosed pg), (_hasError pg), (isConnected br); reflexivity.
  - intros now pg br t Ht H. simpl. unfold younger_than. rewrite Ht.
    destruct (_isClosed pg) eqn:Ec; [reflexivity |].
    destruct (_hasError pg); [reflexivity |].
    destruct (isConnected br) eqn:Eb; [| reflexivity].
    destruct H as [H | [H | H]]; try discriminate.
    apply Z.ltb_ge in H. rewrite H. reflexivity.
Qed.

Lemma validate_spec_witness :
  N8n.validate 400000
    (Some {| born := 0; _created := Some 0%Z; _isClosed := false; _hasError := false |})
    (Some {| isConnected := true |}) = VBool false.
Proof.
  apply (proj2 (proj2 (proj2 validate_spec))) with (t := 0%Z).
  - reflexivity.
  - left. unfold N8n.MAX_AGE. lia.
Defined.

(** ** Rejected URLs *)

Lemma badUrl_rejected parseURL u : badUrl parseURL u -> url_rejected parseURL u = true.
Proof.
  destruct u as [s |]; simpl; [| reflexivity].
  intros H. unfold isValidUrl.
  destruct (parseURL s) as [parsed |]; [| now rewrite orb_true_r].
  destruct H as [H1 H2].
  apply String.eqb_neq in H1. apply String.eqb_neq in H2.
  rewrite H1, H2. now rewrite orb_true_r.
Qed.

(** C2: a job whose URL is absent, does not parse, or has a scheme other
    than http and https gets the JSON failure that names the URL, and the
    world is left as it was: no page was asked of the pool, no call was
    made at all. *)
Theorem invalid_url_rejected_before_acquire parseURL (ctx : Context) (w : World) :
  badUrl parseURL (ctx_url ctx) ->
  runScrapeJob parseURL ctx w =
    (Ok {| data := Json false ("Invalid URL: " ++ show_url (ctx_url ctx)
                                ++ ". URL must start with http:// or https://");
           type := "application/json" |}, w)
  /\ calls CPoolAcquire (trace (snd (runScrapeJob parseURL ctx w)))
     = calls CPoolAcquire (trace w).
Proof.
  intros H. unfold runScrapeJob. rewrite (badUrl_rejected _ _ H).
  split; reflexivity.
Qed.

Lemma invalid_url_rejected_before_acquire_witness :
  runScrapeJob exampleParse (plainJob (Some "ftp://example.com")) (boot calm) =
    (Ok {| data := Json false
             "Invalid URL: ftp://example.com. URL must start with http:// or https://";
           type := "application/json" |}, boot calm).
Proof.
  apply (invalid_url_rejected_before_acquire exampleParse
           (plainJob (Some "ftp://example.com")) (boot calm)).
  vm_compute. split; discriminate.
Defined.

(** ** Frames *)

Section Frames.

Context {R : World -> World -> Prop} `{FR : Frame R}.

Lemma keeps_ret A (a : A) : keeps R (ret a).
Proof. intros w. apply frame_refl. Qed.

Lemma keeps_throw A (e : string) : keeps R (@throw A e).
Proof. intros w. apply frame_refl. Qed.

Lemma keeps_exit A (n : nat) : keeps R (@exit A n).
Proof. intros w. apply frame_refl. Qed.

Lemma keeps_get A (f : World -> A) : keeps R (get f).
Proof. intros w. apply frame_refl. Qed.

Lemma keeps_guardOpen (msg : string) : keeps R (guardOpen msg).
Proof. intros w. unfold guardOpen. destruct (isClosed (pg w)); apply frame_refl. Qed.

Lemma keeps_modify (f : World -> World) :
  (forall w, R w (f w)) -> keeps R (modify f).
Proof. intros Hf w. apply Hf. Qed.

Lemma keeps_bind A B (m : M A) (f : A -> M B) :
  keeps R m -> (forall a, keeps R (f a)) -> keeps R (bind m f).
Proof.
  intros Hm Hf w. unfold bind. specialize (Hm w).
  destruct (m w) as [[a | e | n] w1]; simpl in *; try assumption.
  eapply frame_trans; [exact Hm | apply Hf].
Qed.

Lemma keeps_tryCatch A (body : M A) (handler : string -> M A) :
  keeps R body -> (forall e, keeps R (handler e)) -> keeps R (tryCatch body handler).
Proof.
  intros Hm Hf w. unfold tryCatch. specialize (Hm w).
  destruct (body w) as [[a | e | n] w1]; simpl in *; try assumption.
  eapply frame_trans; [exact Hm | apply Hf].
Qed.

Lemma keeps_finally A (body : M A) (cleanup : M unit) :
  keeps R body -> keeps R cleanup -> keeps R (finally body cleanup).
Proof.
  intros Hm Hf w. unfold finally. specialize (Hm w).
  destruct (body w) as [[a | e | n] w1]; simpl in *; try assumption;
    specialize (Hf w1); destruct (cleanup w1) as [[[] | e' | n'] w2]; simpl in *;
    eapply frame_trans; eassumption.
Qed.

Lemma keeps_swallow A (m : M A) : keeps R m -> keeps R (swallow m).
Proof.
  intros Hm. unfold swallow. apply keeps_tryCatch.
  - apply keeps_bind; [assumption | intros; apply keeps_ret].
  - intros; apply keeps_ret.
Qed.

Lemma keeps_when (b : bool) (m : M unit) : keeps R m -> keeps R (when b m).
Proof. intros Hm. destruct b; simpl; [assumption | apply keeps_ret]. Qed.

Lemma keeps_perform (c : Call) : keeps R (perform c).
Proof.
  intros w. unfold perform.
  pose proof (frame_advance None c w) as Ha.
  destruct (advance None c w) as [r w1]. simpl in Ha.
  destruct (outcome r); assumption.
Qed.

Lemma keeps_performWithin (ms : Z) (msg : string) (c : Call) :
  keeps R (performWithin ms msg c).
Proof.
  intros w. unfold performWithin.
  pose proof (frame_advance (Some ms) c w) as Ha.
  destruct (advance (Some ms) c w) as [r w1]. simpl in Ha.
  destruct (ms <=? elapsed r)%Z; [assumption |].
  destruct (outcome r); assumption.
Qed.

Lemma keeps_performUpTo (ms : Z) (c : Call) : keeps R (performUpTo ms c).
Proof.
  intros w. unfold performUpTo.
  pose proof (frame_advance (Some ms) c w) as Ha.
  destruct (advance (Some ms) c w) as [r w1]. simpl in Ha.
  destruct (ms <=? elapsed r)%Z; [assumption |].
  destruct (outcome r); assumption.
Qed.

Lemma keeps_sleep (d : Dur) : keeps R (sleep d).
Proof. intros w. apply frame_advance. Qed.

Lemma keeps_call_ (c : Call) : keeps R (call_ c).
Proof. intros w. apply frame_advance. Qed.

Lemma keeps_randomBelow (p : Z) : keeps R (randomBelow p).
Proof.
  intros w. unfold randomBelow.
  pose proof (frame_advance None (CRandomBelow p) w) as Ha.
  destruct (advance None (CRandomBelow p) w) as [r w1]. assumption.
Qed.

Lemma keeps_forAttempts A (n : nat) (body : nat -> M (option A)) :
  (forall i, keeps R (body i)) -> forall i, keeps R (forAttempts n i body).
Proof.
  intros Hb. induction n as [| n IH]; intros i; simpl.
  - apply keeps_ret.
  - apply keeps_bind; [apply Hb |].
    intros [a |]; [apply keeps_ret | apply IH].
Qed.

Lemma keeps_closeAll (n : nat) : keeps R (closeAll n).
Proof.
  induction n as [| n IH]; simpl.
  - apply keeps_ret.
  - apply keeps_bind; [apply keeps_swallow, keeps_perform | intros; apply IH].
Qed.

Lemma keeps_typeChars (sel text : string) : keeps R (typeChars sel text).
Proof.
  induction text as [| ch rest IH]; simpl.
  - apply keeps_ret.
  - apply keeps_bind; [apply keeps_perform | intros].
    apply keeps_bind; [apply keeps_sleep | intros; apply IH].
Qed.

End Frames.

(** Decompose a goal [keeps R m] along the structure of [m]; what is left
    are the assignments, to be checked against [R]. *)
Ltac frame_step :=
  cbv beta;
  lazymatch goal with
  | |- keeps _ (if ?b then _ else _) => destruct b
  | |- keeps _ (match ?x with _ => _ end) => destruct x
  | |- keeps _ (ret _) => apply keeps_ret
  | |- keeps _ (throw _) => apply keeps_throw
  | |- keeps _ (exit _) => apply keeps_exit
  | |- keeps _ (get _) => apply keeps_get
  | |- keeps _ (guardOpen _) => apply keeps_guardOpen
  | |- keeps _ (perform _) => apply keeps_perform
  | |- keeps _ (performWithin _ _ _) => apply keeps_performWithin
  | |- keeps _ (performUpTo _ _) => apply keeps_performUpTo
  | |- keeps _ (sleep _) => apply keeps_sleep
  | |- keeps _ (waitSafely _) => apply keeps_sleep
  | |- keeps _ (randomDelay _ _) => apply keeps_sleep
  | |- keeps _ (call_ _) => apply keeps_call_
  | |- keeps _ (randomBelow _) => apply keeps_randomBelow
  | |- keeps _ (closeAll _) => apply keeps_closeAll
  | |- keeps _ (typeChars _ _) => apply keeps_typeChars
  | |- keeps _ (bind _ _) => apply keeps_bind; [| intros ?]
  | |- keeps _ (tryCatch _ _) => apply keeps_tryCatch; [| intros ?]
  | |- keeps _ (finally _ _) => apply keeps_finally
  | |- keeps _ (swallow _) => apply keeps_swallow
  | |- keeps _ (when _ _) => apply keeps_when
  | |- keeps _ (forAttempts _ _ _) => apply keeps_forAttempts; intros ?
  | |- keeps _ (modify _) => apply keeps_modify; intros ?
  end.

Ltac frame := repeat frame_step.

#[local] Instance extends_Frame : Frame extends.
Proof.
  split.
  - intros w. repeat split. now exists [].
  - intros a b c (E1 & R1 & l1 & T1) (E2 & R2 & l2 & T2). repeat split.
    + congruence.
    + congruence.
    + exists (l2 ++ l1)%list. rewrite T2, T1. now rewrite app_assoc.
  - intros cap c w. repeat split. now exists [c].
Qed.

#[local] Instance sameBooks_Frame : Frame sameBooks.
Proof.
  split.
  - intros w. repeat split. destruct (browser (proc w)); congruence.
  - intros a b c (E1 & R1 & I1 & A1 & T1 & P1 & B1) (E2 & R2 & I2 & A2 & T2 & P2 & B2).
    repeat split; try congruence.
    destruct (browser (proc a)), (browser (proc b)); try congruence; try contradiction.
  - intros cap c w. repeat split. simpl.
    destruct (link (env w (clock w) c)), (browser (proc w)); simpl; congruence.
Qed.

#[local] Instance sameVerdict_Frame : Frame sameVerdict.
Proof.
  split; unfold sameVerdict.
  - reflexivity.
  - intros; congruence.
  - reflexivity.
Qed.

#[local] Instance staysOpen_Frame : Frame staysOpen.
Proof.
  split.
  - intros w. split; auto.
  - intros a b c [E1 H1] [E2 H2]. split; [congruence |].
    intros Hq Ha. apply H2; [rewrite E1; exact Hq | auto].
  - intros cap c w. split; [reflexivity |].
    intros Hq Ho. simpl. rewrite Ho, Hq. reflexivity.
Qed.

(** ** The restart supervisor *)

Lemma swallow_perform (c : Call) (w : World) :
  swallow (perform c) w = (Ok tt, snd (advance None c w)).
Proof.
  unfold swallow, tryCatch, bind, perform, ret.
  destruct (advance None c w) as [r w1]. simpl.
  destruct (outcome r); reflexivity.
Qed.

Lemma settles_ret A (a : A) : settles (ret a).
Proof. intros w. now exists a. Qed.

Lemma settles_get A (f : World -> A) : settles (get f).
Proof. intros w. now exists (f w). Qed.

Lemma settles_bind A B (m : M A) (f : A -> M B) :
  settles m -> (forall a, settles (f a)) -> settles (bind m f).
Proof.
  intros Hm Hf w. unfold bind. destruct (Hm w) as [a Ha].
  destruct (m w) as [r w1]. simpl in Ha. subst r. apply Hf.
Qed.

Lemma settles_when (b : bool) (m : M unit) : settles m -> settles (when b m).
Proof. intros Hm. destruct b; simpl; [assumption | apply settles_ret]. Qed.

Lemma settles_swallow_perform (c : Call) : settles (swallow (perform c)).
Proof. intros w. rewrite swallow_perform. now exists tt. Qed.

Lemma settles_call_ (c : Call) : settles (call_ c).
Proof. intros w. now exists tt. Qed.

Lemma settles_sleep (d : Dur) : settles (sleep d).
Proof. intros w. now exists tt. Qed.

Lemma settles_recover (c : Call) (v : Val) :
  settles (tryCatch (perform c) (fun _ => ret v)).
Proof.
  intros w. unfold tryCatch, perform, ret.
  destruct (advance None c w) as [r w1].
  destruct (outcome r) as [v' | e]; [now exists v' | now exists v].
Qed.

Lemma settles_closeAll (n : nat) : settles (closeAll n).
Proof.
  induction n as [| n IH]; simpl; [apply settles_ret |].
  apply settles_bind; [apply settles_swallow_perform | intros; apply IH].
Qed.

Lemma settles_teardown (cfg : RestartConfig) : settles (teardown cfg).
Proof.
  unfold teardown.
  repeat first
    [ apply settles_ret | apply settles_get | apply settles_swallow_perform
    | apply settles_call_ | apply settles_recover | apply settles_closeAll
    | apply settles_when | apply settles_bind; [| intros ?] ].
Qed.

Lemma teardown_ok (cfg : RestartConfig) (w : World) : fst (teardown cfg w) = Ok tt.
Proof. destruct (settles_teardown cfg w) as [[] H]. exact H. Qed.

Lemma teardown_books (cfg : RestartConfig) : keeps sameBooks (teardown cfg).
Proof. unfold teardown. frame. Qed.

Lemma teardown_extends (cfg : RestartConfig) : keeps extends (teardown cfg).
Proof. unfold teardown. frame. Qed.

Lemma enterRestart_busy (cfg : RestartConfig) (w : World) :
  isRestarting (proc w) = true -> enterRestart cfg w = (Ok false, w).
Proof. intros H. unfold enterRestart, bind, get. rewrite H. reflexivity. Qed.

Lemma enterRestart_idle (cfg : RestartConfig) (w : World) :
  isRestarting (proc w) = false ->
  enterRestart cfg w =
    (if MAX_RESTART_ATTEMPTS cfg <? S (restartAttempts (proc w)) then Exit 1 else Ok true,
     entered w).
Proof.
  intros H. unfold enterRestart, bind, get, modify. rewrite H. simpl.
  destruct (MAX_RESTART_ATTEMPTS cfg <? S (restartAttempts (proc w))) eqn:E;
    unfold exit, ret; reflexivity.
Qed.

Lemma restartSequence_spec (cfg : RestartConfig) (w : World) :
  let w' := snd (restartSequence cfg w) in
  fst (restartSequence cfg w) = Ok tt /\
  env w' = env w /\
  isRestarting (proc w') = false /\
  hd_error (trace w') = Some CLaunch /\
  match outcome (lastReply w') with
  | Resolved _ =>
      restartAttempts (proc w') = 0 /\ timers (proc w') = timers (proc w) /\
      connected w' = true
  | Rejected _ =>
      restartAttempts (proc w') = restartAttempts (proc w) /\
      timers (proc w') = RETRY_DELAY cfg :: timers (proc w)
  end.
Proof.
  unfold restartSequence, tryCatch, bind.
  pose proof (teardown_ok cfg w) as Hok.
  pose proof (teardown_books cfg w) as Hb.
  destruct (teardown cfg w) as [r1 w1]. simpl in Hok, Hb. subst r1.
  unfold sleep.
  pose proof (frame_advance (R := sameBooks) None (CDelay (Fixed (RESTART_DELAY cfg))) w1) as Hb2.
  set (w2 := snd (advance None (CDelay (Fixed (RESTART_DELAY cfg))) w1)) in *.
  assert (Hb3 : sameBooks w w2) by (eapply frame_trans; eassumption).
  clearbody w2. clear Hb Hb2 w1.
  destruct Hb3 as (E & Rt & I & A & T & P & B).
  unfold initializeBrowser, tryCatch, bind, perform, advance.
  destruct (outcome (env w2 (clock w2) CLaunch)) as [v | e] eqn:El.
  - destruct (monitorsPages cfg); cbn; unfold lastReply; cbn; rewrite El;
      repeat split; assumption.
  - cbn. unfold lastReply. cbn. rewrite El. repeat split; try assumption.
    cbn. congruence.
Qed.

Lemma handleBrowserCrash_busy (cfg : RestartConfig) (w : World) :
  isRestarting (proc w) = true -> handleBrowserCrash cfg w = (Ok tt, w).
Proof.
  intros H. unfold handleBrowserCrash, bind. now rewrite (enterRestart_busy cfg w H).
Qed.

Lemma handleBrowserCrash_fatal (cfg : RestartConfig) (w : World) :
  isRestarting (proc w) = false ->
  MAX_RESTART_ATTEMPTS cfg < S (restartAttempts (proc w)) ->
  handleBrowserCrash cfg w = (Exit 1, entered w).
Proof.
  intros H Hlt. unfold handleBrowserCrash, bind. rewrite (enterRestart_idle cfg w H).
  apply Nat.ltb_lt in Hlt. now rewrite Hlt.
Qed.

Lemma handleBrowserCrash_runs (cfg : RestartConfig) (w : World) :
  isRestarting (proc w) = false ->
  S (restartAttempts (proc w)) <= MAX_RESTART_ATTEMPTS cfg ->
  handleBrowserCrash cfg w = restartSequence cfg (entered w).
Proof.
  intros H Hle. unfold handleBrowserCrash, bind. rewrite (enterRestart_idle cfg w H).
  apply Nat.ltb_ge in Hle. rewrite Hle. reflexivity.
Qed.

Lemma handleBrowserCrash_stuck (cfg : RestartConfig) (w : World) :
  isRestarting (proc w) = false ->
  neverLaunches (env w) ->
  S (restartAttempts (proc w)) <= MAX_RESTART_ATTEMPTS cfg ->
  let w' := snd (handleBrowserCrash cfg w) in
  fst (handleBrowserCrash cfg w) = Ok tt /\ env w' = env w /\
  isRestarting (proc w') = false /\
  restartAttempts (proc w') = S (restartAttempts (proc w)).
Proof.
  intros H Hn Hle. rewrite (handleBrowserCrash_runs cfg w H Hle).
  destruct (restartSequence_spec cfg (entered w)) as (Hok & He & Hi & Hh & Hm).
  cbv zeta. repeat split; try assumption.
  unfold lastReply in Hm.
  destruct (trace (snd (restartSequence cfg (entered w)))) as [| c t]; [discriminate |].
  simpl in Hh. injection Hh as ->.
  rewrite He in Hm. simpl in Hm.
  destruct (Hn (pred (clock (snd (restartSequence cfg (entered w)))))) as [msg Hmsg].
  rewrite Hmsg in Hm. destruct Hm as [Hm _]. exact Hm.
Qed.

Lemma crashes_stuck (cfg : RestartConfig) (k : nat) :
  forall w,
    isRestarting (proc w) = false ->
    neverLaunches (env w) ->
    restartAttempts (proc w) + k <= MAX_RESTART_ATTEMPTS cfg ->
    let w' := snd (crashes cfg k w) in
    fst (crashes cfg k w) = Ok tt /\ env w' = env w /\
    isRestarting (proc w') = false /\
    restartAttempts (proc w') = restartAttempts (proc w) + k.
Proof.
  induction k as [| k IH]; intros w H Hn Hle; cbv zeta.
  - simpl. repeat split; auto.
  - simpl crashes. unfold bind.
    destruct (handleBrowserCrash_stuck cfg w H Hn) as (Hok & He & Hi & Ha); [lia |].
    destruct (handleBrowserCrash cfg w) as [r w1]. simpl in Hok, He, Hi, Ha. subst r.
    destruct (IH w1) as (Hok' & He' & Hi' & Ha'); try assumption.
    + now rewrite He.
    + lia.
    + repeat split; try assumption; [congruence | lia].
Qed.

Lemma crashes_fatal (cfg : RestartConfig) (k : nat) :
  forall w,
    isRestarting (proc w) = false ->
    neverLaunches (env w) ->
    restartAttempts (proc w) + S k = S (MAX_RESTART_ATTEMPTS cfg) ->
    fst (crashes cfg (S k) w) = Exit 1.
Proof.
  induction k as [| k IH]; intros w H Hn Hsum.
  - simpl crashes. unfold bind. rewrite (handleBrowserCrash_fatal cfg w H); [reflexivity | lia].
  - change (crashes cfg (S (S k))) with (handleBrowserCrash cfg ;; crashes cfg (S k)).
    unfold bind.
    destruct (handleBrowserCrash_stuck cfg w H Hn) as (Hok & He & Hi & Ha); [lia |].
    destruct (handleBrowserCrash cfg w) as [r w1]. simpl in Hok, He, Hi, Ha. subst r.
    apply IH; try assumption; [now rewrite He | lia].
Qed.

(** C4: a call of [handleBrowserCrash] that passes the guard counts one more
    attempt. When the count then exceeds the maximum of 5 the process exits
    with code 1 from where it stands: nothing is torn down, relaunched or
    scheduled. Otherwise the sequence runs up to the launch of the browser;
    a launch that succeeds sets the counter back to zero, one that fails
    leaves the attempt counted and schedules a retry. So when the browser
    never launches, five calls in a row fail and the sixth is fatal. *)
Theorem restart_attempts_bounded (w : World) :
  isRestarting (proc w) = false ->
  let cfg := Server.restartConfig in
  let n := S (restartAttempts (proc w)) in
  let w' := snd (handleBrowserCrash cfg w) in
  MAX_RESTART_ATTEMPTS cfg = 5 /\
  restartAttempts (proc (snd (enterRestart cfg w))) = n /\
  (5 < n ->
   handleBrowserCrash cfg w = (Exit 1, entered w) /\
   trace w' = trace w /\ timers (proc w') = timers (proc w) /\
   browser (proc w') = browser (proc w) /\ pagePool (proc w') = pagePool (proc w)) /\
  (n <= 5 ->
   fst (handleBrowserCrash cfg w) = Ok tt /\
   isRestarting (proc w') = false /\
   hd_error (trace w') = Some CLaunch /\
   match outcome (lastReply w') with
   | Resolved _ => restartAttempts (proc w') = 0 /\ timers (proc w') = timers (proc w)
   | Rejected _ => restartAttempts (proc w') = n /\
                   timers (proc w') = 5000%Z :: timers (proc w)
   end) /\
  (neverLaunches (env w) -> restartAttempts (proc w) = 0 ->
   fst (crashes cfg 5 w) = Ok tt /\
   restartAttempts (proc (snd (crashes cfg 5 w))) = 5 /\
   fst (crashes cfg 6 w) = Exit 1).
Proof.
  intros H cfg n w'. split; [reflexivity |].
  split; [rewrite (enterRestart_idle cfg w H); reflexivity |].
  split; [| split].
  - intros Hn. subst w'. rewrite (handleBrowserCrash_fatal cfg w H) by exact Hn.
    repeat split.
  - intros Hn. subst w'. rewrite (handleBrowserCrash_runs cfg w H) by exact Hn.
    destruct (restartSequence_spec cfg (entered w)) as (Hok & He & Hi & Hh & Hm).
    repeat split; try assumption.
    destruct (outcome (lastReply (snd (restartSequence cfg (entered w)))));
      destruct Hm as (Hm1 & Hm2); try destruct Hm2 as (Hm2 & _); split; assumption.
  - intros Hn H0.
    destruct (crashes_stuck cfg 5 w H Hn) as (Hok & _ & _ & Ha);
      [rewrite H0; simpl; lia |].
    repeat split; [assumption | rewrite Ha, H0; reflexivity |].
    apply crashes_fatal; [assumption | assumption | rewrite H0; reflexivity].
Qed.

Lemma restart_attempts_bounded_witness :
  fst (crashes Server.restartConfig 5 (boot stuck)) = Ok tt /\
  restartAttempts (proc (snd (crashes Server.restartConfig 5 (boot stuck)))) = 5 /\
  fst (crashes Server.restartConfig 6 (boot stuck)) = Exit 1.
Proof.
  apply (restart_attempts_bounded (boot stuck)).
  - reflexivity.
  - intros n. exists "Failed to launch the browser process". reflexivity.
  - reflexivity.
Defined.

Lemma supReach_inv (cfg : RestartConfig) (s : Sup) :
  supReach cfg s ->
  sequences s = 0 \/ (sequences s = 1 /\ isRestarting (proc (world s)) = true).
Proof.
  induction 1 as [w Hw | s s' Hr IH Hs].
  - left. reflexivity.
  - destruct Hs as [w k r w' He | w k r w' He | w w' k Hf]; simpl in *.
    + destruct (isRestarting (proc w)) eqn:Ef.
      * rewrite (enterRestart_busy cfg w Ef) in He. injection He as <- <-.
        destruct IH as [-> | [-> _]]; [left | right]; auto.
      * destruct IH as [-> | [_ Hc]]; [| congruence].
        rewrite (enterRestart_idle cfg w Ef) in He.
        destruct (MAX_RESTART_ATTEMPTS cfg <? S (restartAttempts (proc w)));
          injection He as <- <-; [left | right]; auto.
    + destruct IH as [Hk | [Hk _]]; [discriminate | left; lia].
    + destruct IH as [-> | [-> Hc]]; [left | right]; auto. split; congruence.
Qed.

(** C5: calling [handleBrowserCrash] while a restart is in progress returns
    at once and leaves the world as it was, so the counter is not touched
    and nothing is torn down; and however the calls of the handler, the end
    of a sequence and the other tasks interleave, at most one restart
    sequence is under way. This holds for the constants of every server. *)
Theorem restart_entry_idempotent (cfg : RestartConfig) :
  (forall w, isRestarting (proc w) = true ->
             handleBrowserCrash cfg w = (Ok tt, w)) /\
  (forall s, supReach cfg s -> sequences s <= 1).
Proof.
  split.
  - apply handleBrowserCrash_busy.
  - intros s Hs. destruct (supReach_inv Hs) as [-> | [-> _]]; lia.
Qed.

Lemma restart_entry_idempotent_witness :
  handleBrowserCrash N8n.restartConfig (entered (boot calm)) = (Ok tt, entered (boot calm)) /\
  sequences {| world := entered (boot calm); sequences := 1; dead := false |} <= 1.
Proof.
  split.
  - apply (proj1 (restart_entry_idempotent N8n.restartConfig)). reflexivity.
  - apply (proj2 (restart_entry_idempotent N8n.restartConfig)).
    eapply sup_next.
    + apply sup_boot with (w := boot calm). reflexivity.
    + apply (@sup_trigger N8n.restartConfig (boot calm) 0 (Ok true) (entered (boot calm))).
      reflexivity.
Defined.

(** ** The queue and the pool *)

Lemma NoDup_drop (j : nat) (l : list nat) : NoDup l -> NoDup (drop j l).
Proof.
  unfold drop. induction 1 as [| x l Hx Hl IH]; simpl; [constructor |].
  destruct (Nat.eq_dec j x); [assumption |].
  constructor; [| assumption].
  intros Hin. apply in_remove in Hin. tauto.
Qed.

Lemma incl_drop (j : nat) (l l' : list nat) : incl l l' -> incl (drop j l) (drop j l').
Proof.
  unfold drop. intros H x Hx. apply in_remove in Hx. destruct Hx as [Hx Hne].
  apply in_in_remove; auto.
Qed.

Lemma incl_drop_l (j : nat) (l l' : list nat) : incl l l' -> incl (drop j l) l'.
Proof. unfold drop. intros H x Hx. apply in_remove in Hx. apply H. tauto. Qed.

Lemma In_drop (j x : nat) (l : list nat) : In x (drop j l) -> In x l.
Proof. unfold drop. intros H. apply in_remove in H. tauto. Qed.

Lemma length_drop (j : nat) (l : list nat) : List.length (drop j l) <= List.length l.
Proof. apply remove_length_le. Qed.

Lemma schedStep_inv q p s s' : schedInv q p s -> schedStep q p s s' -> schedInv q p s'.
Proof.
  intros (Na & La & Nh & Ih & Ip & Np & Lp & Cp & Bp) Hs.
  destruct Hs as [s | s Hlt Hc | s j Ha Hh Hb | s j Hh | s j Ha | s j t Ht Hj | s];
    unfold schedInv; simpl.
  - repeat split; auto.
  - repeat split; auto.
    + constructor; [| assumption]. intros Hin. apply La in Hin. lia.
    + intros j [<- | Hj]; [lia | apply La in Hj; lia].
    + intros x Hx. right. apply Ih, Hx.
    + intros Hn x [<- | Hx]; [now left | right; apply (Ip Hn), Hx].
    + constructor; [| assumption]. intros Hin. apply Lp in Hin. lia.
    + intros j [<- | Hj]; [lia | apply Lp in Hj; lia].
  - repeat split; auto.
    + constructor; assumption.
    + intros x [<- | Hx]; [assumption | apply Ih, Hx].
  - repeat split; auto.
    + now apply NoDup_drop.
    + now apply incl_drop_l.
    + lia.
  - repeat split; auto.
    + now apply NoDup_drop.
    + intros x Hx. apply La. eapply In_drop, Hx.
    + now apply NoDup_drop.
    + now apply incl_drop.
    + intros Hn. apply incl_drop. auto.
    + now apply NoDup_drop.
    + intros x Hx. apply Lp. eapply In_drop, Hx.
    + pose proof (length_drop j (pending s)). lia.
  - repeat split; auto.
    + intros Hn. congruence.
    + now apply NoDup_drop.
    + intros x Hx. apply Lp. eapply In_drop, Hx.
    + pose proof (length_drop j (pending s)). lia.
  - repeat split; auto. lia.
Qed.

Lemma schedReach_inv q p s : schedReach q p s -> schedInv q p s.
Proof.
  induction 1 as [| s s' Hr IH Hs].
  - unfold schedInv, idle; simpl.
    split; [constructor |]. split; [intros ? [] |].
    split; [constructor |]. split; [intros ? [] |].
    split; [intros ? ? [] |]. split; [constructor |].
    split; [intros ? [] |]. split; lia.
  - eapply schedStep_inv; eassumption.
Qed.

(** C1: under the options of [server.mjs], concurrency 1 for the queue and
    at most one page for the pool, whatever the order in which jobs are
    added, started, served by the pool and settled, and whenever the pool is
    replaced, at most one job is pending, at most one page is lent, and no
    two jobs hold the page at the same turn. *)
Theorem jobs_never_overlap (s : Sched) :
  schedReach Server.queueOptions Server.poolOptions s ->
  concurrency Server.queueOptions = 1 /\ max Server.poolOptions = 1 /\
  List.length (pending s) <= 1 /\ borrowed s <= 1 /\
  (forall a b, In a (holding s) -> In b (holding s) -> a = b).
Proof.
  intros Hr. apply schedReach_inv in Hr.
  destruct Hr as (Na & La & Nh & Ih & Ip & Np & Lp & Cp & Bp).
  simpl in Cp, Bp. repeat split; try assumption.
  assert (Hlen : List.length (holding s) <= 1).
  { transitivity (List.length (active s)); [now apply NoDup_incl_length |].
    transitivity (List.length (pending s)); [| assumption].
    apply NoDup_incl_length; [assumption | apply Ip; reflexivity]. }
  intros a b Ha Hb.
  destruct (holding s) as [| x [| y l]]; simpl in *.
  - contradiction.
  - destruct Ha as [<- | []], Hb as [<- | []]. reflexivity.
  - lia.
Qed.

Lemma jobs_never_overlap_witness :
  List.length (pending oneAtWork) <= 1 /\ borrowed oneAtWork <= 1 /\
  (forall a b, In a (holding oneAtWork) -> In b (holding oneAtWork) -> a = b).
Proof.
  apply (jobs_never_overlap (s := oneAtWork)).
  eapply reach_step; [| apply (@sched_acquire _ _
      {| added := 2; started := 1; pending := [0]; active := [0]; holding := [];
         borrowed := 0 |} 0); simpl; auto; lia].
  eapply reach_step; [| apply (@sched_start _ _
      {| added := 2; started := 0; pending := []; active := []; holding := [];
         borrowed := 0 |}); simpl; lia].
  eapply reach_step; [| apply (@sched_add _ _
      {| added := 1; started := 0; pending := []; active := []; holding := [];
         borrowed := 0 |})].
  eapply reach_step; [| apply (@sched_add _ _ idle)].
  apply reach_idle.
Defined.

(** C7, as stated, fails on [server.mjs]: its queue is created without a
    timeout, and a job whose reduced screenshot takes an hour is answered
    after that hour with the screenshot, not with a timeout error; no bound
    on the time to settle exists. *)
Lemma queue_timeout_counterexample :
  timeout Server.queueOptions = None /\
  (let run := queueRun Server.queueOptions
                (runScrapeJob exampleParse (plainJob (Some "https://example.com")))
                (boot (sluggish "small" 3600000)) in
   fst run = Ok (Some {| data := Binary (VBuffer "small"); type := "image/jpeg" |}) /\
   (3600000 < now (snd run) - now (boot (sluggish "small" 3600000)))%Z) /\
  ~ hardTimeout Server.queueOptions.
Proof.
  split; [reflexivity |]. split; [vm_compute; split; reflexivity |].
  intros [t H].
  destruct (H unit (sleep (Fixed (Z.max 0 t + 1))) (boot calm)) as [Hb _].
  unfold queueRun, sleep in Hb. simpl in Hb. lia.
Qed.

(** C7, amended: the queue of [server.mjs] settles when and as the job
    does, whatever time that takes. The queues of the n8n servers give a
    started job 45 (180) seconds: the promise settles no later than that
    after the start, with the job's own outcome when the job was faster
    and with p-timeout's error otherwise. *)
Theorem queue_timeout_spec :
  (forall A (job : M A) w,
     queueRun Server.queueOptions job w = (settled (fst (job w)), snd (job w))) /\
  (forall A (job : M A) w,
     let d := (now (snd (job w)) - now w)%Z in
     let run := queueRun N8n.queueOptions job w in
     (now (snd run) - now w <= 45000)%Z /\
     ((45000 <= d)%Z ->
      fst run = Throw "Promise timed out after 45000 milliseconds") /\
     ((d < 45000)%Z -> run = (settled (fst (job w)), snd (job w)))) /\
  (forall A (job : M A) w,
     let d := (now (snd (job w)) - now w)%Z in
     let run := queueRun N8nLogin.queueOptions job w in
     (now (snd run) - now w <= 180000)%Z /\
     ((180000 <= d)%Z ->
      fst run = Throw "Promise timed out after 180000 milliseconds") /\
     ((d < 180000)%Z -> run = (settled (fst (job w)), snd (job w)))).
Proof.
  split; [| split].
  - intros A job w. unfold queueRun. simpl. destruct (job w); reflexivity.
  - intros A job w d run. subst d run. unfold queueRun. simpl timeout.
    destruct (job w) as [r w1]. cbn [fst snd throwOnTimeout N8n.queueOptions].
    destruct (Z.leb_spec 45000 (now w1 - now w)) as [Hle | Hlt].
    + split; [simpl; lia | split; [intros _; reflexivity | intros; lia]].
    + split; [simpl; lia | split; [intros; lia | intros; reflexivity]].
  - intros A job w d run. subst d run. unfold queueRun. simpl timeout.
    destruct (job w) as [r w1]. cbn [fst snd throwOnTimeout N8nLogin.queueOptions].
    destruct (Z.leb_spec 180000 (now w1 - now w)) as [Hle | Hlt].
    + split; [simpl; lia | split; [intros _; reflexivity | intros; lia]].
    + split; [simpl; lia | split; [intros; lia | intros; reflexivity]].
Qed.

Lemma queue_timeout_spec_witness :
  fst (queueRun N8n.queueOptions (sleep (Fixed 60000)) (boot calm))
  = Throw "Promise timed out after 45000 milliseconds".
Proof.
  apply (proj1 (proj2 (proj1 (proj2 queue_timeout_spec) unit (sleep (Fixed 60000)) (boot calm)))).
  vm_compute. discriminate.
Defined.

(** ** The screenshot stage *)

Lemma calls_same (c : Call) (t : list Call) : calls c (c :: t) = S (calls c t).
Proof. unfold calls. now apply count_occ_cons_eq. Qed.

Lemma calls_other (c c' : Call) (t : list Call) : c' <> c -> calls c (c' :: t) = calls c t.
Proof. unfold calls. intros H. now apply count_occ_cons_neq. Qed.

Lemma calls_fallback_primary t : calls fallbackShot (primaryShot :: t) = calls fallbackShot t.
Proof. apply calls_other. discriminate. Qed.

Lemma calls_primary_fallback t : calls primaryShot (fallbackShot :: t) = calls primaryShot t.
Proof. apply calls_other. discriminate. Qed.

Lemma calls_primary_delay d t : calls primaryShot (CDelay d :: t) = calls primaryShot t.
Proof. apply calls_other. discriminate. Qed.

Lemma calls_fallback_delay d t : calls fallbackShot (CDelay d :: t) = calls fallbackShot t.
Proof. apply calls_other. discriminate. Qed.

Ltac count_calls :=
  repeat first
    [ rewrite calls_same in *
    | rewrite calls_fallback_primary in *
    | rewrite calls_primary_fallback in *
    | rewrite calls_primary_delay in *
    | rewrite calls_fallback_delay in * ].

(** Run a computation symbolically: reduce, and split on each test and on
    each reply of the environment. *)
Ltac run_step :=
  cbn -[Z.leb Z.ltb Z.add Z.sub Z.min Z.max calls] in *;
  match goal with
  | |- context [if ?b then _ else _] => destruct b eqn:?
  | |- context [match outcome ?r with Resolved _ => _ | Rejected _ => _ end] =>
      destruct (outcome r) eqn:?
  end.

Ltac run := repeat run_step; cbn -[Z.leb Z.ltb Z.add Z.sub Z.min Z.max calls] in *.

Lemma takeScreenshot_counts (w : World) :
  let w' := snd (takeScreenshot w) in
  calls primaryShot (trace w') <= calls primaryShot (trace w) + 3 /\
  calls fallbackShot (trace w') <= calls fallbackShot (trace w) + 1 /\
  (calls fallbackShot (trace w') = calls fallbackShot (trace w) + 1 ->
   calls primaryShot (trace w') = calls primaryShot (trace w) + 3).
Proof.
  unfold takeScreenshot, forAttempts, tryCatch, bind, guardOpen, performWithin,
    perform, waitSafely, sleep, get, ret, throw, advance.
  fold primaryShot. fold fallbackShot.
  run; repeat split; intros; count_calls; lia.
Qed.

Ltac unfold_shot :=
  unfold takeScreenshot, forAttempts, tryCatch, bind, guardOpen, performWithin,
    perform, waitSafely, sleep, get, ret, throw, advance, lastReply;
  fold primaryShot; fold fallbackShot.

Lemma takeScreenshot_failure (w : World) (e : string) :
  let w' := snd (takeScreenshot w) in
  fst (takeScreenshot w) = Throw e ->
  (isClosed (pg w') = true /\ e = "Page closed during screenshot") \/
  (calls primaryShot (trace w') = calls primaryShot (trace w) + 3 /\
   calls fallbackShot (trace w') = calls fallbackShot (trace w) + 1 /\
   hd_error (trace w') = Some fallbackShot /\
   exists msg, outcome (lastReply w') = Rejected msg).
Proof.
  unfold_shot.
  run; intros He; try discriminate He; try congruence;
    first
      [ left; split; [assumption || reflexivity | congruence]
      | right; repeat split; [ count_calls; lia | count_calls; lia | eauto ] ].
Qed.

Lemma takeScreenshot_success (w : World) (r : option Val) :
  let w' := snd (takeScreenshot w) in
  fst (takeScreenshot w) = Ok r ->
  isClosed (pg w) = false /\
  exists v, r = Some v /\ outcome (lastReply w') = Resolved v /\
    ((hd_error (trace w') = Some primaryShot /\ (elapsed (lastReply w') < 30000)%Z /\
      calls fallbackShot (trace w') = calls fallbackShot (trace w)) \/
     (hd_error (trace w') = Some fallbackShot /\
      calls primaryShot (trace w') = calls primaryShot (trace w) + 3 /\
      calls fallbackShot (trace w') = calls fallbackShot (trace w) + 1)).
Proof.
  unfold_shot.
  run; intros He; try discriminate He; try congruence; injection He as <-;
    (split; [reflexivity |]); eexists; (split; [reflexivity |]);
    (split; [eassumption |]);
    first
      [ left; split; [reflexivity | split; [apply Z.leb_gt; assumption | count_calls; lia]]
      | right; split; [reflexivity | split; count_calls; lia] ].
Qed.

Lemma takeScreenshot_no_exit (w : World) (n : nat) : fst (takeScreenshot w) <> Exit n.
Proof. unfold_shot. run; discriminate. Qed.

Lemma takeScreenshot_fallback (w : World) (v : Val) :
  let w' := snd (takeScreenshot w) in
  calls fallbackShot (trace w') = calls fallbackShot (trace w) + 1 ->
  outcome (lastReply w') = Resolved v ->
  fst (takeScreenshot w) = Ok (Some v).
Proof.
  unfold_shot.
  run; intros Hc Ho; count_calls; try lia; congruence.
Qed.

Lemma takeScreenshot_third (w : World) :
  let w' := snd (takeScreenshot w) in
  calls primaryShot (trace w') = calls primaryShot (trace w) + 3 ->
  isClosed (pg w') = false ->
  calls fallbackShot (trace w') = calls fallbackShot (trace w) + 1 \/
  (exists v, fst (takeScreenshot w) = Ok (Some v) /\
             hd_error (trace w') = Some primaryShot).
Proof.
  unfold_shot.
  run; intros Hc Ho; count_calls; try lia; try congruence;
    first [ left; lia | right; eexists; split; reflexivity ].
Qed.

(** Three tries that run into the timer, then a reduced screenshot that
    arrives. *)
Lemma takeScreenshot_scenario (w : World) (v : Val) :
  isClosed (pg w) = false ->
  neverCloses (env w) ->
  (forall n, (30000 <=? elapsed (env w n primaryShot))%Z = true) ->
  (forall n, outcome (env w n fallbackShot) = Resolved v) ->
  let w' := snd (takeScreenshot w) in
  fst (takeScreenshot w) = Ok (Some v) /\
  calls primaryShot (trace w') = calls primaryShot (trace w) + 3 /\
  calls fallbackShot (trace w') = calls fallbackShot (trace w) + 1.
Proof.
  intros Ho Hc Hs Hf. unfold neverCloses in Hc.
  unfold_shot.
  repeat (cbn -[Z.leb Z.ltb Z.add Z.sub Z.min Z.max calls];
          rewrite ?Ho, ?Hc, ?Hs, ?Hf).
  repeat split; count_calls; lia.
Qed.

(** ** Properties that hold stage by stage *)

#[local] Instance keeps_Compositional (R : World -> World -> Prop) `{FR : Frame R} :
  Compositional (@keeps R) R.
Proof.
  split; intros.
  - apply keeps_ret.
  - apply keeps_throw.
  - apply keeps_get.
  - apply keeps_guardOpen.
  - apply keeps_perform.
  - apply keeps_performWithin.
  - apply keeps_performUpTo.
  - apply keeps_sleep.
  - now apply keeps_modify.
  - now apply keeps_bind.
  - now apply keeps_tryCatch.
Qed.

#[local] Instance noExit_Compositional : Compositional (@noExit) (fun _ _ => True).
Proof.
  split; unfold noExit; intros; simpl; try discriminate.
  - unfold guardOpen. destruct (isClosed (pg w)); discriminate.
  - unfold perform. destruct (advance None c w) as [r w1].
    destruct (outcome r); discriminate.
  - unfold performWithin. destruct (advance (Some ms) c w) as [r w1].
    destruct (ms <=? elapsed r)%Z; [discriminate |]. destruct (outcome r); discriminate.
  - unfold performUpTo. destruct (advance (Some ms) c w) as [r w1].
    destruct (ms <=? elapsed r)%Z; [discriminate |]. destruct (outcome r); discriminate.
  - unfold bind. specialize (H w). destruct (m w) as [[a | e | k] w1]; simpl in *.
    + apply H0.
    + discriminate.
    + exfalso. now apply (H k).
  - unfold tryCatch. specialize (H w). destruct (body w) as [[a | e | k] w1]; simpl in *.
    + discriminate.
    + apply H0.
    + exfalso. now apply (H k).
Qed.

Section Stages.

Context {P : forall A, M A -> Prop} {Rel : World -> World -> Prop}
        `{CP : Compositional P Rel}.

Lemma c_when (b : bool) (m : M unit) : @P unit m -> @P unit (when b m).
Proof. intros Hm. destruct b; simpl; [assumption | apply c_ret]. Qed.

Lemma c_swallow A (m : M A) : @P A m -> @P unit (swallow m).
Proof.
  intros Hm. unfold swallow. apply c_tryCatch.
  - apply c_bind; [assumption | intros; apply c_ret].
  - intros; apply c_ret.
Qed.

Lemma c_forAttempts A (n : nat) (body : nat -> M (option A)) :
  (forall i, @P _ (body i)) -> forall i, @P _ (forAttempts n i body).
Proof.
  intros Hb. induction n as [| n IH]; intros i; simpl.
  - apply c_ret.
  - apply c_bind; [apply Hb |]. intros [a |]; [apply c_ret | apply IH].
Qed.

Lemma c_typeChars (sel text : string) : @P unit (typeChars sel text).
Proof.
  induction text as [| ch rest IH]; simpl.
  - apply c_ret.
  - apply c_bind; [apply c_perform | intros].
    apply c_bind; [apply c_sleep | intros; apply IH].
Qed.

End Stages.

(** Decompose a goal [@P _ m] along the structure of [m]. *)
Ltac stage_step :=
  cbv beta;
  lazymatch goal with
  | |- _ _ (if ?b then _ else _) => destruct b
  | |- _ _ (match ?x with _ => _ end) => destruct x
  | |- _ _ (ret _) => apply c_ret
  | |- _ _ (throw _) => apply c_throw
  | |- _ _ (get _) => apply c_get
  | |- _ _ (guardOpen _) => apply c_guardOpen
  | |- _ _ (perform _) => apply c_perform
  | |- _ _ (performWithin _ _ _) => apply c_performWithin
  | |- _ _ (performUpTo _ _) => apply c_performUpTo
  | |- _ _ (sleep _) => apply c_sleep
  | |- _ _ (waitSafely _) => apply c_sleep
  | |- _ _ (randomDelay _ _) => apply c_sleep
  | |- _ _ (typeChars _ _) => apply c_typeChars
  | |- _ _ (bind _ _) => apply c_bind; [| intros ?]
  | |- _ _ (tryCatch _ _) => apply c_tryCatch; [| intros ?]
  | |- _ _ (swallow _) => apply c_swallow
  | |- _ _ (when _ _) => apply c_when
  | |- _ _ (forAttempts _ _ _) => apply c_forAttempts; intros ?
  | |- _ _ (modify _) => apply c_modify; intros ?
  end.

Section StepStages.

Context {P : forall A, M A -> Prop} {Rel : World -> World -> Prop}
        `{CP : Compositional P Rel}.
Hypothesis Hcount : @P unit countStep.

Lemma stage_humanType sel text : @P _ (humanType sel text).
Proof. unfold humanType. repeat stage_step. Qed.

Lemma stage_moveAndClick : @P _ moveAndClick.
Proof. unfold moveAndClick. repeat first [ exact Hcount | stage_step ]. Qed.

Lemma stage_execStep creds step : @P _ (execStep creds step).
Proof.
  destruct step; unfold execStep; cbv zeta;
    repeat first [ exact Hcount | apply stage_humanType | apply stage_moveAndClick
                 | stage_step ].
Qed.

Lemma stage_runSteps creds todo : @P _ (runSteps creds todo).
Proof.
  induction todo as [| step rest IH]; simpl.
  - apply c_ret.
  - repeat first [ apply stage_execStep | exact IH | stage_step ].
Qed.

Lemma stage_runLoginSteps loginSite creds : @P _ (runLoginSteps loginSite creds).
Proof.
  unfold runLoginSteps, debugScreenshot.
  repeat first [ apply stage_runSteps | stage_step ].
Qed.

End StepStages.

Section PipelineStages.

Context {P : forall A, M A -> Prop} {Rel : World -> World -> Prop}
        `{CP : Compositional P Rel}.
Hypothesis Hloc : forall f w, Rel w (with_loc f w).

Lemma stage_countStep : @P _ countStep.
Proof. unfold countStep. apply c_modify. intros w. apply Hloc. Qed.

Lemma stage_trySelectors sels : @P _ (trySelectors sels).
Proof.
  induction sels as [| sel rest IH]; simpl.
  - apply c_ret.
  - repeat first [ exact IH | stage_step ].
Qed.

Lemma stage_dismissCookies : @P _ dismissCookies.
Proof. unfold dismissCookies. repeat first [ apply stage_trySelectors | stage_step ]. Qed.

Lemma stage_screenshotIfOpen : @P _ screenshotIfOpen.
Proof. unfold screenshotIfOpen, debugScreenshot. repeat stage_step. Qed.

Lemma stage_decideLogin loginSite : @P _ (decideLogin loginSite).
Proof. unfold decideLogin. repeat stage_step; apply Hloc. Qed.

Lemma stage_attemptLogin loginSite creds : @P _ (attemptLogin loginSite creds).
Proof.
  unfold attemptLogin.
  apply c_bind; [apply stage_runLoginSteps, stage_countStep |].
  intros _. apply stage_decideLogin.
Qed.

Lemma stage_login parseURL loginSite creds : @P _ (login parseURL loginSite creds).
Proof.
  unfold login.
  repeat first [ apply stage_attemptLogin | apply stage_screenshotIfOpen
               | apply Hloc | stage_step ].
Qed.

Lemma stage_loginStage parseURL target ctx : @P _ (loginStage parseURL target ctx).
Proof. unfold loginStage. repeat first [ apply stage_login | stage_step ]. Qed.

Lemma stage_configure : @P _ configure.
Proof. unfold configure, configureOnce. repeat stage_step. Qed.

Lemma stage_navigate target : @P _ (navigate target).
Proof. unfold navigate. repeat stage_step. Qed.

Lemma stage_scroll b : @P _ (scroll b).
Proof. unfold scroll. repeat stage_step. Qed.

Lemma stage_prepareCapture : @P _ prepareCapture.
Proof. unfold prepareCapture. repeat stage_step. Qed.

Lemma stage_takeScreenshot : @P _ takeScreenshot.
Proof. unfold takeScreenshot. repeat stage_step. Qed.

Lemma stage_deliver shot : @P _ (deliver shot).
Proof. unfold deliver. repeat stage_step. Qed.

Lemma stage_capture : @P _ capture.
Proof.
  unfold capture.
  repeat first [ apply stage_prepareCapture | apply stage_takeScreenshot
               | apply stage_deliver | stage_step ].
Qed.

Lemma stage_afterLogin target : @P _ (afterLogin target).
Proof.
  unfold afterLogin.
  repeat first [ apply stage_navigate | apply stage_scroll | apply stage_dismissCookies
               | stage_step ].
Qed.

Lemma stage_beforeCapture parseURL target ctx : @P _ (beforeCapture parseURL target ctx).
Proof.
  unfold beforeCapture.
  apply c_bind; [apply stage_configure | intros _].
  apply c_bind; [apply stage_loginStage | intros _].
  apply stage_afterLogin.
Qed.

End PipelineStages.

Lemma extends_loc f w : extends w (with_loc f w).
Proof. repeat split. now exists []. Qed.

Lemma staysOpen_loc f w : staysOpen w (with_loc f w).
Proof. split; auto. Qed.

Lemma sameVerdict_countStep : keeps sameVerdict countStep.
Proof. intros w. reflexivity. Qed.

Lemma anything_loc (f : Locals -> Locals) (w : World) : (fun _ _ : World => True) w (with_loc f w).
Proof. exact I. Qed.

Lemma priceScraper_verdict parseURL (ctx : Context) (target : string) (w w1 : World) :
  ctx_url ctx = Some target ->
  url_rejected parseURL (Some target) = false ->
  isClosed (pg w) = false ->
  (beforeCapture parseURL target ctx ;; prepareCapture) w = (Ok tt, w1) ->
  priceScraper parseURL ctx w = verdict (takeScreenshot w1).
Proof.
  intros Hu Hr Ho Hb. unfold priceScraper. rewrite Hu, Hr. simpl show_url.
  unfold bind at 1. unfold get. rewrite Ho.
  unfold tryCatch, capture, bind in *.
  destruct (beforeCapture parseURL target ctx w) as [[[] | e | n] w0]; try discriminate Hb.
  destruct (prepareCapture w0) as [[[] | e | n] w0']; try discriminate Hb.
  injection Hb as ->.
  destruct (takeScreenshot w1) as [[[v |] | e | n] w2]; simpl; try reflexivity.
  unfold ret, throw. destruct (truthy v); reflexivity.
Qed.

Lemma capture_ready parseURL (ctx : Context) (target : string) (w w1 : World) :
  (beforeCapture parseURL target ctx ;; prepareCapture) w = (Ok tt, w1) ->
  extends w w1 /\ staysOpen w w1.
Proof.
  intros Hb. split.
  - pose proof (@keeps_bind _ extends_Frame _ _
                  (beforeCapture parseURL target ctx) (fun _ => prepareCapture)
                  (@stage_beforeCapture (@keeps extends) extends _ extends_loc
                     parseURL target ctx)
                  (fun _ => @stage_prepareCapture (@keeps extends) extends _) w) as H.
    rewrite Hb in H. exact H.
  - pose proof (@keeps_bind _ staysOpen_Frame _ _
                  (beforeCapture parseURL target ctx) (fun _ => prepareCapture)
                  (@stage_beforeCapture (@keeps staysOpen) staysOpen _ staysOpen_loc
                     parseURL target ctx)
                  (fun _ => @stage_prepareCapture (@keeps staysOpen) staysOpen _) w) as H.
    rewrite Hb in H. exact H.
Qed.

Lemma lastReply_screenshot (w : World) (c : Call) (v : Val) :
  buffersOnly (env w) ->
  hd_error (trace w) = Some c -> c = primaryShot \/ c = fallbackShot ->
  outcome (lastReply w) = Resolved v -> truthy v = true.
Proof.
  intros Hb Hh Hc Ho. unfold lastReply in Ho.
  destruct (trace w) as [| c' t]; [discriminate |]. injection Hh as ->.
  destruct Hc as [-> | ->]; eapply Hb; exact Ho.
Qed.

(** C6: once the stages before it have run, the screenshot loop makes at
    most three tries of the full clip, each raced against a timer of 30
    seconds, and at most one try of the reduced clip (800 by 600 at quality
    50), that one only after three tries. A full-size screenshot is used
    only if it arrived before the timer. After a third failure on a page
    that is still open the reduced try is made; what it resolves to is what
    the job returns, as an image. On a page that stays open the job fails
    only after three tries and a reduced try that was rejected. A page that
    closes meanwhile ends the stage with its own error. *)
Theorem screenshot_retry_and_fallback parseURL (ctx : Context) (target : string)
    (w w1 : World) :
  ctx_url ctx = Some target ->
  url_rejected parseURL (Some target) = false ->
  isClosed (pg w) = false ->
  (beforeCapture parseURL target ctx ;; prepareCapture) w = (Ok tt, w1) ->
  let w2 := snd (takeScreenshot w1) in
  let tries := calls primaryShot (trace w2) - calls primaryShot (trace w1) in
  let fallbacks := calls fallbackShot (trace w2) - calls fallbackShot (trace w1) in
  snd (priceScraper parseURL ctx w) = w2 /\
  tries <= 3 /\ fallbacks <= 1 /\ (fallbacks = 1 -> tries = 3) /\
  (tries = 3 -> isClosed (pg w2) = false ->
   fallbacks = 1 \/
   exists v, fst (takeScreenshot w1) = Ok (Some v) /\
             hd_error (trace w2) = Some primaryShot) /\
  (forall v, fst (takeScreenshot w1) = Ok (Some v) ->
             hd_error (trace w2) = Some primaryShot ->
             (elapsed (lastReply w2) < 30000)%Z /\
             outcome (lastReply w2) = Resolved v) /\
  (fallbacks = 1 ->
   forall v, outcome (lastReply w2) = Resolved v -> truthy v = true ->
             priceScraper parseURL ctx w =
               (Ok {| data := Binary v; type := "image/jpeg" |}, w2)) /\
  (buffersOnly (env w1) -> isClosed (pg w2) = false ->
   forall e, fst (priceScraper parseURL ctx w) = Ok (failure e) ->
             tries = 3 /\ fallbacks = 1 /\
             hd_error (trace w2) = Some fallbackShot /\
             exists msg, outcome (lastReply w2) = Rejected msg) /\
  (neverCloses (env w) ->
   (forall n, (30000 <= elapsed (env w n primaryShot))%Z) ->
   forall v, truthy v = true ->
             (forall n, outcome (env w n fallbackShot) = Resolved v) ->
             priceScraper parseURL ctx w =
               (Ok {| data := Binary v; type := "image/jpeg" |}, w2) /\
             tries = 3 /\ fallbacks = 1).
Proof.
  intros Hu Hr Ho Hb w2 tries fallbacks.
  assert (Ew2 : w2 = snd (takeScreenshot w1)) by reflexivity.
  clearbody w2.
  pose proof (@priceScraper_verdict parseURL ctx target w w1 Hu Hr Ho Hb) as Hv.
  destruct (@capture_ready parseURL ctx target w w1 Hb) as [(Henv & _ & _) [_ Hopen]].
  pose proof (takeScreenshot_counts w1) as (Hc1 & Hc2 & Hc3).
  pose proof (@stage_takeScreenshot (@keeps extends) extends _ w1) as (Henv2 & _ & l & Hl).
  rewrite <- Ew2 in Hc1, Hc2, Hc3, Henv2, Hl.
  assert (Hm1 : calls primaryShot (trace w1) <= calls primaryShot (trace w2)).
  { rewrite Hl. unfold calls. rewrite count_occ_app. lia. }
  assert (Hm2 : calls fallbackShot (trace w1) <= calls fallbackShot (trace w2)).
  { rewrite Hl. unfold calls. rewrite count_occ_app. lia. }
  split.
  { rewrite Hv. subst w2. destruct (takeScreenshot w1) as [[[v |] | e | n] w3]; simpl;
      try reflexivity. destruct (truthy v); reflexivity. }
  split; [subst tries; lia |]. split; [subst fallbacks; lia |].
  split; [subst tries fallbacks; lia |].
  split.
  { intros Ht Hop.
    pose proof (@takeScreenshot_third w1) as H. cbv zeta in H. rewrite <- Ew2 in H.
    destruct H as [H | H];
      [subst tries; lia | exact Hop | left; subst fallbacks; lia | right; exact H]. }
  split.
  { intros v Hok Hh.
    destruct (@takeScreenshot_success w1 (Some v) Hok) as (_ & v' & Hv' & Hres & Hcase).
    rewrite <- Ew2 in Hres, Hcase. injection Hv' as <-.
    destruct Hcase as [(_ & Hel & _) | (Hf & _)]; [split; assumption |].
    rewrite Hh in Hf. discriminate Hf. }
  split.
  { intros Hf v Hres Htr. rewrite Hv.
    assert (Hok : fst (takeScreenshot w1) = Ok (Some v)).
    { apply takeScreenshot_fallback; rewrite <- Ew2; [subst fallbacks; lia | exact Hres]. }
    subst w2. destruct (takeScreenshot w1) as [r w3]. simpl in Hok. subst r.
    simpl. rewrite Htr. reflexivity. }
  split.
  { intros Hbuf Hop e He. rewrite Hv in He.
    destruct (takeScreenshot w1) as [[[v |] | e' | n] w3] eqn:Ets;
      simpl in He, Ew2; subst w3.
    - destruct (truthy v) eqn:Et; simpl in He; [discriminate He |].
      pose proof (@takeScreenshot_success w1 (Some v)) as Hs.
      rewrite Ets in Hs. simpl in Hs.
      destruct Hs as (_ & v' & Hv' & Hres & Hcase); [reflexivity |].
      injection Hv' as <-.
      assert (Htrue : truthy v = true).
      { destruct Hcase as [(Hh & _) | (Hh & _)];
          eapply lastReply_screenshot; try exact Hh; try exact Hres; auto;
            unfold buffersOnly; rewrite Henv2; exact Hbuf. }
      congruence.
    - pose proof (@takeScreenshot_success w1 None) as Hs. rewrite Ets in Hs.
      destruct Hs as (_ & v' & Hv' & _); [reflexivity | discriminate Hv'].
    - injection He as <-.
      pose proof (@takeScreenshot_failure w1 e') as Hf. rewrite Ets in Hf. simpl in Hf.
      destruct Hf as [(Hcl & _) | (Hp & Hf & Hh & Hm)]; [reflexivity | congruence |].
      subst tries fallbacks. repeat split; try assumption; lia.
    - discriminate He. }
  intros Hnc Hslow v Htr Hfb.
  destruct (@takeScreenshot_scenario w1 v) as (Hok & Hp & Hf).
  - apply Hopen; assumption.
  - unfold neverCloses. rewrite Henv. exact Hnc.
  - intros n. rewrite Henv. apply Z.leb_le. apply Hslow.
  - intros n. rewrite Henv. apply Hfb.
  - rewrite <- Ew2 in Hp, Hf. split; [| subst tries fallbacks; lia].
    rewrite Hv. subst w2. destruct (takeScreenshot w1) as [r w3]. simpl in Hok. subst r.
    simpl. rewrite Htr. reflexivity.
Qed.

Lemma calm_neverCloses : neverCloses calm.
Proof. intros n c. destruct c; reflexivity. Qed.

Lemma sluggish_neverCloses bytes ms : neverCloses (sluggish bytes ms).
Proof.
  intros n c. unfold sluggish.
  destruct (Call_eq_dec c primaryShot); [reflexivity |].
  destruct (Call_eq_dec c fallbackShot); [reflexivity |].
  apply calm_neverCloses.
Qed.

Lemma screenshot_retry_and_fallback_witness :
  fst (priceScraper exampleParse (plainJob (Some "https://example.com"))
         (boot (sluggish "small" 10)))
  = Ok {| data := Binary (VBuffer "small"); type := "image/jpeg" |}.
Proof.
  pose (w := boot (sluggish "small" 10)).
  pose (ctx := plainJob (Some "https://example.com")).
  pose (w1 := snd ((beforeCapture exampleParse "https://example.com" ctx ;;
                    prepareCapture) w)).
  assert (Hb : (beforeCapture exampleParse "https://example.com" ctx ;; prepareCapture) w
               = (Ok tt, w1)) by (vm_compute; reflexivity).
  destruct (@screenshot_retry_and_fallback exampleParse ctx "https://example.com" w w1
              eq_refl eq_refl eq_refl Hb)
    as (_ & _ & _ & _ & _ & _ & _ & _ & Hs).
  destruct (Hs (sluggish_neverCloses "small" 10)) with (v := VBuffer "small") as [Hp _].
  - intros n. vm_compute. discriminate.
  - reflexivity.
  - intros n. reflexivity.
  - fold w ctx. rewrite Hp. reflexivity.
Defined.

(** ** The login heuristic *)

Lemma bind_Ok A B (m : M A) (f : A -> M B) (w w' : World) (b : B) :
  bind m f w = (Ok b, w') ->
  exists a w1, m w = (Ok a, w1) /\ f a w1 = (Ok b, w').
Proof.
  unfold bind. destruct (m w) as [[a | e | n] w1]; intros H; try discriminate H.
  exists a, w1. split; [reflexivity | exact H].
Qed.

Lemma mostStepsSucceeded_spec (k n : nat) :
  mostStepsSucceeded k n = true <-> 3 * n <= 4 * k.
Proof. unfold mostStepsSucceeded. apply Nat.leb_le. Qed.

Lemma decideLogin_run (loginSite : LoginSite) (w : World) :
  let w' := snd (decideLogin loginSite w) in
  fst (decideLogin loginSite w) = Ok tt /\
  pg w' = pg w /\ trace w' = trace w /\
  stepSuccess (loc w') = stepSuccess (loc w) /\
  loginSuccess (loc w') =
    loginSuccess (loc w)
    || negb (String.eqb (pageUrl (pg w)) (url loginSite))
    || mostStepsSucceeded (stepSuccess (loc w)) (List.length (steps loginSite)).
Proof.
  unfold decideLogin, bind, get, modify, ret. simpl.
  destruct (String.eqb (pageUrl (pg w)) (url loginSite)); simpl.
  - destruct (mostStepsSucceeded (stepSuccess (loc w)) (List.length (steps loginSite)));
      simpl; repeat split; try (now rewrite orb_true_r); now rewrite !orb_false_r.
  - repeat split. now rewrite orb_true_r.
Qed.

Lemma attemptLogin_decides (loginSite : LoginSite) creds (w : World) :
  fst (attemptLogin loginSite creds w) = Ok tt ->
  let w' := snd (attemptLogin loginSite creds w) in
  loginSuccess (loc w') =
    loginSuccess (loc w)
    || negb (String.eqb (pageUrl (pg w')) (url loginSite))
    || mostStepsSucceeded (stepSuccess (loc w')) (List.length (steps loginSite)).
Proof.
  intros Hok. cbv zeta.
  destruct (attemptLogin loginSite creds w) as [r w'] eqn:E. simpl in Hok. subst r.
  unfold attemptLogin in E. apply bind_Ok in E. destruct E as ([] & w1 & E1 & E2).
  pose proof (@stage_runLoginSteps (@keeps sameVerdict) sameVerdict _
                sameVerdict_countStep loginSite creds w) as Hv.
  rewrite E1 in Hv. unfold sameVerdict in Hv. simpl in Hv.
  destruct (decideLogin_run loginSite w1) as (_ & Hpg & _ & Hst & Hls).
  rewrite E2 in Hpg, Hst, Hls. simpl in *.
  rewrite Hls, Hpg, Hst, Hv. reflexivity.
Qed.

(** A stage wrapped in [catch] with a page check fails only on a closed
    page. *)
Lemma guarded_catch (body : M unit) (msg : string) (w : World) :
  noExit body ->
  let r := tryCatch body (fun _ => guardOpen msg) w in
  fst r = Ok tt \/ (fst r = Throw msg /\ isClosed (pg (snd r)) = true).
Proof.
  intros Hn. unfold tryCatch. specialize (Hn w).
  destruct (body w) as [[[] | e | n] w1]; simpl in *.
  - now left.
  - unfold guardOpen. destruct (isClosed (pg w1)) eqn:Ec; simpl; [right | left]; auto.
  - exfalso. now apply (Hn n).
Qed.

Lemma configure_soft (w : World) :
  fst (configure w) = Ok tt \/
  (exists e, fst (configure w) = Throw e) /\ isClosed (pg (snd (configure w))) = true.
Proof.
  unfold configure.
  match goal with
  | |- context [tryCatch ?b ?h w] =>
      destruct (@guarded_catch b "Page closed during configuration" w) as [H | [H1 H2]]
  end.
  - unfold configureOnce. repeat stage_step.
  - now left.
  - right. split; [eexists; exact H1 | exact H2].
Qed.

Lemma login_soft parseURL loginSite creds (w : World) :
  let r := login parseURL loginSite creds w in
  fst r = Ok tt \/ (exists e, fst r = Throw e) /\ isClosed (pg (snd r)) = true.
Proof.
  unfold login.
  match goal with
  | |- context [tryCatch ?b ?h w] =>
      destruct (@guarded_catch b "Page closed during login process" w) as [H | [H1 H2]]
  end.
  - repeat first [ apply (@stage_attemptLogin (@noExit) _ _ anything_loc)
                 | apply (@stage_screenshotIfOpen (@noExit) _ _)
                 | stage_step | exact I ].
  - now left.
  - right. split; [eexists; exact H1 | exact H2].
Qed.

Lemma loginStage_soft parseURL target ctx (w : World) :
  let r := loginStage parseURL target ctx w in
  fst r = Ok tt \/ (exists e, fst r = Throw e) /\ isClosed (pg (snd r)) = true.
Proof.
  unfold loginStage.
  destruct (findLoginSite parseURL target (loginInstructions ctx)) as [ls |];
    [| now left].
  destruct (lookup (toLowerCase (site ls)) (credentials ctx)) as [creds |];
    [| now left].
  apply login_soft.
Qed.

(** Login failure is soft: with the page open after the configuration and
    login stages, both have returned. *)
Lemma login_never_fatal parseURL target ctx (w : World) :
  isClosed (pg (snd ((configure ;; loginStage parseURL target ctx) w))) = false ->
  fst ((configure ;; loginStage parseURL target ctx) w) = Ok tt.
Proof.
  unfold bind.
  destruct (configure_soft w) as [H | [[e He] Hc]];
    destruct (configure w) as [r w0]; simpl in *; subst r.
  - intros Ho.
    destruct (loginStage_soft parseURL target ctx w0) as [H | [[e He] Hc]]; [exact H |].
    simpl in *. congruence.
  - simpl. congruence.
Qed.

Lemma navigate_goes (target : string) (w : World) :
  isClosed (pg w) = false ->
  exists l, trace (snd (navigate target w)) = (l ++ gotoTarget target :: trace w)%list.
Proof.
  intros Ho. unfold navigate. unfold bind at 1. unfold guardOpen at 1. rewrite Ho.
  cbn [forAttempts]. unfold bind at 1. unfold tryCatch at 1. unfold bind at 1.
  unfold guardOpen at 1. rewrite Ho. unfold bind at 1. unfold perform at 1.
  fold (gotoTarget target).
  destruct (advance None (gotoTarget target) w) as [r w2] eqn:Ea.
  assert (Ht : trace w2 = gotoTarget target :: trace w).
  { unfold advance in Ea. injection Ea as _ <-. reflexivity. }
  destruct (outcome r) as [v | e].
  - simpl. exists []. exact Ht.
  - match goal with
    | |- context [trace (snd (let (_, _) := ?h w2 in _))] =>
        assert (Hk : keeps extends h)
    end.
    { repeat stage_step. }
    match goal with
    | |- exists l, trace (snd ?x) = _ => assert (Hx : extends w2 (snd x))
    end.
    { specialize (Hk w2).
      match goal with |- context [let (_, _) := ?h w2 in _] => destruct (h w2) as [[[u |] | e' | n] w3] end;
        simpl in *; try exact Hk.
      eapply frame_trans; [exact Hk |].
      match goal with |- extends w3 (snd (?m w3)) => assert (Hm : keeps extends m) end.
      { repeat stage_step. }
      apply Hm. }
    destruct Hx as (_ & _ & l & Hl). exists l. rewrite Hl, Ht. reflexivity.
Qed.

Lemma extends_after_bind A B (m : M A) (f : A -> M B) (w : World) :
  (forall a, keeps extends (f a)) -> extends (snd (m w)) (snd (bind m f w)).
Proof.
  intros Hf. unfold bind. destruct (m w) as [[a | e | n] w1]; simpl.
  - apply Hf.
  - apply frame_refl.
  - apply frame_refl.
Qed.

Lemma pipeline_proceeds parseURL (ctx : Context) (target : string) (w : World) :
  ctx_url ctx = Some target ->
  url_rejected parseURL (Some target) = false ->
  isClosed (pg w) = false ->
  let w1 := snd ((configure ;; loginStage parseURL target ctx) w) in
  isClosed (pg w1) = false ->
  exists l, trace (snd (priceScraper parseURL ctx w))
            = (l ++ gotoTarget target :: trace w1)%list.
Proof.
  intros Hu Hr Ho w1 Ho1.
  pose proof (login_never_fatal parseURL target ctx w Ho1) as Hok.
  assert (E : (configure ;; loginStage parseURL target ctx) w = (Ok tt, w1)).
  { subst w1. destruct ((configure ;; loginStage parseURL target ctx) w) as [r w0].
    simpl in *. now subst r. }
  clearbody w1. clear Hok.
  assert (Hw : snd (priceScraper parseURL ctx w)
               = snd ((afterLogin target ;; capture) w1)).
  { unfold priceScraper. rewrite Hu, Hr. simpl show_url.
    unfold bind at 1. unfold get. rewrite Ho. unfold tryCatch.
    unfold beforeCapture. unfold bind in E |- *.
    destruct (configure w) as [[[] | e | n] w0]; try discriminate E.
    destruct (loginStage parseURL target ctx w0) as [[[] | e | n] w0']; try discriminate E.
    injection E as ->.
    destruct (afterLogin target w1) as [[[] | e | n] w3]; try reflexivity.
    destruct (capture w3) as [[a | e | n] w4]; reflexivity. }
  rewrite Hw.
  destruct (navigate_goes target w1 Ho1) as [l Hl].
  assert (H1 : extends (snd (navigate target w1)) (snd (afterLogin target w1))).
  { unfold afterLogin. apply extends_after_bind. intros a.
    repeat first [ apply (@stage_scroll (@keeps extends) extends _)
                 | apply (@stage_dismissCookies (@keeps extends) extends _)
                 | stage_step ]. }
  assert (H2 : extends (snd (afterLogin target w1))
                 (snd ((afterLogin target ;; capture) w1))).
  { apply extends_after_bind. intros _.
    apply (@stage_capture (@keeps extends) extends _). }
  assert (Hx : extends (snd (navigate target w1))
                 (snd ((afterLogin target ;; capture) w1)))
    by (eapply frame_trans; eassumption).
  destruct Hx as (_ & _ & l' & Hl'). exists (l' ++ l)%list.
  rewrite Hl', Hl. now rewrite app_assoc.
Qed.

(** The decision on its own: when the login steps have run to the decision,
    counted from zero, [loginSuccess] is set exactly when the page has left
    the login URL or at least three quarters of the steps succeeded. *)
Lemma attemptLogin_heuristic (loginSite : LoginSite) (creds : list (string * string))
    (wl : World) :
  loginSuccess (loc wl) = false ->
  fst (attemptLogin loginSite creds wl) = Ok tt ->
  let wl' := snd (attemptLogin loginSite creds wl) in
  let n := List.length (steps loginSite) in
  let k := stepSuccess (loc wl') in
  (loginSuccess (loc wl') = true <->
   pageUrl (pg wl') <> url loginSite \/ 3 * n <= 4 * k).
Proof.
  intros Hf Hok wl' n k.
  pose proof (attemptLogin_decides loginSite creds wl Hok) as Hd.
  cbv zeta in Hd. fold wl' in Hd. fold k in Hd. fold n in Hd. rewrite Hf in Hd.
  simpl in Hd.
  rewrite Hd, orb_true_iff, negb_true_iff, mostStepsSucceeded_spec.
  rewrite String.eqb_neq. reflexivity.
Qed.

(** The two runs end to end: four steps of five, then one of two, with the
    page still on the login URL; both go on to the target and return the
    screenshot. *)
Example login_runs_end_to_end :
  let good := priceScraper exampleParse (shopJob fourOfFive) (boot shopEnv) in
  let poor := priceScraper exampleParse (shopJob oneOfTwo) (boot shopEnv) in
  loginSuccess (loc (snd good)) = true /\ stepSuccess (loc (snd good)) = 4 /\
  loginSuccess (loc (snd poor)) = false /\ stepSuccess (loc (snd poor)) = 1 /\
  calls (gotoTarget "https://www.shop.example.com/item/1") (trace (snd good)) = 1 /\
  calls (gotoTarget "https://www.shop.example.com/item/1") (trace (snd poor)) = 1 /\
  fst good = Ok {| data := Binary (VBuffer "jpeg"); type := "image/jpeg" |} /\
  fst poor = Ok {| data := Binary (VBuffer "jpeg"); type := "image/jpeg" |}.
Proof. vm_compute. repeat split. Qed.

(** ** Wait steps *)

Lemma execStep_wait creds (time : option Z) (w : World) :
  execStep creds (StepWait time) w =
    (Ok tt,
     with_loc (fun l => set_stepSuccess (S (stepSuccess l)) l)
       (snd (advance None (CDelay (Fixed (waitTime time))) w))).
Proof. reflexivity. Qed.

Lemma runSteps_wait_open creds (time : option Z) (rest : list LoginStep) (w : World) :
  isClosed (pg w) = false ->
  runSteps creds (StepWait time :: rest) w = runSteps creds rest (afterWait time w).
Proof.
  intros Ho. cbn [runSteps].
  unfold bind, guardOpen, tryCatch, execStep, waitSafely, sleep, countStep, modify.
  rewrite Ho. reflexivity.
Qed.

Lemma runSteps_wait_closed creds (time : option Z) (rest : list LoginStep) (w : World) :
  isClosed (pg w) = true ->
  runSteps creds (StepWait time :: rest) w = (Throw "Page closed during login steps", w).
Proof.
  intros Ho. cbn [runSteps]. unfold bind, guardOpen. rewrite Ho. reflexivity.
Qed.

Lemma afterWait_counts (time : option Z) (w : World) :
  stepSuccess (loc (afterWait time w)) = S (stepSuccess (loc w)).
Proof. reflexivity. Qed.

Lemma runSteps_waits creds (todo : list LoginStep) :
  forallb isWait todo = true ->
  forall w,
    fst (runSteps creds todo w) = Ok tt ->
    stepSuccess (loc (snd (runSteps creds todo w)))
    = stepSuccess (loc w) + List.length todo.
Proof.
  induction todo as [| step rest IH]; intros Hw w Hok.
  - simpl. lia.
  - simpl in Hw. apply andb_true_iff in Hw. destruct Hw as [Hs Hrest].
    destruct step; try discriminate Hs.
    destruct (isClosed (pg w)) eqn:Ho.
    + rewrite (runSteps_wait_closed creds time rest w Ho) in Hok. discriminate Hok.
    + rewrite (runSteps_wait_open creds time rest w Ho) in Hok |- *.
      rewrite (IH Hrest _ Hok), afterWait_counts. simpl. lia.
Qed.

Lemma runSteps_waits_open creds (todo : list LoginStep) :
  forallb isWait todo = true ->
  forall w,
    neverCloses (env w) -> isClosed (pg w) = false ->
    fst (runSteps creds todo w) = Ok tt.
Proof.
  induction todo as [| step rest IH]; intros Hw w Hn Ho.
  - reflexivity.
  - simpl in Hw. apply andb_true_iff in Hw. destruct Hw as [Hs Hrest].
    destruct step; try discriminate Hs.
    rewrite (runSteps_wait_open creds time rest w Ho).
    apply IH; [exact Hrest | exact Hn |].
    unfold afterWait. simpl. rewrite Ho, !Hn. reflexivity.
Qed.

Lemma bind_fst A B (m : M A) (f : A -> M B) (w : World) (a : A) :
  fst (m w) = Ok a -> bind m f w = f a (snd (m w)).
Proof.
  unfold bind. destruct (m w) as [r w1]. simpl. intros ->. reflexivity.
Qed.

Lemma debugScreenshot_ok (w : World) (v : Val) :
  outcome (env w (clock w) (CScreenshot 60 None)) = Resolved v -> truthy v = true ->
  debugScreenshot w = (Ok tt, snd (advance None (CScreenshot 60 None) w)).
Proof.
  intros Hv Ht. unfold debugScreenshot, bind, perform, advance. rewrite Hv.
  destruct v; try discriminate Ht; reflexivity.
Qed.

Lemma runLoginSteps_waits_open (loginSite : LoginSite) creds (w : World) :
  forallb isWait (steps loginSite) = true ->
  neverCloses (env w) -> isClosed (pg w) = false ->
  (forall i, exists v, outcome (env w i (CScreenshot 60 None)) = Resolved v /\
                       truthy v = true) ->
  fst (runLoginSteps loginSite creds w) = Ok tt.
Proof.
  intros Hw Hn Ho Hs. unfold runLoginSteps.
  rewrite (@bind_fst _ _ (get (fun w => isClosed (pg w))) _ w (isClosed (pg w)) eq_refl).
  simpl snd. rewrite Ho. simpl negb. cbv iota.
  destruct (Hs (clock w)) as (v & Hv & Ht).
  set (w1 := snd (advance None (CScreenshot 60 None) w)).
  rewrite (@bind_fst _ _ debugScreenshot _ w tt)
    by (rewrite (debugScreenshot_ok w Hv Ht); reflexivity).
  rewrite (debugScreenshot_ok w Hv Ht). simpl snd. fold w1.
  assert (Ho1 : isClosed (pg w1) = false).
  { subst w1. simpl. rewrite Ho, Hn. reflexivity. }
  assert (Hn1 : neverCloses (env w1)) by exact Hn.
  pose proof (runSteps_waits_open creds (steps loginSite) Hw w1 Hn1 Ho1) as Hr.
  pose proof (@stage_runSteps (@keeps staysOpen) staysOpen _
                (@stage_countStep (@keeps staysOpen) staysOpen _ staysOpen_loc)
                creds (steps loginSite) w1) as [He Hso].
  rewrite (@bind_fst _ _ (runSteps creds (steps loginSite)) _ w1 tt Hr).
  set (w2 := snd (runSteps creds (steps loginSite) w1)) in *.
  unfold bind, waitSafely, sleep, guardOpen. simpl.
  rewrite (Hso Hn1 Ho1). rewrite <- He in Hn1. rewrite Hn1. reflexivity.
Qed.

(** Wait steps on their own: each one that runs is counted; a run of a
    recipe of wait steps that reaches the decision has counted every step
    and sets [loginSuccess]; and the decision is reached whenever the page
    is left open and the screenshot of the login page is taken (a buffer,
    or any other truthy value). *)
Lemma attemptLogin_waits (loginSite : LoginSite) (creds : list (string * string))
    (w : World) :
  forallb isWait (steps loginSite) = true ->
  let n := List.length (steps loginSite) in
  let w' := snd (attemptLogin loginSite creds w) in
  (forall time w0,
     fst (execStep creds (StepWait time) w0) = Ok tt /\
     stepSuccess (loc (snd (execStep creds (StepWait time) w0)))
     = S (stepSuccess (loc w0))) /\
  mostStepsSucceeded n n = true /\
  (fst (attemptLogin loginSite creds w) = Ok tt ->
   stepSuccess (loc w') = stepSuccess (loc w) + n /\
   loginSuccess (loc w') = true) /\
  (neverCloses (env w) -> isClosed (pg w) = false ->
   (forall i, exists v, outcome (env w i (CScreenshot 60 None)) = Resolved v /\
                        truthy v = true) ->
   fst (attemptLogin loginSite creds w) = Ok tt).
Proof.
  intros Hw n w'. split; [| split; [| split]].
  - intros time w0. rewrite execStep_wait. split; reflexivity.
  - apply mostStepsSucceeded_spec. lia.
  - intros Hok.
    assert (Hcount : stepSuccess (loc w') = stepSuccess (loc w) + n).
    { subst w'. destruct (attemptLogin loginSite creds w) as [r w2] eqn:E.
      simpl in Hok. subst r. unfold attemptLogin in E.
      apply bind_Ok in E. destruct E as ([] & w1 & E1 & E2).
      destruct (decideLogin_run loginSite w1) as (_ & _ & _ & Hst & _).
      rewrite E2 in Hst. simpl in Hst. simpl. rewrite Hst.
      unfold runLoginSteps in E1.
      apply bind_Ok in E1. destruct E1 as (c & wa & Ea & E1).
      unfold get in Ea. injection Ea as <- <-.
      apply bind_Ok in E1. destruct E1 as ([] & wb & Eb & E1).
      apply bind_Ok in E1. destruct E1 as ([] & wc & Ec & E1).
      apply bind_Ok in E1. destruct E1 as ([] & wd & Ed & E1).
      unfold guardOpen in E1. destruct (isClosed (pg wd)); [discriminate E1 |].
      injection E1 as <-.
      unfold waitSafely, sleep in Ed. injection Ed as <-. simpl.
      pose proof (runSteps_waits creds (steps loginSite) Hw wb) as Hr.
      rewrite Ec in Hr. simpl in Hr. rewrite Hr by reflexivity.
      subst n. f_equal.
      destruct (negb (isClosed (pg w))); [| discriminate Eb].
      unfold debugScreenshot, bind, perform in Eb.
      destruct (advance None (CScreenshot 60 None) w) as [r wx] eqn:Ex.
      destruct (outcome r) as [v |]; [| discriminate Eb].
      assert (Hx : wb = wx)
        by (destruct v; unfold throw, ret in Eb; try discriminate Eb;
            injection Eb as <-; reflexivity).
      subst wb. unfold advance in Ex. injection Ex as _ <-. reflexivity. }
    split; [exact Hcount |].
    pose proof (attemptLogin_decides loginSite creds w Hok) as Hd.
    cbv zeta in Hd. fold w' in Hd. rewrite Hd.
    assert (Hm : mostStepsSucceeded (stepSuccess (loc w')) (List.length (steps loginSite))
                 = true).
    { apply mostStepsSucceeded_spec. fold n. lia. }
    rewrite Hm. apply orb_true_r.
  - intros Hn Ho Hs. unfold attemptLogin.
    rewrite (@bind_fst _ _ (runLoginSteps loginSite creds) _ w tt
               (runLoginSteps_waits_open loginSite creds w Hw Hn Ho Hs)).
    apply (decideLogin_run loginSite).
Qed.

(** ** The wait for the browser *)

(** The loop of [runScrapeJob] that waits for the browser never uses up its
    31 rounds: more fuel changes nothing. *)
Lemma waitForBrowser_enough (fuel extra : nat) (startTime : Z) :
  forall w,
    (30000 - (now w - startTime) < 1000 * Z.of_nat fuel)%Z ->
    waitForBrowser (fuel + extra) startTime w = waitForBrowser fuel startTime w.
Proof.
  induction fuel as [| fuel IH]; intros w Hb.
  - destruct extra as [| extra]; [reflexivity |].
    simpl. destruct (connected w); [reflexivity |].
    destruct (Z.ltb_spec 30000 (now w - startTime)) as [_ | Hge]; [reflexivity | lia].
  - simpl. destruct (connected w); [reflexivity |].
    destruct (30000 <? now w - startTime)%Z; [reflexivity |].
    unfold bind, sleep. apply IH.
    unfold advance. cbn [snd now min_dur]. rewrite Nat2Z.inj_succ in Hb. lia.
Qed.

Lemma waitForBrowser_fuel (extra : nat) (w : World) :
  waitForBrowser (31 + extra) (now w) w = waitForBrowser 31 (now w) w.
Proof. apply waitForBrowser_enough. change (Z.of_nat 31) with 31%Z. lia. Qed.
(* ===================================================================== *)
(** * More of the servers *)
(* ===================================================================== *)

(** ** What a computation may do *)

Section Confinement.

Variable ok : Call -> bool.
Variable upd : World -> World -> Prop.

Lemma reach_trans (a b c : World) :
  reach ok upd a b -> reach ok upd b c -> reach ok upd a c.
Proof.
  intros Hab Hbc. induction Hbc as [| b w1 cap c' _ IH Hc | b w1 w2 _ IH Hu].
  - exact Hab.
  - apply reach_call; [apply IH; exact Hab | exact Hc].
  - eapply reach_set; [apply IH; exact Hab | exact Hu].
Qed.

Lemma reach_advance (cap : option Z) (c : Call) (w : World) :
  ok c = true -> reach ok upd w (snd (advance cap c w)).
Proof. intros Hc. apply reach_call; [apply reach_stay | exact Hc]. Qed.

Lemma confined_ret A (a : A) : confined ok upd (ret a).
Proof. intros w. apply reach_stay. Qed.

Lemma confined_throw A (e : string) : confined ok upd (@throw A e).
Proof. intros w. apply reach_stay. Qed.

Lemma confined_exit A (n : nat) : confined ok upd (@exit A n).
Proof. intros w. apply reach_stay. Qed.

Lemma confined_get A (f : World -> A) : confined ok upd (get f).
Proof. intros w. apply reach_stay. Qed.

Lemma confined_guardOpen (msg : string) : confined ok upd (guardOpen msg).
Proof. intros w. unfold guardOpen. destruct (isClosed (pg w)); apply reach_stay. Qed.

Lemma confined_modify (f : World -> World) :
  (forall w, upd w (f w)) -> confined ok upd (modify f).
Proof. intros Hf w. eapply reach_set; [apply reach_stay | apply Hf]. Qed.

Lemma confined_bind A B (m : M A) (f : A -> M B) :
  confined ok upd m -> (forall a, confined ok upd (f a)) -> confined ok upd (bind m f).
Proof.
  intros Hm Hf w. unfold bind. specialize (Hm w).
  destruct (m w) as [[a | e | n] w1]; simpl in *; try assumption.
  eapply reach_trans; [exact Hm | apply Hf].
Qed.

Lemma confined_tryCatch A (body : M A) (handler : string -> M A) :
  confined ok upd body -> (forall e, confined ok upd (handler e)) ->
  confined ok upd (tryCatch body handler).
Proof.
  intros Hm Hf w. unfold tryCatch. specialize (Hm w).
  destruct (body w) as [[a | e | n] w1]; simpl in *; try assumption.
  eapply reach_trans; [exact Hm | apply Hf].
Qed.

Lemma confined_finally A (body : M A) (cleanup : M unit) :
  confined ok upd body -> confined ok upd cleanup -> confined ok upd (finally body cleanup).
Proof.
  intros Hm Hf w. unfold finally. specialize (Hm w).
  destruct (body w) as [[a | e | n] w1]; simpl in *; try assumption;
    specialize (Hf w1); destruct (cleanup w1) as [[[] | e' | n'] w2]; simpl in *;
    eapply reach_trans; eassumption.
Qed.

Lemma confined_swallow A (m : M A) : confined ok upd m -> confined ok upd (swallow m).
Proof.
  intros Hm. unfold swallow. apply confined_tryCatch.
  - apply confined_bind; [assumption | intros; apply confined_ret].
  - intros; apply confined_ret.
Qed.

Lemma confined_when (b : bool) (m : M unit) :
  confined ok upd m -> confined ok upd (when b m).
Proof. intros Hm. destruct b; simpl; [assumption | apply confined_ret]. Qed.

Lemma confined_perform (c : Call) : ok c = true -> confined ok upd (perform c).
Proof.
  intros Hc w. unfold perform.
  pose proof (@reach_advance None c w Hc) as Ha.
  destruct (advance None c w) as [r w1]. simpl in Ha.
  destruct (outcome r); assumption.
Qed.

Lemma confined_performWithin (ms : Z) (msg : string) (c : Call) :
  ok c = true -> confined ok upd (performWithin ms msg c).
Proof.
  intros Hc w. unfold performWithin.
  pose proof (@reach_advance (Some ms) c w Hc) as Ha.
  destruct (advance (Some ms) c w) as [r w1]. simpl in Ha.
  destruct (ms <=? elapsed r)%Z; [assumption |].
  destruct (outcome r); assumption.
Qed.

Lemma confined_performUpTo (ms : Z) (c : Call) :
  ok c = true -> confined ok upd (performUpTo ms c).
Proof.
  intros Hc w. unfold performUpTo.
  pose proof (@reach_advance (Some ms) c w Hc) as Ha.
  destruct (advance (Some ms) c w) as [r w1]. simpl in Ha.
  destruct (ms <=? elapsed r)%Z; [assumption |].
  destruct (outcome r); assumption.
Qed.

Lemma confined_sleep (d : Dur) : ok (CDelay d) = true -> confined ok upd (sleep d).
Proof. intros Hc w. apply reach_advance. exact Hc. Qed.

Lemma confined_call_ (c : Call) : ok c = true -> confined ok upd (call_ c).
Proof. intros Hc w. apply reach_advance. exact Hc. Qed.

Lemma confined_randomBelow (p : Z) :
  ok (CRandomBelow p) = true -> confined ok upd (randomBelow p).
Proof.
  intros Hc w. unfold randomBelow.
  pose proof (@reach_advance None (CRandomBelow p) w Hc) as Ha.
  destruct (advance None (CRandomBelow p) w) as [r w1]. assumption.
Qed.

Lemma confined_forAttempts A (n : nat) (body : nat -> M (option A)) :
  (forall i, confined ok upd (body i)) -> forall i, confined ok upd (forAttempts n i body).
Proof.
  intros Hb. induction n as [| n IH]; intros i; simpl.
  - apply confined_ret.
  - apply confined_bind; [apply Hb |].
    intros [a |]; [apply confined_ret | apply IH].
Qed.

Lemma confined_closeAll (n : nat) :
  ok CPageClose = true -> confined ok upd (closeAll n).
Proof.
  intros Hc. induction n as [| n IH]; simpl.
  - apply confined_ret.
  - apply confined_bind; [apply confined_swallow, confined_perform, Hc | intros; apply IH].
Qed.

Lemma confined_typeChars (sel text : string) :
  (forall ch, ok (CType sel ch) = true) -> (forall d, ok (CDelay d) = true) ->
  confined ok upd (typeChars sel text).
Proof.
  intros Ht Hd. induction text as [| ch rest IH]; simpl.
  - apply confined_ret.
  - apply confined_bind; [apply confined_perform, Ht | intros].
    apply confined_bind; [apply confined_sleep, Hd | intros; apply IH].
Qed.

End Confinement.

Lemma reach_weaken (ok ok' : Call -> bool) (upd upd' : World -> World -> Prop) (w w' : World) :
  (forall c, ok c = true -> ok' c = true) -> (forall a b, upd a b -> upd' a b) ->
  reach ok upd w w' -> reach ok' upd' w w'.
Proof.
  intros Hok Hupd H. induction H as [| w w1 cap c _ IH Hc | w w1 w2 _ IH Hu].
  - apply reach_stay.
  - apply reach_call; [exact IH | apply Hok, Hc].
  - eapply reach_set; [exact IH | apply Hupd, Hu].
Qed.

Lemma confined_weaken (ok ok' : Call -> bool) (upd upd' : World -> World -> Prop)
    A (m : M A) :
  (forall c, ok c = true -> ok' c = true) -> (forall a b, upd a b -> upd' a b) ->
  confined ok upd m -> confined ok' upd' m.
Proof. intros Hok Hupd H w. eapply reach_weaken; [exact Hok | exact Hupd | apply H]. Qed.

(** The calls made along the way are all accepted, when no assignment
    touches the trace. *)
Lemma reach_madeOnly (ok : Call -> bool) (upd : World -> World -> Prop) (w w' : World) :
  (forall a b, upd a b -> trace b = trace a) ->
  reach ok upd w w' -> madeOnly ok w w'.
Proof.
  intros Hu H. induction H as [| w w1 cap c _ IH Hc | w w1 w2 _ IH Hs].
  - exists []. split; reflexivity.
  - destruct IH as (l & Hl & Hf). exists (c :: l). split.
    + simpl. now rewrite Hl.
    + simpl. now rewrite Hc, Hf.
  - destruct IH as (l & Hl & Hf). exists l. split; [| exact Hf].
    rewrite (Hu _ _ Hs). exact Hl.
Qed.

(** A relation that holds across every call holds along the way, when every
    assignment respects it. *)
Lemma reach_frame (R : World -> World -> Prop) `{FR : Frame R}
    (ok : Call -> bool) (upd : World -> World -> Prop) (w w' : World) :
  (forall a b, upd a b -> R a b) -> reach ok upd w w' -> R w w'.
Proof.
  intros Hu H. induction H as [| w w1 cap c _ IH Hc | w w1 w2 _ IH Hs].
  - apply frame_refl.
  - eapply frame_trans; [exact IH | apply frame_advance].
  - eapply frame_trans; [exact IH | apply Hu, Hs].
Qed.

#[local] Instance sameHold_Frame : Frame sameHold.
Proof.
  split; unfold sameHold.
  - intros w. split; reflexivity.
  - intros a b c [H1 H2] [H3 H4]. split; congruence.
  - intros cap c w. split; reflexivity.
Qed.

(** Decompose a goal [confined ok upd m] along the structure of [m]: the
    calls are checked against [ok]; the assignments are left, to be checked
    against [upd]. *)
Ltac confine_step :=
  cbv beta;
  lazymatch goal with
  | |- confined _ _ (if ?b then _ else _) => destruct b
  | |- confined _ _ (match ?x with _ => _ end) => destruct x
  | |- confined _ _ (ret _) => apply confined_ret
  | |- confined _ _ (throw _) => apply confined_throw
  | |- confined _ _ (exit _) => apply confined_exit
  | |- confined _ _ (get _) => apply confined_get
  | |- confined _ _ (guardOpen _) => apply confined_guardOpen
  | |- confined _ _ (perform _) => apply confined_perform; reflexivity
  | |- confined _ _ (performWithin _ _ _) => apply confined_performWithin; reflexivity
  | |- confined _ _ (performUpTo _ _) => apply confined_performUpTo; reflexivity
  | |- confined _ _ (sleep _) => apply confined_sleep; reflexivity
  | |- confined _ _ (waitSafely _) => apply confined_sleep; reflexivity
  | |- confined _ _ (randomDelay _ _) => apply confined_sleep; reflexivity
  | |- confined _ _ (call_ _) => apply confined_call_; reflexivity
  | |- confined _ _ (randomBelow _) => apply confined_randomBelow; reflexivity
  | |- confined _ _ (closeAll _) => apply confined_closeAll; reflexivity
  | |- confined _ _ (typeChars _ _) =>
      apply confined_typeChars; intros; reflexivity
  | |- confined _ _ (bind _ _) => apply confined_bind; [| intros ?]
  | |- confined _ _ (tryCatch _ _) => apply confined_tryCatch; [| intros ?]
  | |- confined _ _ (finally _ _) => apply confined_finally
  | |- confined _ _ (swallow _) => apply confined_swallow
  | |- confined _ _ (when _ _) => apply confined_when
  | |- confined _ _ (forAttempts _ _ _) => apply confined_forAttempts; intros ?
  | |- confined _ _ (modify _) => apply confined_modify; intros ?
  end.

(** An assignment that leaves all but some fields alone. *)
Ltac assigned :=
  unfold countsOnly, jobOnly, booksOnly, nothing;
  try match goal with |- context [match ?v with _ => _ end] => destruct v end;
  simpl; repeat split; reflexivity.

Ltac confine := repeat first [ confine_step | assigned ].

(** ** The scraper keeps to its page *)

Lemma confined_trySelectors (sels : list string) :
  confined cookieCall nothing (trySelectors sels).
Proof.
  induction sels as [| sel rest IH]; simpl.
  - apply confined_ret.
  - repeat first [ exact IH | confine_step ].
Qed.

Lemma confined_dismissCookies : confined cookieCall nothing dismissCookies.
Proof. unfold dismissCookies. repeat first [ apply confined_trySelectors | confine_step ]. Qed.

Lemma cookieCall_pageCall (c : Call) : cookieCall c = true -> pageCall c = true.
Proof. destruct c; simpl; intros H; first [ reflexivity | discriminate H ]. Qed.

Lemma nothing_countsOnly (a b : World) : nothing a b -> countsOnly a b.
Proof. unfold nothing. intros ->. repeat split. Qed.

Lemma page_dismissCookies : confined pageCall countsOnly dismissCookies.
Proof.
  eapply confined_weaken;
    [exact cookieCall_pageCall | exact nothing_countsOnly | exact confined_dismissCookies].
Qed.

Lemma page_humanType (sel text : string) : confined pageCall countsOnly (humanType sel text).
Proof. unfold humanType. confine. Qed.

Lemma page_execStep creds (step : LoginStep) : confined pageCall countsOnly (execStep creds step).
Proof.
  destruct step; unfold execStep, moveAndClick, countStep; cbv zeta;
    repeat first [ apply page_humanType | confine_step | assigned ].
Qed.

Lemma page_runSteps creds (todo : list LoginStep) :
  confined pageCall countsOnly (runSteps creds todo).
Proof.
  induction todo as [| step rest IH]; simpl.
  - apply confined_ret.
  - repeat first [ apply page_execStep | exact IH | confine_step ].
Qed.

Lemma page_login parseURL loginSite creds :
  confined pageCall countsOnly (login parseURL loginSite creds).
Proof.
  unfold login, attemptLogin, runLoginSteps, decideLogin, screenshotIfOpen, debugScreenshot.
  repeat first [ apply page_runSteps | confine_step | assigned ].
Qed.

Lemma page_beforeCapture parseURL target ctx :
  confined pageCall countsOnly (beforeCapture parseURL target ctx).
Proof.
  unfold beforeCapture, configure, configureOnce, loginStage, afterLogin, navigate, scroll.
  repeat first [ apply page_login | apply page_dismissCookies | confine_step | assigned ].
Qed.

Lemma page_capture : confined pageCall countsOnly capture.
Proof. unfold capture, prepareCapture, takeScreenshot, deliver. confine. Qed.

Lemma page_priceScraper parseURL ctx : confined pageCall countsOnly (priceScraper parseURL ctx).
Proof.
  unfold priceScraper.
  repeat first [ apply page_beforeCapture | apply page_capture | confine_step ].
Qed.

Lemma countsOnly_trace (a b : World) : countsOnly a b -> trace b = trace a.
Proof. intros H. apply H. Qed.

Lemma countsOnly_sameBooks (a b : World) : countsOnly a b -> sameBooks a b.
Proof.
  intros (He & Hr & _ & _ & _ & _ & Hp & _). unfold sameBooks. rewrite Hp.
  repeat split; try assumption. destruct (browser (proc a)); congruence.
Qed.

Lemma countsOnly_sameHold (a b : World) : countsOnly a b -> sameHold a b.
Proof. intros H. split; apply H. Qed.

(** ** The scraper always answers *)

Lemma noExit_priceScraper parseURL ctx : noExit (priceScraper parseURL ctx).
Proof.
  unfold priceScraper.
  repeat first [ apply (@stage_beforeCapture (@noExit) _ _ anything_loc)
               | apply (@stage_capture (@noExit) _ _)
               | stage_step ].
Qed.

Lemma deliver_wellFormed (shot : option Val) (w : World) (r : JobResult) (w' : World) :
  deliver shot w = (Ok r, w') ->
  exists v, truthy v = true /\ r = {| data := Binary v; type := "image/jpeg" |}.
Proof.
  unfold deliver. destruct shot as [v |]; [| discriminate].
  destruct (truthy v) eqn:Ev; [| discriminate].
  unfold ret. intros H. injection H as <- _. exists v. split; [exact Ev | reflexivity].
Qed.

Lemma priceScraper_answers parseURL ctx (w : World) :
  exists r, fst (priceScraper parseURL ctx w) = Ok r /\ wellFormed r.
Proof.
  pose proof (noExit_priceScraper parseURL ctx w) as Hn.
  unfold priceScraper in *.
  destruct (url_rejected parseURL (ctx_url ctx)).
  { eexists. split; [reflexivity |]. right. eexists. reflexivity. }
  unfold bind at 1 in Hn. unfold bind at 1. unfold get in *.
  destruct (isClosed (pg w)).
  { eexists. split; [reflexivity |]. right. eexists. reflexivity. }
  unfold tryCatch in *.
  destruct ((beforeCapture parseURL (show_url (ctx_url ctx)) ctx ;; capture) w)
    as [[r | e | n] w1] eqn:E.
  - exists r. split; [reflexivity |].
    apply bind_Ok in E. destruct E as ([] & w0 & _ & E).
    unfold capture in E.
    apply bind_Ok in E. destruct E as ([] & w2 & _ & E).
    apply bind_Ok in E. destruct E as (shot & w3 & _ & E).
    left. eapply deliver_wellFormed. exact E.
  - eexists. split; [reflexivity |]. right. eexists. reflexivity.
  - exfalso. apply (Hn n). reflexivity.
Qed.

(** ** Counting steps, typing text, dismissing cookies, navigating *)

#[local] Instance sameLoc_Frame : Frame sameLoc.
Proof.
  split; unfold sameLoc.
  - reflexivity.
  - intros; congruence.
  - reflexivity.
Qed.

Lemma sameLoc_humanType (sel text : string) : keeps sameLoc (humanType sel text).
Proof. unfold humanType. frame. Qed.

Lemma execStep_counts creds (step : LoginStep) (w : World) :
  let w' := snd (execStep creds step w) in
  stepSuccess (loc w) <= stepSuccess (loc w') <= S (stepSuccess (loc w)).
Proof.
  destruct step; cbv zeta.
  - unfold execStep. cbv zeta. unfold bind.
    match goal with |- context [humanType ?s ?t w] =>
      pose proof (sameLoc_humanType s t w) as Hk; destruct (humanType s t w) as [[[|] | e | n] w1]
    end; unfold sameLoc in Hk; simpl in *; rewrite Hk; lia.
  - unfold execStep, moveAndClick, countStep, when, tryCatch, bind, perform, randomDelay,
      sleep, modify, get, ret, advance.
    run; lia.
  - unfold execStep, moveAndClick, countStep, when, tryCatch, bind, perform, randomDelay,
      sleep, modify, get, ret, advance.
    run; lia.
  - rewrite execStep_wait. simpl. lia.
  - simpl. lia.
Qed.

Lemma runSteps_counts creds (todo : list LoginStep) :
  forall w r w',
    runSteps creds todo w = (r, w') ->
    stepSuccess (loc w) <= stepSuccess (loc w') <= stepSuccess (loc w) + List.length todo.
Proof.
  induction todo as [| step rest IH]; intros w r w' E.
  - injection E as <- <-. simpl. lia.
  - cbn [runSteps] in E. unfold bind at 1 in E. unfold guardOpen at 1 in E.
    destruct (isClosed (pg w)); [injection E as <- <-; simpl; lia |].
    unfold bind at 1 in E. unfold tryCatch in E. unfold bind at 1 in E.
    pose proof (execStep_counts creds step w) as Hs. cbv zeta in Hs.
    destruct (execStep creds step w) as [[[] | e | n] w1]; simpl in Hs.
    + unfold sleep in E. cbn [fst snd] in E.
      apply IH in E. simpl in E |- *. lia.
    + unfold guardOpen in E. destruct (isClosed (pg w1)).
      * injection E as <- <-. simpl. lia.
      * apply IH in E. simpl. lia.
    + injection E as <- <-. simpl. lia.
Qed.

Lemma sameLoc_debugScreenshot : keeps sameLoc debugScreenshot.
Proof. unfold debugScreenshot. frame. Qed.

Lemma attemptLogin_counts (loginSite : LoginSite) creds (w : World) r w' :
  attemptLogin loginSite creds w = (r, w') ->
  stepSuccess (loc w) <= stepSuccess (loc w') <=
  stepSuccess (loc w) + List.length (steps loginSite).
Proof.
  unfold attemptLogin, runLoginSteps.
  unfold bind at 1. unfold bind at 1. unfold get at 1.
  unfold bind at 1.
  assert (H1 : forall r1 w1,
             (if negb (isClosed (pg w)) then debugScreenshot
              else throw "Page closed during login screenshot") w = (r1, w1) ->
             loc w1 = loc w).
  { intros r1 w1 E. destruct (negb (isClosed (pg w))).
    - pose proof (sameLoc_debugScreenshot w) as Hk. rewrite E in Hk. exact Hk.
    - unfold throw in E. now injection E as _ <-. }
  destruct ((if negb (isClosed (pg w)) then debugScreenshot
             else throw "Page closed during login screenshot") w) as [[[] | e | n] w1] eqn:E1;
    specialize (H1 _ _ eq_refl); try (intros E; injection E as <- <-; rewrite H1; lia).
  unfold bind at 1.
  destruct (runSteps creds (steps loginSite) w1) as [[[] | e | n] w2] eqn:E2;
    pose proof (runSteps_counts creds (steps loginSite) w1 E2) as Hr;
    rewrite H1 in Hr; try (intros E; injection E as <- <-; lia).
  unfold bind at 1. unfold waitSafely, sleep. unfold guardOpen. cbn [fst snd].
  set (w3 := snd (advance None (CDelay (Fixed 3000)) w2)).
  assert (H3 : loc w3 = loc w2) by reflexivity.
  clearbody w3.
  destruct (isClosed (pg w3)); [intros E; injection E as <- <-; rewrite H3; lia |].
  intros E.
  destruct (decideLogin_run loginSite w3) as (_ & _ & _ & Hst & _).
  rewrite E in Hst. simpl in Hst. rewrite Hst, H3. lia.
Qed.

Lemma append_nil_r (s : string) : s ++ "" = s.
Proof. induction s as [| c s IH]; simpl; [reflexivity | now rewrite IH]. Qed.

Lemma append_assoc' (a b c : string) : (a ++ b) ++ c = a ++ (b ++ c).
Proof. induction a as [| x a IH]; simpl; [reflexivity | now rewrite IH]. Qed.

Lemma typed_app (sel : string) (l1 l2 : list Call) :
  typed sel (l1 ++ l2) = typed sel l2 ++ typed sel l1.
Proof.
  induction l1 as [| c l1 IH]; simpl.
  - now rewrite append_nil_r.
  - destruct c; try exact IH.
    destruct (String.eqb selector sel); [| exact IH].
    rewrite IH. now rewrite append_assoc'.
Qed.

Lemma typeChars_typed (sel text : string) :
  forall w,
    fst (typeChars sel text w) = Ok tt ->
    exists l, trace (snd (typeChars sel text w)) = (l ++ trace w)%list /\ typed sel l = text.
Proof.
  induction text as [| ch rest IH]; intros w Hok.
  - exists []. split; reflexivity.
  - cbn [typeChars] in *. unfold bind at 1 in Hok. unfold bind at 1.
    unfold perform in *. unfold advance at 1 in Hok. unfold advance at 1.
    destruct (outcome (env w (clock w) (CType sel ch))); [| discriminate Hok].
    unfold bind at 1 in Hok. unfold bind at 1. unfold randomDelay, sleep in *.
    cbn [fst snd] in *.
    match goal with |- context [typeChars sel rest ?w2] =>
      destruct (IH w2 Hok) as (l & Hl & Ht); exists (l ++ [CDelay (Random 30 100); CType sel ch])%list
    end.
    split.
    + rewrite Hl. simpl. now rewrite <- app_assoc.
    + rewrite typed_app. simpl. rewrite String.eqb_refl, Ht. reflexivity.
Qed.

Lemma perform_trace (c : Call) (w : World) r w' :
  perform c w = (r, w') -> trace w' = c :: trace w.
Proof.
  unfold perform, advance. destruct (outcome (env w (clock w) c));
    intros E; injection E as _ <-; reflexivity.
Qed.

Lemma humanType_run (sel text : string) (w : World) r w' :
  humanType sel text w = (r, w') ->
  (exists b, r = Ok b) /\
  (r = Ok true ->
   exists l,
     trace w'
     = (l ++ CEvaluate (EvClearValue sel) :: CFocus sel :: CWaitForSelector sel 10000
          :: trace w)%list /\
     typed sel l = text).
Proof.
  unfold humanType, tryCatch.
  match goal with |- context [match ?b w with _ => _ end] =>
    pose proof (@stage_humanType (@noExit) _ _ sel text w) as Hn;
    destruct (b w) as [[b' | e | n] w1] eqn:E
  end; intros H.
  - injection H as <- <-. split; [eexists; reflexivity |]. intros Hb.
    apply bind_Ok in E. destruct E as (v1 & wa & Ea & E).
    apply bind_Ok in E. destruct E as (v2 & wb & Eb & E).
    apply bind_Ok in E. destruct E as (v3 & wc & Ec & E).
    apply bind_Ok in E. destruct E as ([] & wd & Ed & E).
    unfold ret in E. injection E as _ <-.
    pose proof (typeChars_typed sel text wc) as Ht. rewrite Ed in Ht.
    destruct (Ht eq_refl) as (l & Hl & Hty). exists l. split; [| exact Hty].
    simpl in Hl. rewrite Hl.
    rewrite (@perform_trace _ _ _ _ Ec), (@perform_trace _ _ _ _ Eb), (@perform_trace _ _ _ _ Ea).
    reflexivity.
  - unfold ret in H. injection H as <- <-. split; [eexists; reflexivity | discriminate].
  - exfalso. unfold humanType, tryCatch in Hn.
    rewrite E in Hn. apply (Hn n). reflexivity.
Qed.

Lemma countIf_app (kind : Call -> bool) (l1 l2 : list Call) :
  countIf kind (l1 ++ l2) = countIf kind l1 + countIf kind l2.
Proof. unfold countIf. now rewrite filter_app, length_app. Qed.

Lemma trySelectors_queries (sels : list string) :
  forall w r w',
    trySelectors sels w = (r, w') ->
    exists l, trace w' = (l ++ trace w)%list /\ countIf isQuery l <= List.length sels.
Proof.
  induction sels as [| sel rest IH]; intros w r w'.
  - intros E. injection E as _ <-. exists []. split; [reflexivity | unfold countIf; simpl; lia].
  - cbn [trySelectors].
    unfold tryCatch, bind, perform, sleep, get, ret, advance.
    run; intros E;
      first
        [ injection E as _ <-;
          first [ exists []; split; [reflexivity | unfold countIf; simpl; lia]
                | eexists [_; _; _]; split; [reflexivity | unfold countIf; simpl; lia] ]
        | apply IH in E; destruct E as (l & Hl & Hc); cbn [trace] in Hl;
          first [ exists (l ++ [CQuery sel])%list; split;
                    [ rewrite Hl, <- app_assoc; reflexivity
                    | rewrite countIf_app; unfold countIf at 2; simpl; lia ]
                | exists (l ++ [CElementClick; CQuery sel])%list; split;
                    [ rewrite Hl, <- app_assoc; reflexivity
                    | rewrite countIf_app; unfold countIf at 2; simpl; lia ] ] ].
Qed.

Lemma dismissCookies_run (w : World) r w' :
  dismissCookies w = (r, w') ->
  r = Ok tt /\
  (isClosed (pg w) = true -> w' = w) /\
  exists l, trace w' = (l ++ trace w)%list /\ forallb cookieCall l = true /\
            countIf isQuery l <= 8.
Proof.
  intros E.
  pose proof (confined_dismissCookies w) as Hc. rewrite E in Hc. simpl in Hc.
  apply reach_madeOnly in Hc; [| unfold nothing; intros a b ->; reflexivity].
  destruct Hc as (l & Hl & Hf).
  pose proof (@stage_dismissCookies (@noExit) _ _ w) as Hn. rewrite E in Hn. simpl in Hn.
  unfold dismissCookies in E. unfold bind at 1 in E. unfold get at 1 in E.
  destruct (isClosed (pg w)) eqn:Ec.
  - injection E as <- <-. split; [reflexivity |]. split; [reflexivity |].
    exists []. repeat split. unfold countIf. simpl. lia.
  - split; [| split; [discriminate |]].
    + destruct r as [[] | e | n]; [reflexivity | | exfalso; now apply (Hn n)].
      unfold tryCatch in E.
      match type of E with context [match ?b w with _ => _ end] =>
        destruct (b w) as [[[] | e' | n'] w1]
      end; discriminate E.
    + exists l. split; [exact Hl |]. split; [exact Hf |].
      unfold tryCatch in E. unfold bind at 1 in E.
      destruct (trySelectors cookieSelectors w) as [[returned | e' | n'] w1] eqn:Et;
        destruct (trySelectors_queries _ _ Et) as (l1 & Hl1 & Hq1);
        simpl in Hq1.
      * destruct returned.
        { injection E as _ <-. rewrite Hl in Hl1. apply app_inv_tail in Hl1.
          subst l1. exact Hq1. }
        unfold bind at 1 in E. unfold get at 1 in E.
        destruct (isClosed (pg w1)); simpl in E.
        { injection E as _ <-. rewrite Hl in Hl1. apply app_inv_tail in Hl1.
          subst l1. exact Hq1. }
        rewrite swallow_perform in E.
        assert (Hw : trace w' = CEvaluate EvCookieText :: l1 ++ trace w).
        { injection E as _ <-. simpl. now rewrite Hl1. }
        rewrite Hl in Hw. change (CEvaluate EvCookieText :: l1 ++ trace w)%list
          with ((CEvaluate EvCookieText :: l1) ++ trace w)%list in Hw.
        apply app_inv_tail in Hw. subst l. unfold countIf in *. simpl. exact Hq1.
      * unfold ret in E. injection E as _ <-. rewrite Hl in Hl1.
        apply app_inv_tail in Hl1. subst l1. exact Hq1.
      * injection E as _ <-. rewrite Hl in Hl1.
        apply app_inv_tail in Hl1. subst l1. exact Hq1.
Qed.

Ltac count_any :=
  repeat match goal with
    | |- context [calls ?c (?c :: ?t)] => rewrite (@calls_same c t)
    | |- context [calls ?c (?c' :: ?t)] => rewrite (@calls_other c c' t) by discriminate
    | H : context [calls ?c (?c :: ?t)] |- _ => rewrite (@calls_same c t) in H
    | H : context [calls ?c (?c' :: ?t)] |- _ =>
        rewrite (@calls_other c c' t) in H by discriminate
    end.

Lemma navigate_unfold (target : string) :
  navigate target
  = (guardOpen "Page closed before navigation" ;; forAttempts 3 1 (navAttempt target)).
Proof. reflexivity. Qed.

Lemma navAttempt_round (target : string) (attempt : nat) (w : World) :
  navRound target attempt w (fst (navAttempt target attempt w))
    (snd (navAttempt target attempt w)).
Proof.
  unfold navRound, navAttempt, gotoTarget, swallow, tryCatch, bind, guardOpen, perform,
    performUpTo, waitSafely, sleep, get, ret, throw, advance, lastReply.
  run; try congruence; (split; [count_any; lia |]);
    first
      [ split; [reflexivity | eexists; eassumption]
      | split; [apply Nat.eqb_neq; assumption | count_any; lia]
      | left; first [assumption | reflexivity]
      | right; split; [apply Nat.eqb_eq; assumption |];
        split; [count_any; lia | split; [reflexivity | assumption]] ].
Qed.

Lemma navigate_rounds (target : string) (w : World) r w' :
  navigate target w = (r, w') ->
  let goto := gotoTarget target in
  calls goto (trace w') <= calls goto (trace w) + 3 /\
  match r with
  | Ok (Some _) =>
      hd_error (trace w') = Some goto /\ exists v, outcome (lastReply w') = Resolved v
  | Ok None => False
  | Throw e =>
      isClosed (pg w') = true \/
      (calls goto (trace w') = calls goto (trace w) + 3 /\
       hd_error (trace w') = Some goto /\ outcome (lastReply w') = Rejected e)
  | Exit _ => False
  end.
Proof.
  cbv zeta. rewrite navigate_unfold. unfold bind at 1. unfold guardOpen at 1.
  destruct (isClosed (pg w)) eqn:Ec;
    [intros E; injection E as <- <-; split; [lia | left; exact Ec] |].
  cbn [forAttempts]. unfold bind, ret.
  pose proof (navAttempt_round target 1 w) as H1. unfold navRound in H1. cbv zeta in H1.
  destruct (navAttempt target 1 w) as [[[u |] | e | n] w1]; cbn [fst snd] in *.
  - intros E; injection E as <- <-. destruct H1 as [Hc H1]. split; [lia | exact H1].
  - pose proof (navAttempt_round target 2 w1) as H2. unfold navRound in H2. cbv zeta in H2.
    destruct (navAttempt target 2 w1) as [[[u |] | e | n] w2]; cbn [fst snd] in *.
    + intros E; injection E as <- <-.
      destruct H1 as [Hc1 _], H2 as [Hc2 H2]. split; [lia | exact H2].
    + pose proof (navAttempt_round target 3 w2) as H3. unfold navRound in H3.
      cbv zeta in H3.
      destruct (navAttempt target 3 w2) as [[[u |] | e | n] w3]; cbn [fst snd] in *;
        intros E; injection E as <- <-.
      * destruct H1 as [Hc1 _], H2 as [Hc2 _], H3 as [Hc3 H3]. split; [lia | exact H3].
      * destruct H3 as [_ [H3 _]]. exfalso. now apply H3.
      * destruct H1 as [_ [_ Hc1]], H2 as [_ [_ Hc2]], H3 as [Hc3 [H3 | (_ & H3 & H4)]];
          (split; [lia |]); [left; exact H3 | right; split; [lia | exact H4]].
      * destruct H3 as [_ []].
    + intros E; injection E as <- <-.
      destruct H1 as [Hc1 _], H2 as [Hc2 [H2 | (H2 & _)]];
        (split; [lia |]); [left; exact H2 | discriminate H2].
    + destruct H2 as [_ []].
  - intros E; injection E as <- <-.
    destruct H1 as [Hc1 [H1 | (H1 & _)]]; (split; [lia |]);
      [left; exact H1 | discriminate H1].
  - destruct H1 as [_ []].
Qed.

(** ** Borrowing and returning the page *)

Lemma acquirePage_unfold : acquirePage = forAttempts 3 1 acquireAttempt.
Proof. reflexivity. Qed.

Ltac bools :=
  repeat match goal with
    | H : _ || _ = false |- _ => apply orb_false_iff in H; destruct H
    | H : _ && _ = true |- _ => apply andb_true_iff in H; destruct H
    | H : negb _ = false |- _ => apply negb_false_iff in H
    | H : negb _ = true |- _ => apply negb_true_iff in H
    end.

Lemma acquireAttempt_round (attempt : nat) (w : World) :
  acqRound attempt w (fst (acquireAttempt attempt w)) (snd (acquireAttempt attempt w)).
Proof.
  unfold acqRound, acquireAttempt, swallow, tryCatch, bind, perform, bindPage, touchPage,
    when, sleep, modify, get, ret, throw, advance, lastReply.
  destruct (outcome (env w (clock w) CPoolAcquire)) as [v | e] eqn:Eo.
  - destruct v; run; try congruence; bools;
      (split; [count_any; lia |]); (split; [count_any; lia |]);
      first
        [ split; [count_any; lia | reflexivity]
        | repeat split;
          first [ count_any; lia | assumption | reflexivity
                | apply orb_false_iff; split; assumption ] ].
  - run; (split; [count_any; lia |]); (split; [count_any; lia |]).
    + split; [apply Nat.eqb_eq; assumption |].
      split; [count_any; lia |]. split; [reflexivity |]. split; [reflexivity | exact Eo].
    + split; [count_any; lia | reflexivity].
Qed.

Lemma acquirePage_spec (w : World) r w' :
  acquirePage w = (r, w') ->
  S (calls CPoolAcquire (trace w)) <= calls CPoolAcquire (trace w')
    <= calls CPoolAcquire (trace w) + 3 /\
  calls CPoolRelease (trace w') = calls CPoolRelease (trace w) /\
  match r with
  | Ok (Some _) =>
      calls CPoolDestroy (trace w') + S (calls CPoolAcquire (trace w))
        <= calls CPoolDestroy (trace w) + calls CPoolAcquire (trace w') /\
      hd_error (trace w') = Some CPoolAcquire /\
      pageAcquired (loc w') = true /\ page (loc w') = true /\ isClosed (pg w') = false /\
      inUse (pg w') = true /\ lastActivity (pg w') = now w'
  | Ok None =>
      calls CPoolDestroy (trace w') + calls CPoolAcquire (trace w)
        <= calls CPoolDestroy (trace w) + calls CPoolAcquire (trace w') /\
      pageAcquired (loc w') = pageAcquired (loc w)
  | Throw e =>
      calls CPoolDestroy (trace w') + calls CPoolAcquire (trace w)
        <= calls CPoolDestroy (trace w) + calls CPoolAcquire (trace w') /\
      pageAcquired (loc w') = pageAcquired (loc w) /\
      calls CPoolAcquire (trace w') = calls CPoolAcquire (trace w) + 3 /\
      outcome (lastReply w') = Rejected e
  | Exit _ => False
  end.
Proof.
  rewrite acquirePage_unfold. cbn [forAttempts]. unfold bind, ret.
  pose proof (acquireAttempt_round 1 w) as H1. unfold acqRound in H1.
  destruct (acquireAttempt 1 w) as [[[u |] | e | n] w1]; cbn [fst snd] in *.
  - intros E; injection E as <- <-. destruct H1 as (Ha & Hr & Hd & H1).
    split; [lia |]. split; [exact Hr |]. split; [lia | exact H1].
  - destruct H1 as (Ha1 & Hr1 & Hd1 & Hp1).
    pose proof (acquireAttempt_round 2 w1) as H2. unfold acqRound in H2.
    destruct (acquireAttempt 2 w1) as [[[u |] | e | n] w2]; cbn [fst snd] in *.
    + intros E; injection E as <- <-. destruct H2 as (Ha & Hr & Hd & H2).
      split; [lia |]. split; [congruence |]. split; [lia | exact H2].
    + destruct H2 as (Ha2 & Hr2 & Hd2 & Hp2).
      pose proof (acquireAttempt_round 3 w2) as H3. unfold acqRound in H3.
      destruct (acquireAttempt 3 w2) as [[[u |] | e | n] w3]; cbn [fst snd] in *;
        intros E; injection E as <- <-.
      * destruct H3 as (Ha & Hr & Hd & H3).
        split; [lia |]. split; [congruence |]. split; [lia | exact H3].
      * destruct H3 as (Ha & Hr & Hd & H3).
        split; [lia |]. split; [congruence |]. split; [lia | congruence].
      * destruct H3 as (Ha & Hr & _ & Hd & H3 & _ & Ho).
        split; [lia |]. split; [congruence |]. split; [lia |].
        split; [congruence |]. split; [lia | exact Ho].
      * destruct H3 as (_ & _ & []).
    + intros E; injection E as <- <-. destruct H2 as (_ & _ & H2 & _). discriminate H2.
    + destruct H2 as (_ & _ & []).
  - intros E; injection E as <- <-. destruct H1 as (_ & _ & H1 & _). discriminate H1.
  - destruct H1 as (_ & _ & []).
Qed.

Lemma releasePage_spec (w : World) :
  fst (releasePage w) = Ok tt /\
  (if pageAcquired (loc w) && page (loc w) && negb (isClosed (pg w))
   then trace (snd (releasePage w)) = CPoolRelease :: CEvaluate EvCleanup :: trace w /\
        inUse (pg (snd (releasePage w))) = false /\
        lastActivity (pg (snd (releasePage w))) = now w
   else snd (releasePage w) = w) /\
  loc (snd (releasePage w)) = loc w.
Proof.
  unfold releasePage, bind, get.
  destruct (pageAcquired (loc w) && page (loc w) && negb (isClosed (pg w))); simpl;
    [| repeat split].
  unfold tryCatch, bind, touchPage, modify. rewrite !swallow_perform. simpl.
  repeat split.
Qed.

(** ** The job from end to end *)

Lemma runScrapeJob_unfold parseURL (ctx : Context) :
  url_rejected parseURL (ctx_url ctx) = false ->
  runScrapeJob parseURL ctx
  = (conn <- get connected ;; when (negb conn) restartAndWait ;; jobRest parseURL ctx).
Proof. intros H. unfold runScrapeJob. rewrite H. reflexivity. Qed.

Lemma forallb_calls (ok : Call -> bool) (c : Call) (l t : list Call) :
  forallb ok l = true -> ok c = false -> calls c (l ++ t)%list = calls c t.
Proof.
  intros Hl Hc. induction l as [| a l IH]; [reflexivity |].
  simpl in Hl. apply andb_true_iff in Hl. destruct Hl as [Ha Hl].
  change ((a :: l) ++ t)%list with (a :: (l ++ t))%list.
  rewrite (@calls_other c a (l ++ t)%list); [apply IH, Hl |].
  intros ->. congruence.
Qed.

Lemma madeOnly_calls (ok : Call -> bool) (c : Call) (w w' : World) :
  madeOnly ok w w' -> ok c = false -> calls c (trace w') = calls c (trace w).
Proof. intros (l & Hl & Hf) Hc. rewrite Hl. exact (@forallb_calls ok c l (trace w) Hf Hc). Qed.

Lemma madeOnly_trans (ok : Call -> bool) (a b c : World) :
  madeOnly ok a b -> madeOnly ok b c -> madeOnly ok a c.
Proof.
  intros (l1 & H1 & F1) (l2 & H2 & F2). exists (l2 ++ l1)%list. split.
  - rewrite H2, H1. now rewrite app_assoc.
  - rewrite forallb_app. now rewrite F1, F2.
Qed.

Lemma swallow_ok A (m : M A) (w : World) : noExit m -> fst (swallow m w) = Ok tt.
Proof.
  intros Hn. unfold swallow, tryCatch, bind, ret. specialize (Hn w).
  destruct (m w) as [[a | e | n] w1]; simpl in *; try reflexivity.
  exfalso. now apply (Hn n).
Qed.

Lemma pageCall_workCall (c : Call) : pageCall c = true -> workCall c = true.
Proof. unfold workCall. intros ->. reflexivity. Qed.

Lemma work_priceScraper parseURL ctx : confined workCall countsOnly (priceScraper parseURL ctx).
Proof.
  eapply confined_weaken; [exact pageCall_workCall | | apply page_priceScraper].
  intros a b H. exact H.
Qed.

Lemma work_afterAcquire parseURL ctx : confined workCall countsOnly (afterAcquire parseURL ctx).
Proof.
  unfold afterAcquire.
  repeat first [ apply work_priceScraper | confine_step ].
Qed.

Lemma afterAcquire_spec parseURL ctx (w : World) r w' :
  afterAcquire parseURL ctx w = (r, w') ->
  madeOnly workCall w w' /\ sameHold w w' /\
  if pageAcquired (loc w) && page (loc w)
  then exists res, r = Ok res /\ wellFormed res
  else r = Throw "Failed to acquire a valid page from the pool" /\ w' = w.
Proof.
  intros E.
  pose proof (work_afterAcquire parseURL ctx w) as Hc. rewrite E in Hc. simpl in Hc.
  split; [eapply reach_madeOnly; [exact countsOnly_trace | exact Hc] |].
  split; [eapply (@reach_frame sameHold _); [exact countsOnly_sameHold | exact Hc] |].
  clear Hc. unfold afterAcquire in E. unfold bind at 1 2 in E. unfold get in E.
  destruct (pageAcquired (loc w)); [destruct (page (loc w)) |]; simpl in E |- *.
  2, 3: injection E as <- <-; split; reflexivity.
  unfold bind at 1 in E. unfold ret at 1 in E.
  unfold bind at 1 in E. unfold randomBelow in E.
  destruct (advance None (CRandomBelow 100) w) as [rr w1].
  unfold bind at 1 in E.
  match type of E with context [when ?b (swallow ?m) w1] =>
    assert (Hs : fst (when b (swallow m) w1) = Ok tt);
    [ destruct b; [apply swallow_ok | reflexivity] |
      destruct (when b (swallow m) w1) as [rs w2]; simpl in Hs; subst rs ]
  end.
  { repeat first [ stage_step | (intros ? ?; simpl; discriminate) ]. }
  destruct (priceScraper_answers parseURL ctx w2) as (res & Hres & Hwf).
  rewrite E in Hres. simpl in Hres. exists res. split; assumption.
Qed.

Lemma jobCatch_idle (error : string) (w : World) :
  pageAcquired (loc w) = false -> jobCatch error w = (Ok (failure error), w).
Proof. intros H. unfold jobCatch, bind, get. rewrite H. reflexivity. Qed.

(** What the [try] and [catch] of [runScrapeJob] leave behind. *)
Lemma jobTry_spec parseURL ctx (w : World) r w' :
  pageAcquired (loc w) = false ->
  tryCatch (jobBody parseURL ctx) jobCatch w = (r, w') ->
  (exists res, r = Ok res /\ wellFormed res) /\
  S (calls CPoolAcquire (trace w)) <= calls CPoolAcquire (trace w')
    <= calls CPoolAcquire (trace w) + 3 /\
  calls CPoolRelease (trace w') = calls CPoolRelease (trace w) /\
  calls CPoolDestroy (trace w') + calls CPoolAcquire (trace w)
    + (if pageAcquired (loc w') then 1 else 0)
    <= calls CPoolDestroy (trace w) + calls CPoolAcquire (trace w') /\
  (pageAcquired (loc w') = true ->
   page (loc w') = true /\
   exists l t, trace w' = (l ++ CPoolAcquire :: t)%list /\ forallb workCall l = true).
Proof.
  intros Hp. unfold tryCatch, jobBody. unfold bind at 1.
  destruct (acquirePage w) as [ra wa] eqn:Ea.
  pose proof (@acquirePage_spec w ra wa Ea) as (Hca & Hcr & Ha).
  destruct ra as [u | e | n]; [| | destruct Ha].
  - destruct (afterAcquire parseURL ctx wa) as [rb wb] eqn:Eb.
    destruct (afterAcquire_spec _ _ _ Eb) as (Hm & [Hh1 Hh2] & Hb).
    pose proof (madeOnly_calls CPoolAcquire Hm eq_refl) as Ma.
    pose proof (madeOnly_calls CPoolRelease Hm eq_refl) as Mr.
    pose proof (madeOnly_calls CPoolDestroy Hm eq_refl) as Md.
    destruct u as [[] |].
    + destruct Ha as (Hd & Hh & Hpa & Hpg & _).
      rewrite Hpa, Hpg in Hb. simpl in Hb. destruct Hb as (res & -> & Hwf).
      intros E. injection E as <- <-.
      split; [exists res; split; [reflexivity | exact Hwf] |].
      split; [lia |]. split; [congruence |].
      rewrite Hh2, Hpa. split; [lia |]. intros _. split; [congruence |].
      destruct Hm as (l & Hl & Hf). destruct (trace wa) as [| c t] eqn:Et; [discriminate |].
      simpl in Hh. injection Hh as ->. exists l, t. split; assumption.
    + destruct Ha as (Hd & Hpa). rewrite Hp in Hpa. rewrite Hpa in Hb. simpl in Hb.
      destruct Hb as [-> ->].
      rewrite (jobCatch_idle _ _ Hpa). intros E. injection E as <- <-.
      split; [eexists; split; [reflexivity | right; eexists; reflexivity] |].
      split; [lia |]. split; [congruence |]. rewrite Hpa. split; [lia | discriminate].
  - destruct Ha as (Hd & Hpa & _). rewrite Hp in Hpa. rewrite (jobCatch_idle _ _ Hpa).
    intros E. injection E as <- <-.
    split; [eexists; split; [reflexivity | right; eexists; reflexivity] |].
    split; [lia |]. split; [congruence |]. rewrite Hpa. split; [lia | discriminate].
Qed.

(** The job from its [try] to the end of its [finally]. *)
Lemma jobRest_spec parseURL ctx (w : World) r w' :
  jobRest parseURL ctx w = (r, w') ->
  (exists res, r = Ok res /\ wellFormed res) /\
  S (calls CPoolAcquire (trace w)) <= calls CPoolAcquire (trace w')
    <= calls CPoolAcquire (trace w) + 3 /\
  calls CPoolRelease (trace w') <= S (calls CPoolRelease (trace w)) /\
  calls CPoolDestroy (trace w') + calls CPoolRelease (trace w')
    + calls CPoolAcquire (trace w)
    <= calls CPoolDestroy (trace w) + calls CPoolRelease (trace w)
       + calls CPoolAcquire (trace w') /\
  (calls CPoolRelease (trace w') = S (calls CPoolRelease (trace w)) ->
   hd_error (trace w') = Some CPoolRelease /\ pageAcquired (loc w') = true /\
   inUse (pg w') = false) /\
  (pageAcquired (loc w') = true ->
   page (loc w') = true /\
   (calls CPoolRelease (trace w') = S (calls CPoolRelease (trace w)) \/
    (isClosed (pg w') = true /\
     exists l t, trace w' = (l ++ CPoolAcquire :: t)%list /\ forallb workCall l = true))).
Proof.
  unfold jobRest. unfold bind at 1. unfold modify at 1. unfold finally.
  destruct (tryCatch (jobBody parseURL ctx) jobCatch (atTry w)) as [r1 w1] eqn:E1.
  destruct (@jobTry_spec parseURL ctx (atTry w) r1 w1 eq_refl E1)
    as ((res & -> & Hwf) & Ha & Hr & Hd & Hl).
  change (trace (atTry w)) with (trace w) in *.
  destruct (releasePage_spec w1) as (Hok & Hrel & Hloc).
  destruct (releasePage w1) as [r2 w2]. simpl in Hok, Hrel, Hloc. subst r2.
  intros E. injection E as <- <-.
  split; [exists res; split; [reflexivity | exact Hwf] |].
  rewrite Hloc.
  destruct (pageAcquired (loc w1)) eqn:Epa; simpl in Hrel.
  - destruct (Hl eq_refl) as (Hpg & l & t & Ht & Hf). rewrite Hpg in Hrel. simpl in Hrel.
    destruct (isClosed (pg w1)) eqn:Ec; simpl in Hrel.
    + subst w2. split; [lia |]. split; [lia |]. split; [lia |].
      split; [intros Hx; lia |]. intros _. split; [exact Hpg |]. right.
      split; [exact Ec |]. exists l, t. split; assumption.
    + destruct Hrel as (Htr & Hu & _). rewrite Htr. count_any.
      split; [lia |]. split; [lia |]. split; [lia |].
      split; [intros _; repeat split; assumption |].
      intros _. split; [exact Hpg |]. left. lia.
  - subst w2. split; [lia |]. split; [lia |]. split; [lia |].
    split; [intros Hx; lia | discriminate].
Qed.

(** ** Restarting, waiting and shutting down *)

Lemma handleBrowserCrash_outcome (cfg : RestartConfig) (w : World) :
  fst (handleBrowserCrash cfg w) = Ok tt \/ fst (handleBrowserCrash cfg w) = Exit 1.
Proof.
  destruct (isRestarting (proc w)) eqn:Er.
  - left. now rewrite (handleBrowserCrash_busy cfg w Er).
  - destruct (Nat.lt_ge_cases (MAX_RESTART_ATTEMPTS cfg) (S (restartAttempts (proc w))))
      as [Hlt | Hge].
    + right. now rewrite (handleBrowserCrash_fatal cfg w Er Hlt).
    + left. rewrite (handleBrowserCrash_runs cfg w Er Hge).
      apply (restartSequence_spec cfg (entered w)).
Qed.

Lemma waitForBrowser_spec (fuel : nat) (startTime : Z) :
  forall w r w',
    (30000 - (now w - startTime) < 1000 * Z.of_nat fuel)%Z ->
    waitForBrowser fuel startTime w = (r, w') ->
    (r = Ok tt /\ connected w' = true) \/
    (r = Throw "Browser not available after restart" /\ connected w' = false /\
     (30000 < now w' - startTime)%Z).
Proof.
  induction fuel as [| fuel IH]; intros w r w' Hb E.
  - simpl in E. destruct (connected w) eqn:Ec.
    + injection E as <- <-. left. split; [reflexivity | exact Ec].
    + destruct (Z.ltb_spec 30000 (now w - startTime)) as [Hlt | Hge]; [| lia].
      injection E as <- <-. right. repeat split; assumption.
  - simpl in E. destruct (connected w) eqn:Ec.
    + injection E as <- <-. left. split; [reflexivity | exact Ec].
    + destruct (Z.ltb_spec 30000 (now w - startTime)) as [Hlt | Hge].
      * injection E as <- <-. right. repeat split; assumption.
      * unfold bind, sleep in E. cbn [fst snd] in E.
        apply IH in E; [exact E |].
        unfold advance. cbn [snd now min_dur]. rewrite Nat2Z.inj_succ in Hb. lia.
Qed.

Lemma restartAndWait_outcome (w : World) r w' :
  restartAndWait w = (r, w') ->
  (r = Ok tt /\ connected w' = true) \/
  r = Throw "Browser not available after restart" \/
  r = Exit 1.
Proof.
  unfold restartAndWait. unfold bind at 1.
  destruct (handleBrowserCrash_outcome Server.restartConfig w) as [H | H];
    destruct (handleBrowserCrash Server.restartConfig w) as [r1 w1]; simpl in H; subst r1.
  - unfold bind, get. intros E.
    apply waitForBrowser_spec in E; [| change (Z.of_nat 31) with 31%Z; lia].
    destruct E as [E | (E & _)]; [left; exact E | right; left; exact E].
  - intros E. injection E as <- _. right. right. reflexivity.
Qed.

Lemma confined_teardown (cfg : RestartConfig) :
  confined restartCall booksOnly (teardown cfg).
Proof. unfold teardown. confine. Qed.

Lemma confined_handleBrowserCrash (cfg : RestartConfig) :
  confined restartCall booksOnly (handleBrowserCrash cfg).
Proof.
  unfold handleBrowserCrash, enterRestart, restartSequence, initializeBrowser,
    createPagePool, setupPageHealthMonitoring.
  repeat first [ apply confined_teardown | confine_step | assigned ].
Qed.

Lemma booksOnly_trace (a b : World) : booksOnly a b -> trace b = trace a.
Proof. intros H. apply H. Qed.

Lemma booksOnly_sameLoc (a b : World) : booksOnly a b -> sameLoc a b.
Proof. intros H. apply H. Qed.

Lemma settles_then_exit A (m : M A) (f : A -> M unit) (n : nat) :
  settles m -> (forall a w, fst (f a w) = Exit n) -> forall w, fst (bind m f w) = Exit n.
Proof.
  intros Hm Hf w. unfold bind. destruct (Hm w) as [a Ha].
  destruct (m w) as [r w1]. simpl in Ha. subst r. apply Hf.
Qed.

Lemma releaseAndExit_run (w : World) :
  fst (releaseAndExit w) = Exit 0 /\ madeOnly shutdownCall w (snd (releaseAndExit w)).
Proof.
  split.
  - revert w. unfold releaseAndExit.
    repeat first
      [ apply settles_then_exit; [| intros ?]
      | apply settles_get | apply settles_when | apply settles_call_
      | apply settles_swallow_perform | apply settles_bind; [| intros ?]
      | (intros ?; reflexivity) ].
  - apply (@reach_madeOnly shutdownCall nothing).
    + unfold nothing. intros a b ->. reflexivity.
    + assert (H : confined shutdownCall nothing releaseAndExit) by (unfold releaseAndExit; confine).
      apply H.
Qed.

(** What a restart from rest leaves behind, by the outcome of the launch. *)
Lemma restartSequence_renews (cfg : RestartConfig) (w : World) :
  let w' := snd (restartSequence cfg w) in
  match outcome (lastReply w') with
  | Resolved _ =>
      connected w' = true /\
      pagePool (proc w') = Some (match pagePool (proc w) with Some n => S n | None => 0 end) /\
      monitors (proc w') = (if monitorsPages cfg then S (monitors (proc w)) else monitors (proc w))
  | Rejected _ =>
      pagePool (proc w') = pagePool (proc w) /\ monitors (proc w') = monitors (proc w)
  end.
Proof.
  unfold restartSequence, tryCatch, bind.
  pose proof (teardown_ok cfg w) as Hok.
  pose proof (teardown_books cfg w) as Hb.
  assert (Hm : monitors (proc (snd (teardown cfg w))) = monitors (proc w)).
  { assert (Hf : Frame (fun a b => monitors (proc b) = monitors (proc a))).
    { split; [reflexivity | intros; congruence | reflexivity]. }
    apply (@reach_frame _ Hf restartCall nothing).
    - unfold nothing. intros a b ->. reflexivity.
    - assert (H : confined restartCall nothing (teardown cfg)) by (unfold teardown; confine).
      apply H. }
  destruct (teardown cfg w) as [r1 w1]. simpl in Hok, Hb, Hm. subst r1.
  unfold sleep.
  pose proof (frame_advance (R := sameBooks) None (CDelay (Fixed (RESTART_DELAY cfg))) w1) as Hb2.
  set (w2 := snd (advance None (CDelay (Fixed (RESTART_DELAY cfg))) w1)) in *.
  assert (Hm2 : monitors (proc w2) = monitors (proc w)) by (rewrite <- Hm; reflexivity).
  assert (Hb3 : sameBooks w w2) by (eapply frame_trans; eassumption).
  clearbody w2. clear Hb Hb2 Hm w1.
  destruct Hb3 as (E & Rt & I & A & T & P & B).
  unfold initializeBrowser, tryCatch, bind, perform, advance.
  destruct (outcome (env w2 (clock w2) CLaunch)) as [v | e] eqn:El.
  - destruct (monitorsPages cfg); cbn; unfold lastReply; cbn; rewrite El;
      rewrite P, Hm2; repeat split.
  - cbn. unfold lastReply. cbn. rewrite El. split; assumption.
Qed.

(** ** The job and the routes *)

Lemma jobRest_answers parseURL ctx (w : World) :
  exists res, fst (jobRest parseURL ctx w) = Ok res /\ wellFormed res.
Proof.
  destruct (jobRest parseURL ctx w) as [r w'] eqn:E.
  destruct (jobRest_spec _ _ _ E) as ((res & -> & Hwf) & _).
  exists res. split; [reflexivity | exact Hwf].
Qed.

Lemma runScrapeJob_outcome parseURL ctx (w : World) r w' :
  runScrapeJob parseURL ctx w = (r, w') ->
  (exists res, r = Ok res /\ wellFormed res) \/
  (connected w = false /\
   (r = Throw "Browser not available after restart" \/ r = Exit 1)).
Proof.
  destruct (url_rejected parseURL (ctx_url ctx)) eqn:Hu.
  - unfold runScrapeJob. rewrite Hu. intros E. injection E as <- <-.
    left. eexists. split; [reflexivity |]. right. eexists. reflexivity.
  - rewrite (runScrapeJob_unfold _ _ Hu). unfold bind at 1. unfold get.
    destruct (connected w) eqn:Ec; cbn [negb when].
    + unfold bind, ret. intros E. left.
      destruct (jobRest_answers parseURL ctx w) as (res & Hres & Hwf).
      rewrite E in Hres. simpl in Hres. exists res. split; assumption.
    + unfold bind. destruct (restartAndWait w) as [r1 w1] eqn:E1.
      destruct (restartAndWait_outcome _ E1) as [[-> _] | [-> | ->]]; intros E.
      * left. destruct (jobRest_answers parseURL ctx w1) as (res & Hres & Hwf).
        rewrite E in Hres. simpl in Hres. exists res. split; assumption.
      * injection E as <- _. right. split; [reflexivity | left; reflexivity].
      * injection E as <- _. right. split; [reflexivity | right; reflexivity].
Qed.

Lemma respond_wellFormed (res : JobResult) :
  wellFormed res ->
  (statusCode (respond res) = 200 /\
   exists v, truthy v = true /\ payload (respond res) = ImageBody "image/jpeg" (Binary v)) \/
  (statusCode (respond res) = 400 /\ exists e, payload (respond res) = ResultBody false e).
Proof.
  intros [(v & Hv & ->) | (e & ->)].
  - left. split; [reflexivity |]. exists v. split; [exact Hv | reflexivity].
  - right. split; [reflexivity |]. exists e. reflexivity.
Qed.

Lemma postScrape_outcome parseURL (req : Context) (w : World) r w' :
  postScrape parseURL req w = (r, w') ->
  (exists resp, r = Ok resp /\ scrapeReply w resp) \/
  (connected w = false /\ r = Exit 1).
Proof.
  unfold postScrape, tryCatch.
  destruct (ctx_url req) as [u |] eqn:Eu.
  2: { intros E. injection E as <- <-. left. eexists. split; [reflexivity |].
       right. left. split; [reflexivity | eexists; reflexivity]. }
  destruct (String.eqb u "") eqn:Ee.
  { intros E. injection E as <- <-. left. eexists. split; [reflexivity |].
    right. left. split; [reflexivity | eexists; reflexivity]. }
  destruct (isValidUrl parseURL u) eqn:Ev; cbn [negb].
  2: { intros E. injection E as <- <-. left. eexists. split; [reflexivity |].
       right. left. split; [reflexivity | eexists; reflexivity]. }
  unfold bind at 1. unfold queueRun. cbn [timeout Server.queueOptions].
  destruct (runScrapeJob parseURL req w) as [rj wj] eqn:Ej.
  destruct (runScrapeJob_outcome _ _ _ Ej) as [(res & -> & Hwf) | [Hc [-> | ->]]];
    cbn [settled].
  - unfold ret. intros E. injection E as <- <-. left. exists (respond res).
    split; [reflexivity |].
    destruct (respond_wellFormed Hwf) as [H | H]; [left | right; left]; exact H.
  - change (blamesBrowser "Browser not available after restart") with true.
    cbn [when]. unfold bind.
    destruct (handleBrowserCrash_outcome Server.restartConfig wj) as [H | H];
      destruct (handleBrowserCrash Server.restartConfig wj) as [r1 w1]; simpl in H; subst r1;
      intros E; injection E as <- <-.
    + left. eexists. split; [reflexivity |]. right. right.
      split; [reflexivity |]. split; [exact Hc | reflexivity].
    + right. split; [exact Hc | reflexivity].
  - intros E. injection E as <- <-. right. split; [exact Hc | reflexivity].
Qed.

Lemma postScrape_refuses parseURL (req : Context) (w : World) :
  url_rejected parseURL (ctx_url req) = true ->
  exists e, postScrape parseURL req w = (Ok (badRequest e), w).
Proof.
  unfold url_rejected, postScrape, tryCatch.
  destruct (ctx_url req) as [u |]; [| intros _; eexists; reflexivity].
  destruct (String.eqb u ""); [intros _; eexists; reflexivity |].
  destruct (isValidUrl parseURL u); [discriminate |].
  intros _. eexists. reflexivity.
Qed.

Lemma healthz_down (lent : nat) (w : World) r w' :
  connected w = false ->
  healthz lent w = (r, w') ->
  (forall h begun,
     r = Ok (h, begun) ->
     httpStatus h = 503 /\ healthy h = false /\ restarting h = true /\ totalPages h = 0 /\
     isRestarting (proc w') = true /\
     begun = negb (isRestarting (proc w)) /\
     (begun = false -> trace w' = trace w) /\
     (begun = true ->
      match pagePool (proc w), browser (proc w) with
      | Some _, _ => trace w' = CPoolDrain :: trace w
      | None, Some _ => trace w' = CBrowserClose :: trace w
      | None, None => hd_error (trace w') = Some (CDelay (Fixed 5000))
      end)) /\
  (forall e, r <> Throw e) /\
  (forall n, r = Exit n ->
     n = 1 /\ isRestarting (proc w) = false /\ 5 < S (restartAttempts (proc w)) /\
     trace w' = trace w).
Proof.
  intros Hc. unfold healthz. unfold bind at 1 2 3 4. unfold get at 1 2 3. rewrite Hc.
  cbn [negb]. unfold ret at 1. unfold bind at 1. unfold beginRestart. unfold bind at 1.
  destruct (isRestarting (proc w)) eqn:Er.
  - rewrite (enterRestart_busy _ _ Er). unfold bind, get, ret. rewrite Er.
    intros E. injection E as <- <-. split; [| split]; [| discriminate | discriminate].
    intros h begun E'. injection E' as <- <-. repeat split; try assumption; try reflexivity.
    discriminate.
  - rewrite (enterRestart_idle _ _ Er).
    change (MAX_RESTART_ATTEMPTS Server.restartConfig) with 5.
    destruct (5 <? S (restartAttempts (proc w))) eqn:El.
    + intros E. injection E as <- <-. split; [| split]; [discriminate | discriminate |].
      intros n E'. injection E' as <-. repeat split. now apply Nat.ltb_lt.
    + unfold connected in Hc |- *. unfold bind at 1. unfold get at 1. cbn [proc with_proc
        set_isRestarting set_restartAttempts browser].
      intros E.
      assert (Hx : exists t,
                 r = Ok ({| httpStatus := 503; healthy := false; browserUp := false;
                            restarting := true;
                            pageCount := match pagePool (proc w) with
                                         | Some _ => lent
                                         | None => 0
                                         end;
                            totalPages := 0 |}, true) /\
                 trace w' = t /\ isRestarting (proc w') = true /\
                 match pagePool (proc w), browser (proc w) with
                 | Some _, _ => t = CPoolDrain :: trace w
                 | None, Some _ => t = CBrowserClose :: trace w
                 | None, None => hd_error t = Some (CDelay (Fixed 5000))
                 end).
      { destruct (browser (proc w)) as [[[|]] |] eqn:Eb; try discriminate Hc;
          destruct (pagePool (proc w)) as [k |] eqn:Ep;
          destruct (gc_exposed (runtime w)) eqn:Eg;
          cbn in E; rewrite ?Eb, ?Ep, ?Eg in E; cbn in E;
          injection E as <- <-; eexists; repeat split. }
      destruct Hx as (t & -> & Ht & Hr & Hm). split; [| split]; [| discriminate | discriminate].
      intros h begun E'. injection E' as <- <-. cbn. repeat split; try assumption.
      * discriminate.
      * intros _. rewrite Ht. exact Hm.
Qed.

Lemma healthz_up (lent : nat) (w : World) r w' :
  connected w = true ->
  healthz lent w = (r, w') ->
  hd_error (trace w') = Some CBrowserPages /\
  proc w' = set_browser (relink (link (lastReply w')) (browser (proc w))) (proc w) /\
  match outcome (lastReply w') with
  | Resolved pages =>
      exists h, r = Ok (h, false) /\ httpStatus h = 200 /\ healthy h = true /\
                restarting h = isRestarting (proc w') /\ totalPages h = handles pages
  | Rejected e => r = Throw e
  end.
Proof.
  intros Hc. unfold healthz. unfold bind at 1 2 3 4. unfold get at 1 2 3. rewrite Hc.
  cbn [negb]. unfold bind at 1. unfold perform, advance, lastReply.
  destruct (outcome (env w (clock w) CBrowserPages)) as [v | e] eqn:Eo.
  - unfold bind, get, ret. intros E. injection E as <- <-. cbn. rewrite Eo.
    split; [reflexivity |]. split; [reflexivity |].
    eexists. split; [reflexivity |]. repeat split.
  - intros E. injection E as <- <-. cbn. rewrite Eo. repeat split.
Qed.

(** ** Memory limits and the job of the n8n server *)

Lemma megabytes_above (limit bytes : Z) :
  (limit <? megabytes bytes)%Z = true <-> (limit * 1048576 + 524288 <= bytes)%Z.
Proof.
  unfold megabytes. rewrite Z.ltb_lt.
  split; intros H; Z.to_euclidean_division_equations; lia.
Qed.

Lemma isMemoryCritical_spec (limits : Limits) (mem : MemoryUsage) :
  isMemoryCritical limits mem = true <->
  (RESTART_THRESHOLD limits * 1048576 + 524288 <= heapUsed mem)%Z \/
  ((RESTART_THRESHOLD limits + 200) * 1048576 + 524288 <= rss mem)%Z.
Proof.
  unfold isMemoryCritical, getMemoryStats. cbv zeta. cbn [heapUsed rss].
  rewrite orb_true_iff, !megabytes_above. reflexivity.
Qed.

Section OptimizedStages.

Context {P : forall A, M A -> Prop} {Rel : World -> World -> Prop}
        `{CP : Compositional P Rel}.

Lemma stage_clickFirst sels : @P _ (Optimized.clickFirst sels).
Proof.
  induction sels as [| sel rest IH]; simpl.
  - apply c_ret.
  - repeat first [ exact IH | stage_step ].
Qed.

Lemma stage_fastScraper target : @P _ (Optimized.fastScraper target).
Proof.
  unfold Optimized.fastScraper, Optimized.dismissCookies, lengthOf.
  repeat first [ apply stage_clickFirst | stage_step ].
Qed.

End OptimizedStages.

Lemma page_clickFirst sels : confined pageCall nothing (Optimized.clickFirst sels).
Proof.
  induction sels as [| sel rest IH]; simpl.
  - apply confined_ret.
  - repeat first [ exact IH | confine_step ].
Qed.

Lemma page_fastScraper target : confined pageCall nothing (Optimized.fastScraper target).
Proof.
  unfold Optimized.fastScraper, Optimized.dismissCookies, lengthOf.
  repeat first [ apply page_clickFirst | confine_step ].
Qed.

Lemma fastScraper_outcome target (w : World) r w' :
  Optimized.fastScraper target w = (r, w') ->
  (exists res, r = Ok res /\ shaped res) \/
  (r = Throw "Page closed" /\ isClosed (pg w) = true /\ w' = w).
Proof.
  pose proof (@stage_fastScraper (@noExit) _ _ target w) as Hn.
  unfold Optimized.fastScraper in *. unfold bind at 1 in Hn. unfold bind at 1.
  unfold guardOpen in *. destruct (isClosed (pg w)).
  - intros E. injection E as <- <-. right. repeat split.
  - unfold tryCatch in *.
    match goal with |- context [match ?b w with _ => _ end] =>
      destruct (b w) as [[res | e | n] w1] eqn:Eb
    end; intros E.
    + injection E as <- <-. left. exists res. split; [reflexivity |].
      apply bind_Ok in Eb. destruct Eb as (v1 & wa & _ & Eb).
      apply bind_Ok in Eb. destruct Eb as (v2 & wb & _ & Eb).
      apply bind_Ok in Eb. destruct Eb as ([] & wc & _ & Eb).
      apply bind_Ok in Eb. destruct Eb as ([] & wd & _ & Eb).
      apply bind_Ok in Eb. destruct Eb as ([] & we & _ & Eb).
      apply bind_Ok in Eb. destruct Eb as (shot & wf & _ & Eb).
      apply bind_Ok in Eb. destruct Eb as ([] & wg & _ & Eb).
      unfold ret in Eb. injection Eb as <- _. left. eexists. reflexivity.
    + unfold ret in E. injection E as <- <-. left. eexists.
      split; [reflexivity | right; eexists; reflexivity].
    + exfalso. apply (Hn n). reflexivity.
Qed.

Lemma giveBack_spec (w : World) r w' :
  Optimized.giveBack w = (r, w') ->
  r = Ok tt /\
  if pageAcquired (loc w) && page (loc w) && negb (isClosed (pg w))
  then trace w' = CPoolRelease :: CEvaluate EvGc :: trace w
  else w' = w.
Proof.
  unfold Optimized.giveBack. unfold bind at 1 2 3. unfold get.
  destruct (pageAcquired (loc w) && page (loc w) && negb (isClosed (pg w))); cbn [when].
  - unfold tryCatch, bind. rewrite swallow_perform.
    unfold perform, advance. cbn [fst snd env clock].
    match goal with |- context [outcome ?x] => destruct (outcome x) end;
      unfold ret; intros E; injection E as <- <-; split; reflexivity.
  - unfold ret. intros E. injection E as <- <-. split; reflexivity.
Qed.

Lemma page_withPage target : confined pageCall nothing (Optimized.withPage target).
Proof. unfold Optimized.withPage. repeat first [ apply page_fastScraper | confine_step ]. Qed.

Lemma withPage_outcome target (w : World) r w' :
  Optimized.withPage target w = (r, w') ->
  ((exists res, r = Ok res /\ shaped res) \/ exists e, r = Throw e) /\
  madeOnly pageCall w w' /\ loc w' = loc w.
Proof.
  intros E. pose proof (page_withPage target w) as Hp. rewrite E in Hp. simpl in Hp.
  split; [| split].
  - unfold Optimized.withPage in E. unfold bind at 1 2 in E. unfold get in E.
    destruct (page (loc w)); unfold ret, throw in E.
    + destruct (fastScraper_outcome _ _ E) as [H | (-> & _)];
        [left; exact H | right; eexists; reflexivity].
    + injection E as <- _. right. eexists. reflexivity.
  - apply (@reach_madeOnly pageCall nothing); [| exact Hp].
    unfold nothing. intros a b ->. reflexivity.
  - apply (@reach_frame sameLoc _ pageCall nothing); [| exact Hp].
    unfold nothing. intros a b ->. reflexivity.
Qed.

Lemma serve_spec target (w : World) r w' :
  Optimized.serve target w = (r, w') ->
  (exists res, r = Ok res /\ shaped res) /\
  calls CPoolAcquire (trace w') = S (calls CPoolAcquire (trace w)) /\
  calls CPoolDestroy (trace w') = calls CPoolDestroy (trace w) /\
  calls CPoolRelease (trace w') <= S (calls CPoolRelease (trace w)) /\
  (calls CPoolRelease (trace w') = S (calls CPoolRelease (trace w)) ->
   hd_error (trace w') = Some CPoolRelease).
Proof.
  unfold Optimized.serve. unfold bind at 1. unfold modify at 1. unfold finally, tryCatch.
  set (wc := with_loc (fun l => set_pageAcquired false (set_page false l)) w).
  assert (Htc : trace wc = trace w) by reflexivity.
  assert (Hpc : pageAcquired (loc wc) = false) by reflexivity.
  clearbody wc. rewrite <- Htc. clear Htc w.
  unfold bind at 1. unfold perform at 1.
  destruct (advance None CPoolAcquire wc) as [ra wd] eqn:Ead.
  assert (Htd : trace wd = CPoolAcquire :: trace wc)
    by (unfold advance in Ead; injection Ead as _ <-; reflexivity).
  assert (Hpd : pageAcquired (loc wd) = false)
    by (unfold advance in Ead; injection Ead as _ <-; exact Hpc).
  destruct (outcome ra) as [v | e].
  - unfold bind at 1. unfold bindPage, modify at 1.
    unfold bind at 1. unfold modify at 1.
    match goal with |- context [Optimized.withPage target ?x] => set (we := x) end.
    assert (Hte : trace we = CPoolAcquire :: trace wc)
      by (subst we; destruct v; exact Htd).
    clearbody we.
    destruct (Optimized.withPage target we) as [r1 w1] eqn:E1.
    destruct (withPage_outcome _ _ E1) as (Hr1 & Hm1 & _).
    pose proof (madeOnly_calls CPoolDestroy Hm1 eq_refl) as Md.
    pose proof (madeOnly_calls CPoolRelease Hm1 eq_refl) as Mr.
    pose proof (madeOnly_calls CPoolAcquire Hm1 eq_refl) as Ma.
    rewrite Hte in Md, Mr, Ma. count_any.
    destruct Hr1 as [(res & -> & Hs) | (e & ->)]; cbv iota beta; unfold ret;
      (destruct (Optimized.giveBack w1) as [rz wz] eqn:Ez;
       destruct (giveBack_spec _ Ez) as (-> & Hz);
       intros E; injection E as <- <-;
       split;
       [ eexists; split; [reflexivity | first [exact Hs | right; eexists; reflexivity]] |];
       destruct (pageAcquired (loc w1) && page (loc w1) && negb (isClosed (pg w1)));
       [rewrite Hz; count_any | subst wz]; repeat split; try lia).
  - unfold ret.
    destruct (Optimized.giveBack wd) as [rz wz] eqn:Ez.
    destruct (giveBack_spec _ Ez) as (-> & Hz). rewrite Hpd in Hz. simpl in Hz. subst wz.
    intros E. injection E as <- <-.
    split; [eexists; split; [reflexivity | right; eexists; reflexivity] |].
    rewrite Htd. count_any. repeat split; try lia.
Qed.

Lemma optimized_critical parseURL (requestCount : nat) (mem : MemoryUsage) ctx (w : World) :
  isMemoryCritical Optimized.MEMORY_LIMITS mem = true ->
  let w' := snd (Optimized.runScrapeJob parseURL requestCount mem ctx w) in
  fst (Optimized.runScrapeJob parseURL requestCount mem ctx w)
    = Throw "Memory critical - restart initiated" /\
  timers (proc w') = 100%Z :: timers (proc w) /\
  (trace w' = trace w \/ trace w' = CGlobalGc :: trace w).
Proof.
  intros Hm. unfold Optimized.runScrapeJob. rewrite Hm.
  unfold bind, get, when, call_, scheduleRestart, modify, throw.
  destruct ((requestCount mod GC_FREQUENCY Optimized.MEMORY_LIMITS =? 0)
            && gc_exposed (runtime w)); cbn; repeat split; auto.
Qed.

(** The world once the job has passed its memory check. *)
Lemma optimized_prelude parseURL (requestCount : nat) (mem : MemoryUsage) ctx (w : World) :
  isMemoryCritical Optimized.MEMORY_LIMITS mem = false ->
  exists wb,
    (forall c, c <> CGlobalGc -> calls c (trace wb) = calls c (trace w)) /\
    Optimized.runScrapeJob parseURL requestCount mem ctx w
    = if url_rejected parseURL (ctx_url ctx)
      then (Ok (failure ("Invalid URL: " ++ show_url (ctx_url ctx))), wb)
      else Optimized.serve (show_url (ctx_url ctx)) wb.
Proof.
  intros Hm. unfold Optimized.runScrapeJob. rewrite Hm.
  unfold bind at 1. unfold get at 1. unfold bind at 1.
  destruct ((requestCount mod GC_FREQUENCY Optimized.MEMORY_LIMITS =? 0)
            && gc_exposed (runtime w)); cbn [when];
    unfold call_, ret; unfold bind at 1;
    destruct (MAX_REQUESTS_BEFORE_RESTART Optimized.MEMORY_LIMITS <=? requestCount);
    cbn [when]; unfold scheduleRestart, modify, ret;
    eexists; (split; [| destruct (url_rejected parseURL (ctx_url ctx)); reflexivity]);
    intros c Hc; cbn [trace snd advance with_proc];
    first [ reflexivity | apply calls_other; congruence ].
Qed.

Lemma optimized_served parseURL (requestCount : nat) (mem : MemoryUsage) ctx (w : World) r w' :
  isMemoryCritical Optimized.MEMORY_LIMITS mem = false ->
  Optimized.runScrapeJob parseURL requestCount mem ctx w = (r, w') ->
  (exists res, r = Ok res /\ shaped res) /\
  calls CPoolDestroy (trace w') = calls CPoolDestroy (trace w) /\
  calls CPoolRelease (trace w') <= S (calls CPoolRelease (trace w)) /\
  (calls CPoolRelease (trace w') = S (calls CPoolRelease (trace w)) ->
   hd_error (trace w') = Some CPoolRelease) /\
  calls CPoolAcquire (trace w')
  = (if url_rejected parseURL (ctx_url ctx) then calls CPoolAcquire (trace w)
     else S (calls CPoolAcquire (trace w))).
Proof.
  intros Hm E.
  destruct (@optimized_prelude parseURL requestCount mem ctx w Hm) as (wb & Hc & Hrun).
  rewrite Hrun in E. clear Hrun.
  pose proof (Hc CPoolDestroy ltac:(discriminate)) as Hd.
  pose proof (Hc CPoolRelease ltac:(discriminate)) as Hr.
  pose proof (Hc CPoolAcquire ltac:(discriminate)) as Ha.
  destruct (url_rejected parseURL (ctx_url ctx)).
  - injection E as <- <-.
    split; [eexists; split; [reflexivity | right; eexists; reflexivity] |].
    repeat split; try lia.
  - destruct (serve_spec _ _ E) as (H1 & H2 & H3 & H4 & H5).
    split; [exact H1 |]. rewrite <- Hd, <- Hr, <- Ha. repeat split; assumption.
Qed.

(** ** Credentials *)

Lemma lower_ascii_idem (c : ascii) : lower_ascii (lower_ascii c) = lower_ascii c.
Proof. destruct c as [[] [] [] [] [] [] [] []]; reflexivity. Qed.

Lemma toLowerCase_idem (s : string) : toLowerCase (toLowerCase s) = toLowerCase s.
Proof.
  induction s as [| c s IH]; simpl; [reflexivity |].
  now rewrite lower_ascii_idem, IH.
Qed.

Lemma lookup_lowercase A (name : string) (o : list (string * A)) :
  (forall k v, In (k, v) o -> toLowerCase k <> k) ->
  lookup (toLowerCase name) o = None.
Proof.
  induction o as [| [k v] o IH]; intros H; [reflexivity |].
  simpl. destruct (String.eqb k (toLowerCase name)) eqn:E.
  - apply String.eqb_eq in E. exfalso. apply (H k v); [left; reflexivity |].
    rewrite E. apply toLowerCase_idem.
  - apply IH. intros k' v' Hin. apply (H k' v'). right. exact Hin.
Qed.

Lemma workCall_jobCall (c : Call) : workCall c = true -> jobCall c = true.
Proof. unfold jobCall. intros ->. reflexivity. Qed.

Lemma countsOnly_jobOnly (a b : World) : countsOnly a b -> jobOnly a b.
Proof. intros (He & Hr & Hc & Hn & Ht & _ & Hp & _). repeat split; assumption. Qed.

Lemma job_afterAcquire parseURL ctx : confined jobCall jobOnly (afterAcquire parseURL ctx).
Proof.
  eapply confined_weaken;
    [exact workCall_jobCall | exact countsOnly_jobOnly | apply work_afterAcquire].
Qed.

Lemma job_jobRest parseURL ctx : confined jobCall jobOnly (jobRest parseURL ctx).
Proof.
  unfold jobRest, jobBody, jobCatch, releasePage, atTry, acquirePage, bindPage, touchPage.
  repeat first [ apply job_afterAcquire | confine_step | assigned ].
Qed.

Lemma jobOnly_trace (a b : World) : jobOnly a b -> trace b = trace a.
Proof. intros H. apply H. Qed.

Lemma jobOnly_sameBooks (a b : World) : jobOnly a b -> sameBooks a b.
Proof.
  intros (He & Hr & _ & _ & _ & Hp). unfold sameBooks. rewrite Hp.
  repeat split; try assumption. destruct (browser (proc a)); congruence.
Qed.

Lemma runScrapeJob_passesChecks parseURL ctx (w : World) :
  passesChecks parseURL ctx w -> runScrapeJob parseURL ctx w = jobRest parseURL ctx w.
Proof.
  intros [Hu Hc]. rewrite (runScrapeJob_unfold _ _ Hu).
  unfold bind at 1. unfold get. rewrite Hc. reflexivity.
Qed.

Lemma loginStage_skipped parseURL target ctx (w : World) :
  (forall k v, In (k, v) (credentials ctx) -> toLowerCase k <> k) ->
  loginStage parseURL target ctx w = (Ok tt, w).
Proof.
  intros H. unfold loginStage.
  destruct (findLoginSite parseURL target (loginInstructions ctx)) as [ls |]; [| reflexivity].
  now rewrite (lookup_lowercase (site ls) _ H).
Qed.

(* ===================================================================== *)
(** ** The login decision inside [priceScraper] *)
(* ===================================================================== *)

Lemma tryCatch_same_world A (body : M A) (handler : string -> M A) (w : World) :
  (forall e w1, snd (handler e w1) = w1) ->
  snd (tryCatch body handler w) = snd (body w).
Proof.
  intros Hh. unfold tryCatch. destruct (body w) as [[a | e | n] w1]; simpl; auto.
Qed.

Lemma guardOpen_same_world (msg : string) (w : World) : snd (guardOpen msg w) = w.
Proof. unfold guardOpen. destruct (isClosed (pg w)); reflexivity. Qed.

Lemma after_bind (R : World -> World -> Prop) `{FR : Frame R} A B (m : M A)
    (f : A -> M B) (w : World) :
  (forall a, keeps R (f a)) -> R (snd (m w)) (snd (bind m f w)).
Proof.
  intros Hf. unfold bind. destruct (m w) as [[a | e | n] w1]; simpl.
  - apply Hf.
  - apply frame_refl.
  - apply frame_refl.
Qed.

Lemma bind_fst_inv A B (m : M A) (f : A -> M B) (w : World) (b : B) :
  fst (bind m f w) = Ok b ->
  exists a, fst (m w) = Ok a /\ fst (f a (snd (m w))) = Ok b /\
            snd (bind m f w) = snd (f a (snd (m w))).
Proof.
  unfold bind. destruct (m w) as [[a | e | n] w1]; simpl; try discriminate.
  intros H. exists a. repeat split. exact H.
Qed.

(** [login] written with its first part named. *)
Lemma openLoginPage_then A (loginSite : LoginSite) (K : string -> M A) (w : World) :
  (guardOpen "Page closed before login" ;;
   perform (CGoto (url loginSite) "domcontentloaded" 90000) ;;
   waitSafely 2000 ;;
   currentLoginUrl <- get (fun w => pageUrl (pg w)) ;;
   modify (with_loc (fun l => set_stepSuccess 0 (set_loginSuccess false l))) ;;
   K currentLoginUrl) w
  = (currentLoginUrl <- openLoginPage loginSite ;; K currentLoginUrl) w.
Proof.
  unfold openLoginPage, bind.
  destruct (guardOpen "Page closed before login" w) as [[[] | e | n] w1]; try reflexivity.
  destruct (perform (CGoto (url loginSite) "domcontentloaded" 90000) w1)
    as [[v | e | n] w2]; try reflexivity.
Qed.

(** The page is reached with both variables fresh. *)
Lemma openLoginPage_fresh (loginSite : LoginSite) (w : World) (u : string) :
  fst (openLoginPage loginSite w) = Ok u ->
  let wl := snd (openLoginPage loginSite w) in
  loginSuccess (loc wl) = false /\ stepSuccess (loc wl) = 0 /\ u = pageUrl (pg wl).
Proof.
  unfold openLoginPage, bind.
  destruct (guardOpen "Page closed before login" w) as [[[] | e | n] w1];
    try discriminate.
  destruct (perform (CGoto (url loginSite) "domcontentloaded" 90000) w1)
    as [[v | e | n] w2]; try discriminate.
  cbn. intros E. injection E as <-. repeat split.
Qed.

Section LoginInside.

Variable parseURL : string -> option URL.
Variables (ctx : Context) (target : string) (w : World).
Variables (loginSite : LoginSite) (creds : list (string * string)) (u : string).

Hypothesis Hurl : ctx_url ctx = Some target.
Hypothesis Hvalid : url_rejected parseURL (Some target) = false.
Hypothesis Hopen : isClosed (pg w) = false.
Hypothesis Hsite : findLoginSite parseURL target (loginInstructions ctx) = Some loginSite.
Hypothesis Hcreds : lookup (toLowerCase (site loginSite)) (credentials ctx) = Some creds.
Hypothesis Hlogin : isValidUrl parseURL (url loginSite) = true.
Hypothesis Hreached : fst ((configure ;; openLoginPage loginSite) w) = Ok u.
Hypothesis Hsteps : onLocationPage loginSite u = false.

(** The world in which the steps begin. *)
Let wl : World := snd ((configure ;; openLoginPage loginSite) w).

Lemma steps_begin_fresh :
  loginSuccess (loc wl) = false /\ stepSuccess (loc wl) = 0.
Proof.
  subst wl. destruct (bind_fst_inv _ _ _ Hreached) as ([] & Hc & Hr & ->).
  destruct (openLoginPage_fresh loginSite _ Hr) as (H1 & H2 & _).
  split; assumption.
Qed.

(** What [priceScraper] leaves in [loginSuccess] and [stepSuccess] is what
    the login steps and the decision left there. *)
Lemma priceScraper_locals :
  loc (snd (priceScraper parseURL ctx w)) = loc (snd (attemptLogin loginSite creds wl)).
Proof.
  subst wl. unfold priceScraper. rewrite Hurl, Hvalid. simpl show_url.
  unfold bind at 1. unfold get. rewrite Hopen.
  rewrite tryCatch_same_world by reflexivity.
  etransitivity.
  { apply (@after_bind sameLoc _ _ _ (beforeCapture parseURL target ctx) (fun _ => capture)).
    intros _. apply (@stage_capture (@keeps sameLoc) sameLoc _). }
  destruct (bind_fst_inv _ _ _ Hreached) as ([] & Hc & Hr & ->).
  unfold beforeCapture. rewrite (@bind_fst _ _ configure _ w tt Hc).
  set (w0 := snd (configure w)) in *.
  etransitivity.
  { apply (@after_bind sameLoc _ _ _ (loginStage parseURL target ctx)
             (fun _ => afterLogin target)).
    intros _. apply (@stage_afterLogin (@keeps sameLoc) sameLoc _). }
  unfold loginStage. rewrite Hsite, Hcreds. unfold login.
  rewrite tryCatch_same_world by (intros; apply guardOpen_same_world).
  rewrite Hlogin. cbn [negb]. rewrite openLoginPage_then.
  rewrite (@bind_fst _ _ (openLoginPage loginSite) _ w0 u Hr).
  fold (onLocationPage loginSite u). rewrite Hsteps.
  rewrite tryCatch_same_world by (intros; apply guardOpen_same_world).
  apply (@after_bind sameLoc _ _ _ (attemptLogin loginSite creds) (fun _ => screenshotIfOpen)).
  intros _. apply (@stage_screenshotIfOpen (@keeps sameLoc) sameLoc _).
Qed.

(** A login that does not reach the decision leaves [loginSuccess] false. *)
Lemma undecided_login :
  fst (attemptLogin loginSite creds wl) <> Ok tt ->
  loginSuccess (loc (snd (priceScraper parseURL ctx w))) = false.
Proof.
  intros Hn. rewrite priceScraper_locals.
  destruct steps_begin_fresh as [Hf _].
  pose proof (@stage_runLoginSteps (@keeps sameVerdict) sameVerdict _
                sameVerdict_countStep loginSite creds wl) as Hv.
  unfold sameVerdict in Hv. revert Hn. unfold attemptLogin, bind.
  destruct (runLoginSteps loginSite creds wl) as [[[] | e | n] w1]; cbn [snd fst] in *.
  - intros Hn. exfalso. apply Hn. apply (decideLogin_run loginSite).
  - intros _. congruence.
  - intros _. congruence.
Qed.

End LoginInside.

(* ===================================================================== *)
(** ** The login heuristic and the wait steps, in [priceScraper] *)
(* ===================================================================== *)

(** C3: in [priceScraper], for a login site that matches the target and has
    credentials, once the login page is reached (and is not the Winsupply
    location page) and the steps have run to the decision, [stepSuccess]
    holds the number of steps that reported success, counted from zero,
    and [loginSuccess] is set exactly when the page has left the login URL
    or at least three quarters of the steps succeeded; with the URL
    unchanged, four fifths succeed and one half does not. Whatever the
    verdict, and whatever failed during configuration and login, a page
    that is still open is next sent to the target URL. *)
Theorem login_success_heuristic parseURL (ctx : Context) (target : string) (w : World)
    (loginSite : LoginSite) (creds : list (string * string)) (u : string) :
  ctx_url ctx = Some target ->
  url_rejected parseURL (Some target) = false ->
  isClosed (pg w) = false ->
  findLoginSite parseURL target (loginInstructions ctx) = Some loginSite ->
  lookup (toLowerCase (site loginSite)) (credentials ctx) = Some creds ->
  isValidUrl parseURL (url loginSite) = true ->
  fst ((configure ;; openLoginPage loginSite) w) = Ok u ->
  onLocationPage loginSite u = false ->
  let wl := snd ((configure ;; openLoginPage loginSite) w) in
  fst (attemptLogin loginSite creds wl) = Ok tt ->
  let wd := snd (attemptLogin loginSite creds wl) in
  let W := snd (priceScraper parseURL ctx w) in
  let n := List.length (steps loginSite) in
  let k := stepSuccess (loc W) in
  let w1 := snd ((configure ;; loginStage parseURL target ctx) w) in
  k = stepSuccess (loc wd) /\ k <= n /\
  (loginSuccess (loc W) = true <-> pageUrl (pg wd) <> url loginSite \/ 3 * n <= 4 * k) /\
  (pageUrl (pg wd) = url loginSite -> 5 * k = 4 * n -> loginSuccess (loc W) = true) /\
  (pageUrl (pg wd) = url loginSite -> 0 < n -> 2 * k = n ->
   loginSuccess (loc W) = false) /\
  (isClosed (pg w1) = false ->
   fst ((configure ;; loginStage parseURL target ctx) w) = Ok tt /\
   exists l, trace W = (l ++ gotoTarget target :: trace w1)%list).
Proof.
  intros Hu Hr Ho Hs Hc Hl Hp Hn wl Hok wd W n k w1.
  pose proof (@priceScraper_locals parseURL ctx target w loginSite creds u
                Hu Hr Ho Hs Hc Hl Hp Hn) as HW.
  fold wl in HW. fold wd in HW. fold W in HW.
  destruct (@steps_begin_fresh w loginSite u Hp) as [Hf H0]. fold wl in Hf, H0.
  assert (Hk : k = stepSuccess (loc wd)) by (subst k; now rewrite HW).
  assert (Hkn : k <= n).
  { rewrite Hk. subst wd n.
    destruct (attemptLogin loginSite creds wl) as [r w2] eqn:E.
    pose proof (@attemptLogin_counts loginSite creds wl r w2 E) as Hb.
    simpl. lia. }
  pose proof (attemptLogin_heuristic loginSite creds wl Hf Hok) as Hiff.
  cbv zeta in Hiff. fold wd in Hiff. fold n in Hiff. rewrite <- Hk in Hiff.
  assert (HL : loginSuccess (loc W) = loginSuccess (loc wd)) by now rewrite HW.
  rewrite <- HL in Hiff.
  split; [exact Hk |]. split; [exact Hkn |]. split; [exact Hiff |].
  split; [| split].
  - intros _ H5. apply Hiff. right. lia.
  - intros Hsame Hpos H2. destruct (loginSuccess (loc W)); [| reflexivity].
    destruct (proj1 Hiff eq_refl) as [H | H]; [contradiction | lia].
  - intros Ho1. split.
    + apply login_never_fatal. exact Ho1.
    + apply pipeline_proceeds; assumption.
Qed.

Lemma login_success_heuristic_witness :
  let good := snd (priceScraper exampleParse (shopJob fourOfFive) (boot shopEnv)) in
  let poor := snd (priceScraper exampleParse (shopJob oneOfTwo) (boot shopEnv)) in
  (stepSuccess (loc good) = 4 /\ loginSuccess (loc good) = true) /\
  (stepSuccess (loc poor) = 1 /\ loginSuccess (loc poor) = false) /\
  exists l,
    trace poor
    = (l ++ gotoTarget "https://www.shop.example.com/item/1"
         :: trace (snd ((configure ;;
                         loginStage exampleParse "https://www.shop.example.com/item/1"
                           (shopJob oneOfTwo)) (boot shopEnv))))%list.
Proof.
  cbv zeta.
  pose proof (@login_success_heuristic exampleParse (shopJob fourOfFive)
                "https://www.shop.example.com/item/1" (boot shopEnv)
                (shopLogin fourOfFive) shopCreds "https://shop.example.com/login"
                eq_refl eq_refl eq_refl eq_refl eq_refl eq_refl eq_refl eq_refl eq_refl)
    as Hgood.
  pose proof (@login_success_heuristic exampleParse (shopJob oneOfTwo)
                "https://www.shop.example.com/item/1" (boot shopEnv)
                (shopLogin oneOfTwo) shopCreds "https://shop.example.com/login"
                eq_refl eq_refl eq_refl eq_refl eq_refl eq_refl eq_refl eq_refl eq_refl)
    as Hpoor.
  cbv zeta in Hgood, Hpoor.
  destruct Hgood as (_ & _ & _ & Hg & _ & _).
  destruct Hpoor as (_ & _ & _ & _ & Hp & Hnav).
  split; [| split].
  - split; [reflexivity |]. apply Hg; reflexivity.
  - split; [reflexivity |]. apply Hp; [reflexivity | simpl; lia | reflexivity].
  - apply Hnav. reflexivity.
Defined.

(** C10, as stated, fails: with a recipe of three wait steps,
    a page that closes during the first wait leaves one step counted and
    the login unclassified; and when the screenshot of the login page
    fails, no step is run at all, on a page that stays open, and the
    pipeline still goes on to the target. *)
Lemma wait_steps_counterexample :
  forallb isWait onlyWaits = true /\
  stepSuccess (loc (snd (priceScraper exampleParse (shopJob onlyWaits)
                           (boot closesWhileWaiting)))) = 1 /\
  loginSuccess (loc (snd (priceScraper exampleParse (shopJob onlyWaits)
                            (boot closesWhileWaiting)))) = false /\
  stepSuccess (loc (snd (priceScraper exampleParse (shopJob onlyWaits)
                           (boot noLoginShot)))) = 0 /\
  loginSuccess (loc (snd (priceScraper exampleParse (shopJob onlyWaits)
                            (boot noLoginShot)))) = false /\
  isClosed (pg (snd (priceScraper exampleParse (shopJob onlyWaits)
                       (boot noLoginShot)))) = false /\
  calls (gotoTarget "https://www.shop.example.com/item/1")
    (trace (snd (priceScraper exampleParse (shopJob onlyWaits) (boot noLoginShot)))) = 1.
Proof. repeat split; vm_compute; reflexivity. Qed.

(** C10, amended: a wait step that the loop runs always counts as a
    success, whatever the page does meanwhile; but the loop checks
    [page._isClosed] before every step and throws, running and counting
    nothing more, when the page is closed. For a recipe of wait steps only,
    in [priceScraper], once the login page is reached (and is not the
    Winsupply location page): a login that reaches the decision has counted every
    step, meets the threshold and is classified successful wherever the
    page is; a login that does not reach it is not classified successful;
    and the decision is reached whenever the page is left open and the
    screenshot of the login page is taken (a buffer, or any other truthy
    value). *)
Theorem wait_steps_count_when_run parseURL (ctx : Context) (target : string) (w : World)
    (loginSite : LoginSite) (creds : list (string * string)) (u : string) :
  ctx_url ctx = Some target ->
  url_rejected parseURL (Some target) = false ->
  isClosed (pg w) = false ->
  findLoginSite parseURL target (loginInstructions ctx) = Some loginSite ->
  lookup (toLowerCase (site loginSite)) (credentials ctx) = Some creds ->
  isValidUrl parseURL (url loginSite) = true ->
  fst ((configure ;; openLoginPage loginSite) w) = Ok u ->
  onLocationPage loginSite u = false ->
  forallb isWait (steps loginSite) = true ->
  let wl := snd ((configure ;; openLoginPage loginSite) w) in
  let W := snd (priceScraper parseURL ctx w) in
  let n := List.length (steps loginSite) in
  (forall time w0,
     fst (execStep creds (StepWait time) w0) = Ok tt /\
     stepSuccess (loc (snd (execStep creds (StepWait time) w0)))
     = S (stepSuccess (loc w0))) /\
  (forall time rest w0,
     isClosed (pg w0) = true ->
     runSteps creds (StepWait time :: rest) w0
     = (Throw "Page closed during login steps", w0)) /\
  (fst (attemptLogin loginSite creds wl) = Ok tt ->
   stepSuccess (loc W) = n /\ mostStepsSucceeded (stepSuccess (loc W)) n = true /\
   loginSuccess (loc W) = true) /\
  (fst (attemptLogin loginSite creds wl) <> Ok tt -> loginSuccess (loc W) = false) /\
  (neverCloses (env wl) -> isClosed (pg wl) = false ->
   (forall i, exists v, outcome (env wl i (CScreenshot 60 None)) = Resolved v /\
                        truthy v = true) ->
   fst (attemptLogin loginSite creds wl) = Ok tt).
Proof.
  intros Hu Hr Ho Hs Hc Hl Hp Hn Hw wl W n.
  pose proof (@priceScraper_locals parseURL ctx target w loginSite creds u
                Hu Hr Ho Hs Hc Hl Hp Hn) as HW.
  fold wl in HW. fold W in HW.
  destruct (@steps_begin_fresh w loginSite u Hp) as [Hf H0]. fold wl in Hf, H0.
  pose proof (@attemptLogin_waits loginSite creds wl Hw) as (H1 & _ & H3 & H4).
  split; [exact H1 |]. split; [| split; [| split]].
  - intros time rest w0 Hcl. apply runSteps_wait_closed. exact Hcl.
  - intros Hok. destruct (H3 Hok) as [Hcount Hls]. rewrite H0 in Hcount.
    rewrite HW. fold n in Hcount. simpl in Hcount.
    split; [exact Hcount |]. split; [| exact Hls].
    rewrite Hcount. apply mostStepsSucceeded_spec. lia.
  - intros Hno. subst W wl.
    apply (@undecided_login parseURL ctx target w loginSite creds u); assumption.
  - exact H4.
Qed.

Lemma wait_steps_count_when_run_witness :
  let W := snd (priceScraper exampleParse (shopJob onlyWaits) (boot calm)) in
  stepSuccess (loc W) = 3 /\ loginSuccess (loc W) = true /\
  pageUrl (pg (snd (attemptLogin (shopLogin onlyWaits) shopCreds
                      (snd ((configure ;; openLoginPage (shopLogin onlyWaits))
                              (boot calm))))))
  = url (shopLogin onlyWaits).
Proof.
  cbv zeta.
  pose proof (@wait_steps_count_when_run exampleParse (shopJob onlyWaits)
                "https://www.shop.example.com/item/1" (boot calm)
                (shopLogin onlyWaits) shopCreds "https://shop.example.com/login"
                eq_refl eq_refl eq_refl eq_refl eq_refl eq_refl eq_refl eq_refl eq_refl)
    as H.
  cbv zeta in H. destruct H as (_ & _ & H3 & _ & H5).
  assert (Hok : fst (attemptLogin (shopLogin onlyWaits) shopCreds
                       (snd ((configure ;; openLoginPage (shopLogin onlyWaits))
                               (boot calm)))) = Ok tt).
  { apply H5.
    - exact calm_neverCloses.
    - reflexivity.
    - intros i. exists (VBuffer "jpeg"). split; reflexivity. }
  destruct (H3 Hok) as (Hc & _ & Hs).
  split; [exact Hc |]. split; [exact Hs | reflexivity].
Defined.

(* ===================================================================== *)
(** ** Further properties of the servers *)
(* ===================================================================== *)

(** X1: a run of [priceScraper] that comes to an end ends by returning: it
    does not throw and does not end the process, whatever the page and the
    environment answer; and what it returns is a JPEG whose data is truthy
    or the JSON of a failure. (Whether a call that is awaited without a
    race ever settles is not part of the statement.) *)
Theorem priceScraper_never_throws parseURL (ctx : Context) (w : World) :
  let r := fst (priceScraper parseURL ctx w) in
  (forall e, r <> Throw e) /\
  (forall n, r <> Exit n) /\
  (forall res, r = Ok res -> wellFormed res).
Proof.
  cbv zeta. destruct (priceScraper_answers parseURL ctx w) as (res & -> & Hw).
  split; [| split]; try discriminate.
  intros res' E. injection E as <-. exact Hw.
Qed.

(** X2: [priceScraper] keeps to the page it was given: every call it makes
    is a call on the page or a timer, so it never borrows from the pool,
    never launches or closes the browser; it leaves the supervisor's
    variables as they were, and the variables of [runScrapeJob] that say
    which page the job holds. *)
Theorem priceScraper_keeps_to_its_page parseURL (ctx : Context) (w : World) :
  let w' := snd (priceScraper parseURL ctx w) in
  madeOnly pageCall w w' /\ sameBooks w w' /\ sameHold w w'.
Proof.
  cbv zeta. pose proof (page_priceScraper parseURL ctx w) as H.
  split; [| split].
  - eapply reach_madeOnly; [exact countsOnly_trace | exact H].
  - eapply (@reach_frame sameBooks _); [exact countsOnly_sameBooks | exact H].
  - eapply (@reach_frame sameHold _); [exact countsOnly_sameHold | exact H].
Qed.

(** X3: a login step adds one to [stepSuccess] or leaves it, whatever its
    type and whatever fails; so the login steps, from the screenshot of the
    login page to the decision, never lower the counter and raise it by at
    most the number of steps: counted from zero, the number compared with
    three quarters of the steps never exceeds the number of steps. *)
Theorem login_steps_count_at_most_once (loginSite : LoginSite)
    (creds : list (string * string)) (w : World) :
  (forall step w0,
     stepSuccess (loc w0) <= stepSuccess (loc (snd (execStep creds step w0)))
       <= S (stepSuccess (loc w0))) /\
  let w' := snd (attemptLogin loginSite creds w) in
  stepSuccess (loc w) <= stepSuccess (loc w')
    <= stepSuccess (loc w) + List.length (steps loginSite).
Proof.
  split.
  - intros step w0. apply execStep_counts.
  - cbv zeta. destruct (attemptLogin loginSite creds w) as [r w'] eqn:E.
    exact (attemptLogin_counts _ _ _ E).
Qed.

(** X4: [humanType] never throws: it answers [true] or [false]. When it
    answers [true] it has waited for the selector, focused it and cleared
    the field, in that order, and the characters it then handed to
    [page.type] for that selector spell the text, in order. *)
Theorem humanType_types_the_text (sel text : string) (w : World) :
  let r := fst (humanType sel text w) in
  let w' := snd (humanType sel text w) in
  (exists b, r = Ok b) /\
  (r = Ok true ->
   exists l,
     trace w'
     = (l ++ CEvaluate (EvClearValue sel) :: CFocus sel :: CWaitForSelector sel 10000
          :: trace w)%list /\
     typed sel l = text).
Proof.
  cbv zeta. destruct (humanType sel text w) as [r w'] eqn:E.
  exact (humanType_run _ _ _ E).
Qed.

(** X5: [dismissCookies] of [server.mjs] never fails and never throws; on a
    closed page it does nothing at all; and all it ever does is query
    selectors (at most eight times), click, pause after a click, and run the
    text search. *)
Theorem dismissCookies_is_harmless (w : World) :
  let w' := snd (dismissCookies w) in
  fst (dismissCookies w) = Ok tt /\
  (isClosed (pg w) = true -> w' = w) /\
  exists l, trace w' = (l ++ trace w)%list /\ forallb cookieCall l = true /\
            countIf isQuery l <= 8.
Proof.
  cbv zeta. destruct (dismissCookies w) as [r w'] eqn:E.
  exact (dismissCookies_run _ E).
Qed.

(** X6: the navigation to the target calls [page.goto] at most three times.
    When it returns, the last call was a [page.goto] that resolved: it
    never returns with [navigationSuccessful] false. When it throws, the
    page is closed, or three calls were made and the error is the one of
    the third. *)
Theorem navigation_three_tries (target : string) (w : World) :
  let r := fst (navigate target w) in
  let w' := snd (navigate target w) in
  let goto := gotoTarget target in
  calls goto (trace w') <= calls goto (trace w) + 3 /\
  (forall u, r = Ok u ->
     u = Some tt /\ hd_error (trace w') = Some goto /\
     exists v, outcome (lastReply w') = Resolved v) /\
  (forall e, r = Throw e ->
     isClosed (pg w') = true \/
     (calls goto (trace w') = calls goto (trace w) + 3 /\
      hd_error (trace w') = Some goto /\ outcome (lastReply w') = Rejected e)) /\
  (forall n, r = Exit n -> False).
Proof.
  cbv zeta. destruct (navigate target w) as [r w'] eqn:E.
  destruct (navigate_rounds _ _ E) as [Hc Hr]. cbn [fst snd].
  split; [exact Hc |]. split; [| split].
  - intros u ->. destruct u as [[] |]; [| destruct Hr].
    split; [reflexivity | exact Hr].
  - intros e ->. exact Hr.
  - intros n ->. exact Hr.
Qed.

(** X7: the loop of [runScrapeJob] that borrows a page asks the pool between
    one and three times and never releases. When it ends with a page, the
    page is open, marked in use and stamped with the current time, the last
    call was the [acquire] that lent it, and every page destroyed was
    another one. When it ends without, [pageAcquired] is as before; it
    throws only the error of a third [acquire]. *)
Theorem acquire_three_tries (w : World) :
  let r := fst (acquirePage w) in
  let w' := snd (acquirePage w) in
  S (calls CPoolAcquire (trace w)) <= calls CPoolAcquire (trace w')
    <= calls CPoolAcquire (trace w) + 3 /\
  calls CPoolRelease (trace w') = calls CPoolRelease (trace w) /\
  match r with
  | Ok (Some _) =>
      calls CPoolDestroy (trace w') + S (calls CPoolAcquire (trace w))
        <= calls CPoolDestroy (trace w) + calls CPoolAcquire (trace w') /\
      hd_error (trace w') = Some CPoolAcquire /\
      pageAcquired (loc w') = true /\ page (loc w') = true /\ isClosed (pg w') = false /\
      inUse (pg w') = true /\ lastActivity (pg w') = now w'
  | Ok None =>
      calls CPoolDestroy (trace w') + calls CPoolAcquire (trace w)
        <= calls CPoolDestroy (trace w) + calls CPoolAcquire (trace w') /\
      pageAcquired (loc w') = pageAcquired (loc w)
  | Throw e =>
      calls CPoolDestroy (trace w') + calls CPoolAcquire (trace w)
        <= calls CPoolDestroy (trace w) + calls CPoolAcquire (trace w') /\
      pageAcquired (loc w') = pageAcquired (loc w) /\
      calls CPoolAcquire (trace w') = calls CPoolAcquire (trace w) + 3 /\
      outcome (lastReply w') = Rejected e
  | Exit _ => False
  end.
Proof.
  cbv zeta. destruct (acquirePage w) as [r w'] eqn:E.
  exact (@acquirePage_spec w r w' E).
Qed.

(** X8: a run of [runScrapeJob] of [server.mjs] that comes to an end returns
    a JPEG or the JSON of a failure, unless the job found the browser
    disconnected: only then can it throw, and then [Browser not available
    after restart], or can the process exit, and then with code 1. *)
Theorem runScrapeJob_throws_only_when_disconnected parseURL (ctx : Context) (w : World) :
  let r := fst (runScrapeJob parseURL ctx w) in
  (forall res, r = Ok res -> wellFormed res) /\
  (forall e, r = Throw e ->
     connected w = false /\ e = "Browser not available after restart") /\
  (forall n, r = Exit n -> connected w = false /\ n = 1).
Proof.
  cbv zeta. destruct (runScrapeJob parseURL ctx w) as [r w'] eqn:E. cbn [fst].
  destruct (runScrapeJob_outcome _ _ _ E) as [(res & -> & Hw) | (Hc & [-> | ->])].
  - split; [| split]; try discriminate.
    intros res' E'. injection E' as <-. exact Hw.
  - split; [| split]; try discriminate.
    intros e E'. injection E' as <-. split; [exact Hc | reflexivity].
  - split; [| split]; try discriminate.
    intros n E'. injection E' as <-. split; [exact Hc | reflexivity].
Qed.

(** X9: a job whose URL passes the check and that finds the browser
    connected asks the pool for a page between one and three times,
    releases at most once, and never hands back (by release or destroy)
    more pages than it asked for. When it releases, the release is its last
    call, and the page is marked not in use. *)
Theorem runScrapeJob_pool_discipline parseURL (ctx : Context) (w : World) :
  passesChecks parseURL ctx w ->
  let w' := snd (runScrapeJob parseURL ctx w) in
  S (calls CPoolAcquire (trace w)) <= calls CPoolAcquire (trace w')
    <= calls CPoolAcquire (trace w) + 3 /\
  calls CPoolRelease (trace w') <= S (calls CPoolRelease (trace w)) /\
  calls CPoolDestroy (trace w') + calls CPoolRelease (trace w')
    + calls CPoolAcquire (trace w)
    <= calls CPoolDestroy (trace w) + calls CPoolRelease (trace w)
       + calls CPoolAcquire (trace w') /\
  (calls CPoolRelease (trace w') = S (calls CPoolRelease (trace w)) ->
   hd_error (trace w') = Some CPoolRelease /\ inUse (pg w') = false).
Proof.
  intros Ha. cbv zeta. rewrite (runScrapeJob_passesChecks Ha).
  destruct (jobRest parseURL ctx w) as [r w'] eqn:E.
  destruct (jobRest_spec _ _ _ E) as (_ & H1 & H2 & H3 & H4 & _). cbn [snd].
  split; [exact H1 |]. split; [exact H2 |]. split; [exact H3 |].
  intros Hr. destruct (H4 Hr) as (Hh & _ & Hu). split; assumption.
Qed.

Lemma runScrapeJob_pool_discipline_witness :
  passesChecks exampleParse exampleJob (boot calm) /\
  let w' := snd (runScrapeJob exampleParse exampleJob (boot calm)) in
  calls CPoolAcquire (trace w') <= 3 /\ calls CPoolRelease (trace w') <= 1.
Proof.
  assert (Ha : passesChecks exampleParse exampleJob (boot calm)) by (split; reflexivity).
  split; [exact Ha |].
  pose proof (@runScrapeJob_pool_discipline exampleParse exampleJob (boot calm) Ha) as H.
  cbv zeta in H |- *. destruct H as ([_ H1] & H2 & _). split; [exact H1 | exact H2].
Defined.

(** X10: the [catch] block of [runScrapeJob] never destroys the page: a job
    (with a URL that passes the check, the browser connected) that has
    acquired a page ends with [page] still set. Such a job either
    releases the page, or the page was closed when the [finally] block ran,
    and then no call on the pool follows the [acquire] that lent it: a page
    that closes during the scrape is neither released nor destroyed. *)
Theorem closed_page_is_not_handed_back parseURL (ctx : Context) (w : World) :
  passesChecks parseURL ctx w ->
  let w' := snd (runScrapeJob parseURL ctx w) in
  pageAcquired (loc w') = true ->
  page (loc w') = true /\
  (calls CPoolRelease (trace w') = S (calls CPoolRelease (trace w)) \/
   (isClosed (pg w') = true /\
    exists l t, trace w' = (l ++ CPoolAcquire :: t)%list /\ forallb workCall l = true)).
Proof.
  intros Ha. cbv zeta. rewrite (runScrapeJob_passesChecks Ha).
  destruct (jobRest parseURL ctx w) as [r w'] eqn:E.
  destruct (jobRest_spec _ _ _ E) as (_ & _ & _ & _ & _ & H). exact H.
Qed.

Lemma closed_page_is_not_handed_back_witness :
  passesChecks exampleParse exampleJob (boot crashing) /\
  let w' := snd (runScrapeJob exampleParse exampleJob (boot crashing)) in
  pageAcquired (loc w') = true /\ page (loc w') = true /\
  calls CPoolRelease (trace w') = 0 /\ calls CPoolDestroy (trace w') = 0.
Proof.
  assert (Ha : passesChecks exampleParse exampleJob (boot crashing)) by (split; reflexivity).
  split; [exact Ha |].
  pose proof (@closed_page_is_not_handed_back exampleParse exampleJob (boot crashing) Ha
                eq_refl) as [H _].
  cbv zeta. split; [reflexivity |]. split; [exact H |]. split; reflexivity.
Defined.

(** X11: a job whose URL passes the check and that finds the browser
    connected makes only calls on its page, timers, the draw and the cache
    clearing, and [acquire], [release] and [destroy] on the pool: it never
    launches or closes the browser and never drains the pool; and it leaves
    the supervisor's variables as they were. *)
Theorem runScrapeJob_leaves_the_browser_alone parseURL (ctx : Context) (w : World) :
  passesChecks parseURL ctx w ->
  let w' := snd (runScrapeJob parseURL ctx w) in
  madeOnly jobCall w w' /\ sameBooks w w' /\
  calls CLaunch (trace w') = calls CLaunch (trace w) /\
  calls CBrowserClose (trace w') = calls CBrowserClose (trace w) /\
  calls CPoolDrain (trace w') = calls CPoolDrain (trace w).
Proof.
  intros Ha. cbv zeta. rewrite (runScrapeJob_passesChecks Ha).
  pose proof (job_jobRest parseURL ctx w) as H.
  assert (Hm : madeOnly jobCall w (snd (jobRest parseURL ctx w)))
    by (eapply reach_madeOnly; [exact jobOnly_trace | exact H]).
  split; [exact Hm |]. split.
  - eapply (@reach_frame sameBooks _); [exact jobOnly_sameBooks | exact H].
  - repeat split; apply (madeOnly_calls _ Hm); reflexivity.
Qed.

Lemma runScrapeJob_leaves_the_browser_alone_witness :
  passesChecks exampleParse exampleJob (boot calm) /\
  calls CLaunch (trace (snd (runScrapeJob exampleParse exampleJob (boot calm)))) = 0.
Proof.
  assert (Ha : passesChecks exampleParse exampleJob (boot calm)) by (split; reflexivity).
  split; [exact Ha |].
  pose proof (@runScrapeJob_leaves_the_browser_alone exampleParse exampleJob (boot calm) Ha)
    as H.
  cbv zeta in H. destruct H as (_ & _ & H & _). exact H.
Defined.

(** X12: the loop in which [runScrapeJob] waits for the browser ends
    normally only with the browser connected, and gives up, with [Browser
    not available after restart], only when more than thirty seconds have
    passed since it began; the 31 rounds it is given are never used up. *)
Theorem waiting_gives_up_after_thirty_seconds (w : World) :
  let r := fst (waitForBrowser 31 (now w) w) in
  let w' := snd (waitForBrowser 31 (now w) w) in
  ((r = Ok tt /\ connected w' = true) \/
   (r = Throw "Browser not available after restart" /\ connected w' = false /\
    (30000 < now w' - now w)%Z)) /\
  forall extra, waitForBrowser (31 + extra) (now w) w = waitForBrowser 31 (now w) w.
Proof.
  cbv zeta. split.
  - destruct (waitForBrowser 31 (now w) w) as [r w'] eqn:E.
    apply (waitForBrowser_spec 31 (now w) w); [| exact E].
    change (Z.of_nat 31) with 31%Z. lia.
  - intros extra. apply waitForBrowser_enough. change (Z.of_nat 31) with 31%Z. lia.
Qed.

(** X13: when the handler of [POST /scrape] of [server.mjs] comes to an end,
    it has answered: 200 with the image, 400 with a failure whose
    [success] is false, or 500; it answers 500 only when the job found the
    browser disconnected, and the error is then [Browser not available
    after restart]. It does not throw; and the process can end only with
    code 1, and only when the browser was disconnected. *)
Theorem postScrape_replies parseURL (req : Context) (w : World) :
  let r := fst (postScrape parseURL req w) in
  (forall resp, r = Ok resp -> scrapeReply w resp) /\
  (forall e, r <> Throw e) /\
  (forall n, r = Exit n -> connected w = false /\ n = 1).
Proof.
  cbv zeta. destruct (postScrape parseURL req w) as [r w'] eqn:E. cbn [fst].
  destruct (postScrape_outcome _ _ _ E) as [(resp & -> & Hs) | (Hc & ->)].
  - split; [| split]; try discriminate.
    intros resp' E'. injection E' as <-. exact Hs.
  - split; [| split]; try discriminate.
    intros n E'. injection E' as <-. split; [exact Hc | reflexivity].
Qed.

(** X14: a request whose URL is missing, empty, unparseable or not http(s)
    is answered 400 by [POST /scrape] with [success] false, and nothing
    else happens: the job is not queued, no call is made, the world is as
    before. *)
Theorem postScrape_refuses_before_queueing parseURL (req : Context) (w : World) :
  url_rejected parseURL (ctx_url req) = true ->
  exists e, postScrape parseURL req w
            = (Ok {| statusCode := 400; payload := ResultBody false e |}, w).
Proof. intros H. exact (postScrape_refuses _ _ w H). Qed.

Lemma postScrape_refuses_before_queueing_witness :
  url_rejected exampleParse (Some "ftp://example.com/") = true /\
  exists e, postScrape exampleParse (plainJob (Some "ftp://example.com/")) (boot calm)
            = (Ok {| statusCode := 400; payload := ResultBody false e |}, boot calm).
Proof.
  split; [reflexivity |].
  apply (@postScrape_refuses_before_queueing exampleParse
           (plainJob (Some "ftp://example.com/")) (boot calm)).
  reflexivity.
Defined.

(** X15: when [GET /healthz] finds the browser disconnected it answers 503,
    and the 503 always says [restarting: true]: either a restart was in
    progress, and then the handler has called nothing, or the handler has
    begun one itself, whose first call (the drain of the pool when there is
    a pool, else the close of the browser, else the timer of the pause) is
    made before the reply is built. It does not throw, and the process ends
    only when the restart bound is exceeded. With the browser connected it
    asks for the pages: when that call resolves it answers 200 with their
    number and the flag as it then is, and when it is rejected the handler
    throws without answering. *)
Theorem healthz_reports_the_restart (lent : nat) (w : World) :
  let r := fst (healthz lent w) in
  let w' := snd (healthz lent w) in
  (connected w = false ->
   (forall h begun,
      r = Ok (h, begun) ->
      httpStatus h = 503 /\ healthy h = false /\ restarting h = true /\
      totalPages h = 0 /\ isRestarting (proc w') = true /\
      begun = negb (isRestarting (proc w)) /\
      (begun = false -> trace w' = trace w) /\
      (begun = true ->
       match pagePool (proc w), browser (proc w) with
       | Some _, _ => trace w' = CPoolDrain :: trace w
       | None, Some _ => trace w' = CBrowserClose :: trace w
       | None, None => hd_error (trace w') = Some (CDelay (Fixed 5000))
       end)) /\
   (forall e, r <> Throw e) /\
   (forall n, r = Exit n ->
      n = 1 /\ isRestarting (proc w) = false /\ 5 < S (restartAttempts (proc w)) /\
      trace w' = trace w)) /\
  (connected w = true ->
   hd_error (trace w') = Some CBrowserPages /\
   match outcome (lastReply w') with
   | Resolved pages =>
       exists h, r = Ok (h, false) /\ httpStatus h = 200 /\ healthy h = true /\
                 restarting h = isRestarting (proc w') /\ totalPages h = handles pages
   | Rejected e => r = Throw e
   end).
Proof.
  cbv zeta. destruct (healthz lent w) as [r w'] eqn:E. cbn [fst snd]. split.
  - intros Hc. exact (@healthz_down lent w r w' Hc E).
  - intros Hc. destruct (@healthz_up lent w r w' Hc E) as (H1 & _ & H2). split; assumption.
Qed.

(** X16: once the [SIGTERM] handler of [server.mjs] is past its wait on the
    queue, no failure of the drain, the clear or the close keeps it from
    [process.exit(0)]: it cannot return or throw, and cannot exit with
    another code; and from there on all it calls is [drain] and [clear] on
    the pool, [close] on the browser and the garbage collector. *)
Theorem shutdown_ends_only_with_exit_0 (w : World) :
  let r := fst (releaseAndExit w) in
  (forall a, r <> Ok a) /\ (forall e, r <> Throw e) /\ (forall n, r = Exit n -> n = 0) /\
  madeOnly shutdownCall w (snd (releaseAndExit w)).
Proof.
  cbv zeta. destruct (releaseAndExit_run w) as [-> Hm].
  split; [| split; [| split]]; try discriminate; [| exact Hm].
  intros n E. injection E as <-. reflexivity.
Qed.

(** X17: a restart that passes the guard and the bound replaces the pool
    and leaves the browser connected exactly when the launch succeeds; in
    [server.mjs] each such restart also installs one more page-health
    interval, and none is ever removed. When the launch fails, the pool
    variable still names the pool that was drained. *)
Theorem restart_renews_pool_and_monitor (cfg : RestartConfig) (w : World) :
  isRestarting (proc w) = false ->
  S (restartAttempts (proc w)) <= MAX_RESTART_ATTEMPTS cfg ->
  let w' := snd (handleBrowserCrash cfg w) in
  match outcome (lastReply w') with
  | Resolved _ =>
      connected w' = true /\
      pagePool (proc w') = Some (match pagePool (proc w) with Some n => S n | None => 0 end) /\
      monitors (proc w') = (if monitorsPages cfg then S (monitors (proc w)) else monitors (proc w))
  | Rejected _ =>
      pagePool (proc w') = pagePool (proc w) /\ monitors (proc w') = monitors (proc w)
  end.
Proof.
  intros Hr Hb. cbv zeta. rewrite (handleBrowserCrash_runs cfg w Hr Hb).
  exact (restartSequence_renews cfg (entered w)).
Qed.

Lemma restart_renews_pool_and_monitor_witness :
  let w' := snd (handleBrowserCrash Server.restartConfig (boot calm)) in
  connected w' = true /\ pagePool (proc w') = Some 1 /\ monitors (proc w') = 2.
Proof.
  assert (Hb : S (restartAttempts (proc (boot calm)))
               <= MAX_RESTART_ATTEMPTS Server.restartConfig) by (vm_compute; lia).
  generalize (@restart_renews_pool_and_monitor Server.restartConfig (boot calm) eq_refl Hb).
  vm_compute. exact (fun H => H).
Defined.

(** X18: [handleBrowserCrash], in each of the servers, calls nothing but
    what tears the browser down and launches it again: it never borrows a
    page and never navigates; and it leaves the variables of a running job
    as they were. *)
Theorem restart_keeps_to_the_browser (cfg : RestartConfig) (w : World) :
  let w' := snd (handleBrowserCrash cfg w) in
  madeOnly restartCall w w' /\ loc w' = loc w.
Proof.
  cbv zeta. pose proof (confined_handleBrowserCrash cfg w) as H. split.
  - eapply reach_madeOnly; [exact booksOnly_trace | exact H].
  - eapply (@reach_frame sameLoc _); [exact booksOnly_sameLoc | exact H].
Qed.

(** X19: [isMemoryCritical] of the n8n servers, in bytes: memory is critical
    exactly when the heap in use reaches the threshold plus half a
    megabyte, or the resident set the threshold plus 200.5 megabytes; that
    is 734527488 and 944242688 bytes in [server-n8n-optimized.mjs],
    629669888 and 839385088 bytes in [server-n8n-with-login.mjs]. *)
Theorem memory_thresholds_in_bytes (mem : MemoryUsage) :
  (forall limits,
     isMemoryCritical limits mem = true <->
     (RESTART_THRESHOLD limits * 1048576 + 524288 <= heapUsed mem)%Z \/
     ((RESTART_THRESHOLD limits + 200) * 1048576 + 524288 <= rss mem)%Z) /\
  (isMemoryCritical Optimized.MEMORY_LIMITS mem = true <->
   (734527488 <= heapUsed mem)%Z \/ (944242688 <= rss mem)%Z) /\
  (isMemoryCritical WithLogin.MEMORY_LIMITS mem = true <->
   (629669888 <= heapUsed mem)%Z \/ (839385088 <= rss mem)%Z).
Proof.
  split; [intros limits; apply isMemoryCritical_spec |].
  split; rewrite isMemoryCritical_spec; reflexivity.
Qed.

(** X20: when memory is critical, [runScrapeJob] of
    [server-n8n-optimized.mjs] throws [Memory critical - restart initiated]
    after scheduling one restart in 100 ms; it has made no call but,
    possibly, the garbage collection of every tenth request, so no page was
    borrowed. *)
Theorem optimized_job_refuses_when_memory_is_critical parseURL (requestCount : nat)
    (mem : MemoryUsage) (ctx : Context) (w : World) :
  isMemoryCritical Optimized.MEMORY_LIMITS mem = true ->
  let w' := snd (Optimized.runScrapeJob parseURL requestCount mem ctx w) in
  fst (Optimized.runScrapeJob parseURL requestCount mem ctx w)
    = Throw "Memory critical - restart initiated" /\
  timers (proc w') = 100%Z :: timers (proc w) /\
  (trace w' = trace w \/ trace w' = CGlobalGc :: trace w).
Proof. apply optimized_critical. Qed.

Lemma optimized_job_refuses_when_memory_is_critical_witness :
  isMemoryCritical Optimized.MEMORY_LIMITS heavy = true /\
  fst (Optimized.runScrapeJob exampleParse 10 heavy exampleJob (boot calm))
    = Throw "Memory critical - restart initiated".
Proof.
  split; [reflexivity |].
  apply (@optimized_job_refuses_when_memory_is_critical exampleParse 10 heavy exampleJob
           (boot calm)).
  reflexivity.
Defined.

(** X21: when memory is not critical, a run of [runScrapeJob] of
    [server-n8n-optimized.mjs] that comes to an end ends by returning, an
    image or the JSON of a failure: it does not throw and does not end the
    process. It asks the pool for a page exactly once when the URL passes
    the check and not at all otherwise, never destroys a page, and
    releases at most once, as its last call. *)
Theorem optimized_job_never_throws parseURL (requestCount : nat) (mem : MemoryUsage)
    (ctx : Context) (w : World) :
  isMemoryCritical Optimized.MEMORY_LIMITS mem = false ->
  let r := fst (Optimized.runScrapeJob parseURL requestCount mem ctx w) in
  let w' := snd (Optimized.runScrapeJob parseURL requestCount mem ctx w) in
  ((forall e, r <> Throw e) /\ (forall n, r <> Exit n) /\
   (forall res, r = Ok res -> shaped res)) /\
  calls CPoolDestroy (trace w') = calls CPoolDestroy (trace w) /\
  calls CPoolRelease (trace w') <= S (calls CPoolRelease (trace w)) /\
  (calls CPoolRelease (trace w') = S (calls CPoolRelease (trace w)) ->
   hd_error (trace w') = Some CPoolRelease) /\
  calls CPoolAcquire (trace w')
  = (if url_rejected parseURL (ctx_url ctx) then calls CPoolAcquire (trace w)
     else S (calls CPoolAcquire (trace w))).
Proof.
  intros Hm. cbv zeta.
  destruct (Optimized.runScrapeJob parseURL requestCount mem ctx w) as [r w'] eqn:E.
  destruct (@optimized_served parseURL requestCount mem ctx w r w' Hm E)
    as ((res & -> & Hs) & Hrest).
  cbn [fst snd]. split; [| exact Hrest].
  split; [| split]; try discriminate.
  intros res' E'. injection E' as <-. exact Hs.
Qed.

Lemma optimized_job_never_throws_witness :
  isMemoryCritical Optimized.MEMORY_LIMITS light = false /\
  calls CPoolAcquire
    (trace (snd (Optimized.runScrapeJob exampleParse 1 light exampleJob (boot calm)))) = 1.
Proof.
  split; [reflexivity |].
  pose proof (@optimized_job_never_throws exampleParse 1 light exampleJob (boot calm) eq_refl)
    as H.
  cbv zeta in H. destruct H as (_ & _ & _ & _ & H). exact H.
Defined.

(** X22: the credentials of a login site are read under the site's name in
    lower case, and the read is exact: when every key of [credentials] has
    an upper-case letter, and no site's name is, in lower case, a property
    that every object inherits (such as [constructor]), the read is
    [undefined] for every site, so no login is attempted, whatever the
    recipes say: the login stage does nothing at all. *)
Theorem credentials_need_a_lowercase_key parseURL (target : string) (ctx : Context)
    (w : World) :
  (forall k v, In (k, v) (credentials ctx) -> toLowerCase k <> k) ->
  plainSiteNames ctx = true ->
  (forall s, In s (loginInstructions ctx) ->
     readProperty (toLowerCase (site s)) (credentials ctx) = Undefined) /\
  loginStage parseURL target ctx w = (Ok tt, w).
Proof.
  intros Hk Hp. split; [| apply loginStage_skipped; exact Hk].
  intros s Hs. unfold readProperty. rewrite (lookup_lowercase (site s) _ Hk).
  unfold plainSiteNames in Hp. rewrite forallb_forall in Hp.
  specialize (Hp s Hs). apply negb_true_iff in Hp. now rewrite Hp.
Qed.

Lemma credentials_need_a_lowercase_key_witness :
  plainSiteNames (shopJobCapitalised fourOfFive) = true /\
  loginStage exampleParse "https://www.shop.example.com/item/1"
    (shopJobCapitalised fourOfFive) (boot shopEnv) = (Ok tt, boot shopEnv) /\
  fst (loginStage exampleParse "https://www.shop.example.com/item/1"
         (shopJob fourOfFive) (boot shopEnv)) = Ok tt /\
  trace (snd (loginStage exampleParse "https://www.shop.example.com/item/1"
                (shopJob fourOfFive) (boot shopEnv))) <> [].
Proof.
  split; [reflexivity |].
  split; [| split; [reflexivity | vm_compute; discriminate]].
  apply (@credentials_need_a_lowercase_key exampleParse
           "https://www.shop.example.com/item/1" (shopJobCapitalised fourOfFive)
           (boot shopEnv)); [| reflexivity].
  intros k v [H | []]. injection H as <- _. vm_compute. discriminate.
Defined.
